(** * The single-run service harness ([dev/run_service_once.py])

    A shallow embedding of [RunService.try_run] and
    [RunService.load_service_manifest]: JSON documents, Python's dynamic
    errors, a directory tree for the local filesystem, and the harness
    itself as a state-and-exception computation over that tree. *)

From stdpp Require Import gmap strings list fin_maps pretty.
From Stdlib Require Import ZArith Lia.

Set Warnings "-register-all".
Open Scope string_scope.
Open Scope Z_scope.
Open Scope list_scope.

(** ** JSON documents

    What [json.load] and [yaml.safe_load] return.  Objects are string-keyed
    maps.  Numbers are integers: no score, size or timestamp handled by the
    harness is fractional. *)

Inductive json :=
| JNull
| JBool (b : bool)
| JInt (z : Z)
| JStr (s : string)
| JList (l : list json)
| JDict (d : gmap string json).

(** ** Python exceptions

    The classes the harness can see.  [Exception] stands for the plain
    [Exception(...)] the harness raises itself and for failures of the
    external libraries whose class the harness never inspects. *)

Inductive exn :=
| InvalidHeuristicException (msg : string)
| KeyError (key : json)
| TypeError (msg : string)
| AttributeError (msg : string)
| ValueError (msg : string)
| OSError (msg : string)
| Exception (msg : string).

Definition exn_str (e : exn) : string :=
  match e with
  | InvalidHeuristicException m | TypeError m | AttributeError m
  | ValueError m | OSError m | Exception m => m
  | KeyError (JStr k) => "'" +:+ k +:+ "'"
  | KeyError (JInt z) => pretty z
  | KeyError (JBool b) => if b then "True" else "False"
  | KeyError JNull => "None"
  | KeyError _ => ""
  end.

Definition is_ValueError (e : exn) : bool :=
  match e with ValueError _ => true | _ => false end.

Definition is_InvalidHeuristicException (e : exn) : bool :=
  match e with InvalidHeuristicException _ => true | _ => false end.

(** A call either returns or raises. *)

Inductive res (A : Type) :=
| Ok (a : A)
| Raise (e : exn).
Arguments Ok {A} a.
Arguments Raise {A} e.

#[export] Instance res_ret : MRet res := λ A a, Ok a.
#[export] Instance res_bind : MBind res :=
  λ A B f m, match m with Ok a => f a | Raise e => Raise e end.

(** [try: m  except InvalidHeuristicException: h] *)
Definition res_except_invalid {A} (m : res A) (h : res A) : res A :=
  match m with
  | Raise e => if is_InvalidHeuristicException e then h else Raise e
  | r => r
  end.

Fixpoint res_mapM {A B} (f : A → res B) (l : list A) : res (list B) :=
  match l with
  | [] => Ok []
  | x :: l' => y ← f x; ys ← res_mapM f l'; Ok (y :: ys)
  end.

(** ** Python operations on JSON values *)

Module Py.

(** [bool(j)] *)
Definition truthy (j : json) : bool :=
  match j with
  | JNull => false
  | JBool b => b
  | JInt z => negb (z =? 0)
  | JStr s => negb (String.eqb s "")
  | JList l => match l with [] => false | _ => true end
  | JDict d => negb (Nat.eqb (size d) 0)
  end.

(** [j[k]] with a string subscript *)
Definition getitem (j : json) (k : string) : res json :=
  match j with
  | JDict d => match d !! k with
               | Some v => Ok v
               | None => Raise (KeyError (JStr k))
               end
  | JList _ => Raise (TypeError "list indices must be integers or slices, not str")
  | JStr _ => Raise (TypeError "string indices must be integers")
  | _ => Raise (TypeError "object is not subscriptable")
  end.

(** [j[k] = v] with a string subscript *)
Definition setitem (j : json) (k : string) (v : json) : res json :=
  match j with
  | JDict d => Ok (JDict (<[k := v]> d))
  | JList _ => Raise (TypeError "list indices must be integers or slices, not str")
  | _ => Raise (TypeError "object does not support item assignment")
  end.

(** [j.pop(k, None)], keeping only the receiver: the popped value is
    dropped at both call sites. *)
Definition pop (j : json) (k : string) : res json :=
  match j with
  | JDict d => Ok (JDict (delete k d))
  | JList _ => Raise (TypeError "pop expected at most 1 argument, got 2")
  | _ => Raise (AttributeError "object has no attribute 'pop'")
  end.

(** [j.get(k, dflt)] *)
Definition get (j : json) (k : string) (dflt : json) : res json :=
  match j with
  | JDict d => Ok (default dflt (d !! k))
  | _ => Raise (AttributeError "object has no attribute 'get'")
  end.

(** Dictionary keys must be hashable. *)
Definition hash_check (j : json) : res unit :=
  match j with
  | JList _ | JDict _ => Raise (TypeError "unhashable type")
  | _ => Ok tt
  end.

(** The elements a [for] loop visits. *)
Definition iter (j : json) : res (list json) :=
  match j with
  | JList l => Ok l
  | JDict d => Ok (JStr <$> (map_to_list d).*1)
  | JStr s => Ok ((λ c, JStr (String c EmptyString)) <$> String.list_ascii_of_string s)
  | _ => Raise (TypeError "object is not iterable")
  end.

End Py.

(** ** The heuristic catalog and the result normalizer (lines 124-144) *)

Record heuristic := Heuristic { heur_name : string; heur_score : Z }.

(** Heuristic ids are integers or strings. *)
Abbreviation heur_id_t := (Z + string)%type.

(** The dictionary key a JSON value hashes to: [True] and [1] are the same
    key, lists and objects are unhashable, [None] is a key no id equals. *)
Definition heur_key (j : json) : res (option heur_id_t) :=
  match j with
  | JInt z => Ok (Some (inl z))
  | JBool b => Ok (Some (inl (if b then 1 else 0)))
  | JStr s => Ok (Some (inr s))
  | JNull => Ok None
  | _ => Raise (TypeError "unhashable type")
  end.

Definition heur_id_json (k : heur_id_t) : json :=
  match k with inl z => JInt z | inr s => JStr s end.

(** ** Dictionaries built by the harness

    A dictionary with keys of any hashable kind is kept as the list of
    its items, in insertion order. *)

(** The key of a hashable value; what is unhashable is never stored. *)
Definition dict_key (j : json) : option heur_id_t :=
  match heur_key j with Ok k => k | Raise _ => None end.

(** Two values are the same key: they are equal as Python values. *)
Definition same_key (a b : json) : bool := bool_decide (dict_key a = dict_key b).

(** [d[k] = v]: a key that is in the dictionary keeps its place, and its
    first spelling, and takes the new value; a new key goes last. *)
Fixpoint dict_set (k v : json) (d : list (json * json)) : list (json * json) :=
  match d with
  | [] => [(k, v)]
  | (k', v') :: d' =>
      if same_key k k' then (k', v) :: d' else (k', v') :: dict_set k v d'
  end.

(** The dictionary that storing the pairs one after the other gives. *)
Definition dict_of (pairs : list (json * json)) : list (json * json) :=
  foldl (λ d p, dict_set p.1 p.2 d) [] pairs.

Section Normalizer.

(** Modelled from the spec: the HeuristicCatalog, a mapping from heuristic
    id to a name and a score.  It is what [get_heuristics()] returns;
    [assemblyline_v4_service.common.helper] is not among the sources. *)
Variable heuristics : gmap heur_id_t heuristic.

Definition catalog_lookup (heur_id : json) : res (option heuristic) :=
  k ← heur_key heur_id;
  Ok (k ≫= λ k, heuristics !! k).

(** Modelled from the spec: [service_heuristic_to_result_heuristic] of the
    assemblyline base library, which is not among the sources.  The id of
    the section's reference is looked up in the catalog; found, the
    reference is replaced by the resolved record of id, name and score;
    not found, the resolution fails, which the caller sees as
    [InvalidHeuristicException]. *)
Definition service_heuristic_to_result_heuristic (srv_heuristic : json)
  : res json :=
  heur_id ← Py.getitem srv_heuristic "heur_id";
  definition ← catalog_lookup heur_id;
  match definition with
  | Some d =>
      Ok (JDict (<["heur_id" := heur_id]>
                 (<["name" := JStr (heur_name d)]>
                 (<["score" := JInt (heur_score d)]> ∅))))
  | None => Raise (InvalidHeuristicException "Heuristic does not exist, skipping...")
  end.

(** [heuristics[heur_id]['name']] *)
Definition catalog_name (heur_id : json) : res json :=
  definition ← catalog_lookup heur_id;
  match definition with
  | Some d => Ok (JStr (heur_name d))
  | None => Raise (KeyError heur_id)
  end.

(** [total_score += score] *)
Definition add_score (total : Z) (score : json) : res Z :=
  match score with
  | JInt z => Ok (total + z)
  | JBool b => Ok (total + (if b then 1 else 0))
  | _ => Raise (TypeError "unsupported operand type(s) for +=")
  end.

(** [file.pop('path', None)] *)
Definition pop_path (file : json) : res json := Py.pop file "path".

(** Lines 124-126.  The concatenation builds a new list of the same
    objects, so the pops land in the entries of [result] itself.  Two
    strings also concatenate; their characters have no [pop]. *)
Definition strip_result (result : json) : res json :=
  result ← Py.pop result "temp_submission_data";
  response ← Py.getitem result "response";
  extracted ← Py.getitem response "extracted";
  supplementary ← Py.getitem response "supplementary";
  match extracted, supplementary with
  | JList a, JList b =>
      a' ← res_mapM pop_path a;
      b' ← res_mapM pop_path b;
      response ← Py.setitem response "extracted" (JList a');
      response ← Py.setitem response "supplementary" (JList b');
      Py.setitem result "response" response
  | JStr a, JStr b =>
      if String.eqb (a +:+ b) "" then Ok result
      else Raise (AttributeError "'str' object has no attribute 'pop'")
  | _, _ => Raise (TypeError "unsupported operand type(s) for +")
  end.

(** The body of the loop of line 133 (lines 134-143) for one section;
    [total] is the running [total_score]. *)
Definition score_section (section : json) (total : Z) : res (json * Z) :=
  h ← Py.getitem section "heuristic";
  if Py.truthy h then
    heur_id ← Py.getitem h "heur_id";
    '(section, total) ←
      res_except_invalid
        (r ← service_heuristic_to_result_heuristic h;
         section ← Py.setitem section "heuristic" r;
         h' ← Py.getitem section "heuristic";
         score ← Py.getitem h' "score";
         total ← add_score total score;
         Ok (section, total))
        (section ← Py.setitem section "heuristic" JNull;
         Ok (section, total));
    (* line 143, outside the try: the right-hand side is evaluated first *)
    name ← catalog_name heur_id;
    h' ← Py.getitem section "heuristic";
    h' ← Py.setitem h' "name" name;
    section ← Py.setitem section "heuristic" h';
    Ok (section, total)
  else Ok (section, total).

Fixpoint score_sections (sections : list json) (total : Z)
  : res (list json * Z) :=
  match sections with
  | [] => Ok ([], total)
  | section :: rest =>
      '(section, total) ← score_section section total;
      '(rest, total) ← score_sections rest total;
      Ok (section :: rest, total)
  end.

(** Lines 132-144. *)
Definition score_result (result : json) : res json :=
  r ← Py.getitem result "result";
  sections ← Py.getitem r "sections";
  items ← Py.iter sections;
  '(items, total_score) ← score_sections items 0;
  let sections := match sections with JList _ => JList items | _ => sections end in
  r ← Py.setitem r "sections" sections;
  r ← Py.setitem r "score" (JInt total_score);
  Py.setitem result "result" r.

End Normalizer.

(** ** The local filesystem

    A tree of directories and regular files; a path is absolute, the list
    of its components below the root, and [os.path.join] appends
    components.  Links and permissions are not modelled. *)

Inductive node :=
| File (data : string)
| Dir (entries : gmap string node).

Abbreviation path := (list string).

Module Fs.

Fixpoint get (p : path) (n : node) : option node :=
  match p with
  | [] => Some n
  | c :: q =>
      match n with
      | Dir es => match es !! c with Some m => get q m | None => None end
      | File _ => None
      end
  end.

(** [os.path.isfile], [os.path.isdir], [os.path.exists] *)
Definition isfile (p : path) (n : node) : bool :=
  match get p n with Some (File _) => true | _ => false end.
Definition isdir (p : path) (n : node) : bool :=
  match get p n with Some (Dir _) => true | _ => false end.
Definition exists_ (p : path) (n : node) : bool :=
  match get p n with Some _ => true | None => false end.

(** Bind the entry at [p] to [x], or unbind it when [x] is [None].  The
    parent of [p] must be a directory; the root has no parent. *)
Fixpoint set_at (p : path) (x : option node) (n : node) : option node :=
  match p with
  | [] => None
  | c :: q =>
      match n with
      | File _ => None
      | Dir es =>
          match q with
          | [] => Some (Dir (partial_alter (λ _, x) c es))
          | _ :: _ =>
              match es !! c with
              | Some m =>
                  match set_at q x m with
                  | Some m' => Some (Dir (<[c := m']> es))
                  | None => None
                  end
              | None => None
              end
          end
      end
  end.

(** The chain of fresh directories [os.makedirs] creates below the
    first missing component. *)
Fixpoint mkchain (p : path) : node :=
  match p with
  | [] => Dir ∅
  | c :: q => Dir {[ c := mkchain q ]}
  end.

(** [os.makedirs(p)]: fails when [p] exists or passes through a file. *)
Fixpoint makedirs (p : path) (n : node) : option node :=
  match p with
  | [] => None
  | c :: q =>
      match n with
      | File _ => None
      | Dir es =>
          match es !! c with
          | Some m =>
              match makedirs q m with
              | Some m' => Some (Dir (<[c := m']> es))
              | None => None
              end
          | None => Some (Dir (<[c := mkchain q]> es))
          end
      end
  end.

(** [open(p).read()] *)
Definition read (p : path) (n : node) : option string :=
  match get p n with Some (File data) => Some data | _ => None end.

(** [open(p, 'wb')] followed by writing [data]: creates or truncates. *)
Definition write (p : path) (data : string) (n : node) : option node :=
  if isdir p n then None else set_at p (Some (File data)) n.

(** [os.unlink(p)] *)
Definition unlink (p : path) (n : node) : option node :=
  if isfile p n then set_at p None n else None.

(** [shutil.rmtree(p)] *)
Definition rmtree (p : path) (n : node) : option node :=
  if isdir p n then set_at p None n else None.

(** [os.listdir(p)], in no particular order *)
Definition listdir (p : path) (n : node) : option (list string) :=
  match get p n with
  | Some (Dir es) => Some (map_to_list es).*1
  | _ => None
  end.

(** [shutil.copyfile(src, dst)] *)
Definition copyfile (src dst : path) (n : node) : option node :=
  if decide (src = dst) then None
  else match read src n with
       | Some data => write dst data n
       | None => None
       end.

Definition basename (p : path) : string := List.last p "".
Definition dirname (p : path) : path := removelast p.

(** [os.rename(src, dst)] as [shutil.move] reaches it, with the copying
    fallbacks of [shutil.move], which have the same outcome: a regular
    file replaces a regular file; nothing replaces a directory; a
    directory is not moved into itself. *)
Definition rename (src dst : path) (n : node) : option node :=
  match get src n with
  | None => None
  | Some x =>
      if decide (src = dst) then Some n
      else if decide (src `prefix_of` dst) then None
      else
        match x, get dst n with
        | _, Some (Dir _) => None
        | Dir _, Some (File _) => None
        | _, _ =>
            match set_at src None n with
            | Some n1 => set_at dst (Some x) n1
            | None => None
            end
        end
  end.

(** [shutil.move(src, dst)] *)
Definition move (src dst : path) (n : node) : option node :=
  if isdir dst n then
    if decide (src = dst) then rename src dst n
    else
      let real_dst := dst ++ [basename src] in
      if exists_ real_dst n then None else rename src real_dst n
  else rename src dst n.

End Fs.

(** ** The collaborators of the harness *)

(** The dictionary [identify.fileinfo] returns, restricted to the keys the
    harness copies into the task. *)
Record FileInfo := mkFileInfo {
  fi_magic : string; fi_md5 : string; fi_mime : string; fi_sha1 : string;
  fi_sha256 : string; fi_size : Z; fi_type : string }.

(** The [ServiceTask] of lines 74-90.  [service_config] is the dictionary
    [self.submission_params], as the list of its items in insertion
    order. *)
Record task := mkTask {
  sid : string;
  service_name : string;
  service_config : list (json * json);
  fileinfo : FileInfo;
  filename : string;
  max_files : Z;
  ttl : Z }.

(** The service under test: an instance of the class that
    [load_module_by_path] returns.  Its methods act on the filesystem and
    may raise. *)
Record service := mkService {
  start_service : node → res unit * node;
  handle_task : task → node → res unit * node;
  stop_service : node → res unit * node }.

Inductive level := DEBUG | INFO | ERROR.

(** What a run does besides touching files: log records and calls into
    the service under test, in the order they happen. *)
Inductive event :=
| EvLog (lvl : level) (msg : string)
| EvStartService
| EvHandleTask (t : task)
| EvStopService.

(** The globals set by the command line, the process environment and the
    external libraries; none of them is defined in the harness. *)
Record env := mkEnv {
  SERVICE_PATH : string;
  SERVICE_NAME : string;
  FILE_PATH : path;
  args_debug : bool;
  (** [os.getcwd()] and [tempfile.gettempdir()] *)
  getcwd : path;
  gettempdir : path;
  (** the class is called with the [config] keyword *)
  load_module_by_path : string → res (json → res service);
  (** [identify.fileinfo], as a function of the bytes of the file *)
  identify_fileinfo : string → FileInfo;
  (** [cart.unpack_stream], from the bytes read to the bytes written *)
  unpack_stream : string → res string;
  yaml_safe_load : string → res json;
  json_load : string → res json;
  (** the [Service] and [Result] data-model constructors, which validate *)
  Service : json → res unit;
  Result : json → res json;
  pformat : json → list string;
  get_random_id : string;
  get_heuristics : gmap heur_id_t heuristic;
  (** the successive readings of the system clock, in seconds since the
      epoch: [time k] is what the [k]-th call of [now_as_iso] reads *)
  time : nat → Z }.

(** ** The state of a run *)

Record world := mkWorld {
  fs : node;
  ticks : nat;
  trace : list event;
  (** the attributes of the [RunService] object *)
  self_service_class : option (json → res service);
  self_service : option service;
  self_submission_params : option (list (json * json));
  self_file_dir : option path }.

Definition set_fs (n : node) (w : world) : world :=
  mkWorld n (ticks w) (trace w) (self_service_class w) (self_service w)
          (self_submission_params w) (self_file_dir w).
Definition set_ticks (k : nat) (w : world) : world :=
  mkWorld (fs w) k (trace w) (self_service_class w) (self_service w)
          (self_submission_params w) (self_file_dir w).
Definition add_event (e : event) (w : world) : world :=
  mkWorld (fs w) (ticks w) (trace w ++ [e]) (self_service_class w)
          (self_service w) (self_submission_params w) (self_file_dir w).
Definition set_service_class (c : json → res service) (w : world) : world :=
  mkWorld (fs w) (ticks w) (trace w) (Some c) (self_service w)
          (self_submission_params w) (self_file_dir w).
Definition set_service (s : service) (w : world) : world :=
  mkWorld (fs w) (ticks w) (trace w) (self_service_class w) (Some s)
          (self_submission_params w) (self_file_dir w).
Definition set_submission_params (ps : list (json * json)) (w : world) : world :=
  mkWorld (fs w) (ticks w) (trace w) (self_service_class w) (self_service w)
          (Some ps) (self_file_dir w).
Definition set_file_dir (d : path) (w : world) : world :=
  mkWorld (fs w) (ticks w) (trace w) (self_service_class w) (self_service w)
          (self_submission_params w) (Some d).

(** A statement of the harness: it runs in a world and returns or raises,
    in both cases leaving a world behind. *)
Definition M (A : Type) : Type := world → res A * world.

#[export] Instance M_ret : MRet M := λ A a w, (Ok a, w).
#[export] Instance M_bind : MBind M :=
  λ A B f m w, match m w with
               | (Ok a, w') => f a w'
               | (Raise e, w') => (Raise e, w')
               end.
#[global] Typeclasses Opaque M.

Definition raise {A} (e : exn) : M A := λ w, (Raise e, w).
Definition lift {A} (r : res A) : M A := λ w, (r, w).
Definition update (f : world → world) : M unit := λ w, (Ok tt, f w).

(** [try: m  except Exception as e: h e] *)
Definition try_except {A} (m : M A) (h : exn → M A) : M A :=
  λ w, match m w with
       | (Raise e, w') => h e w'
       | r => r
       end.

Fixpoint for_each {A} (l : list A) (body : A → M unit) : M unit :=
  match l with
  | [] => mret tt
  | x :: l' => body x ;; for_each l' body
  end.

Definition log (lvl : level) (msg : string) : M unit :=
  update (add_event (EvLog lvl msg)).

Definition fs_query {A} (f : node → A) : M A := λ w, (Ok (f (fs w)), w).

Definition fs_update (what : string) (f : node → option node) : M unit :=
  λ w, match f (fs w) with
       | Some n => (Ok tt, set_fs n w)
       | None => (Raise (OSError what), w)
       end.

Definition fs_read (p : path) : M string :=
  λ w, match Fs.read p (fs w) with
       | Some data => (Ok data, w)
       | None => (Raise (OSError "open"), w)
       end.

Definition fs_listdir (p : path) : M (list string) :=
  λ w, match Fs.listdir p (fs w) with
       | Some names => (Ok names, w)
       | None => (Raise (OSError "listdir"), w)
       end.

(** [self.service.<method>(...)] *)
Definition call_service (e : event) (method : service → node → res unit * node)
  : M unit :=
  λ w, match self_service w with
       | None => (Raise (AttributeError "'NoneType' object has no attribute"), w)
       | Some svc =>
           let w := add_event e w in
           let '(r, n) := method svc (fs w) in (r, set_fs n w)
       end.

Definition show_path (p : path) : string := String.concat "/" p.

(** [str.lower] on the ASCII letters *)
Definition lower_ascii (c : Ascii.ascii) : Ascii.ascii :=
  let n := Ascii.nat_of_ascii c in
  if (Nat.leb 65 n && Nat.leb n 90)%bool then Ascii.ascii_of_nat (n + 32) else c.
Fixpoint lower (s : string) : string :=
  match s with
  | EmptyString => EmptyString
  | String c s' => String (lower_ascii c) (lower s')
  end.

(** ** The harness *)

Section Harness.

Variable E : env.

(** [now_as_iso(offset)] of the assemblyline base library: the current
    time plus [offset] seconds.  Every call reads the clock once.  The
    ISO-8601 rendering is left out: a timestamp is kept as its number of
    seconds since the epoch. *)
Definition now_as_iso (offset : Z) : M json :=
  λ w, (Ok (JInt (time E (ticks w) + offset)), set_ticks (S (ticks w)) w).

(** The pairs the comprehension of line 195 evaluates, one for each
    entry and in the order of the entries: the key, the value, and the
    hashing of the key that storing the pair starts with. *)
Fixpoint param_pairs (items : list json) : res (list (json * json)) :=
  match items with
  | [] => Ok []
  | x :: rest =>
      name ← Py.getitem x "name";
      dflt ← Py.getitem x "default";
      Py.hash_check name;;
      ps ← param_pairs rest;
      Ok ((name, dflt) :: ps)
  end.

(** [{x['name']: x['default'] for x in ...}] (line 195): a dictionary,
    so an entry whose name is already a key replaces the value stored
    under it. *)
Definition submission_params_of (items : list json) : res (list (json * json)) :=
  pairs ← param_pairs items;
  Ok (dict_of pairs).

Definition service_manifest_yml : path := getcwd E ++ ["service_manifest.yml"].

(** Lines 191-199 of [load_service_manifest]: what follows the
    validation of the manifest. *)
Definition configure_service (service_manifest_data heuristics : json)
  (return_heuristics : bool) : M json :=
  service_config ←
    (if Py.truthy service_manifest_data
     then lift (Py.get service_manifest_data "config" (JDict ∅))
     else mret (JDict ∅));
  params ← lift (Py.get service_manifest_data "submission_params" (JList []));
  items ← lift (Py.iter params);
  submission_params ← lift (submission_params_of items);
  update (set_submission_params submission_params);;
  service_class ← (λ w, (match self_service_class w with
                         | Some c => Ok c
                         | None => Raise (TypeError "'NoneType' object is not callable")
                         end, w));
  svc ← lift (service_class service_config);
  update (set_service svc);;
  mret (if return_heuristics then heuristics else JNull).

(** Lines 176-189: read the manifest, set the extra keys aside and
    validate what is left.  The model object bound to [self.service] at
    line 187 is replaced at line 197 before anything reads it; only its
    validation is kept.  Returns [service_manifest_data] and
    [heuristics]. *)
Definition read_manifest : M (json * json) :=
  text ← fs_read service_manifest_yml;
  service_manifest_data ← lift (yaml_safe_load E text);
  heuristics ← lift (Py.get service_manifest_data "heuristics" JNull);
  service_manifest_data ← lift (Py.pop service_manifest_data "file_required");
  service_manifest_data ← lift (Py.pop service_manifest_data "tool_version");
  service_manifest_data ← lift (Py.pop service_manifest_data "heuristics");
  try_except
    (lift (Service E service_manifest_data))
    (λ e, log ERROR ("Invalid service manifest: " +:+ exn_str e));;
  mret (service_manifest_data, heuristics).

(** [RunService.load_service_manifest] (lines 172-201) *)
Definition load_service_manifest (return_heuristics : bool) : M json :=
  present ← fs_query (Fs.exists_ service_manifest_yml);
  if (present : bool) then
    '(service_manifest_data, heuristics) ← read_manifest;
    configure_service service_manifest_data heuristics return_heuristics
  else
    raise (Exception "Service manifest YAML file not found in root folder of service.").

(** Lines 56-71: identify the input and bring its payload to the
    content-addressed path under the temp directory.  Returns
    [file_info] and [target_file]. *)
Definition identify_and_unwrap : M (FileInfo * path) :=
  data ← fs_read (FILE_PATH E);
  let file_info := identify_fileinfo E data in
  if String.eqb (fi_type file_info) "archive/cart" then
    let original_temp := gettempdir E ++ [fi_sha256 file_info] in
    (* both files are opened, the output truncated, then the input read *)
    _ ← fs_read (FILE_PATH E);
    fs_update "open" (Fs.write original_temp "");;
    packed ← fs_read (FILE_PATH E);
    unpacked ← lift (unpack_stream E packed);
    fs_update "write" (Fs.write original_temp unpacked);;
    data ← fs_read original_temp;
    let file_info := identify_fileinfo E data in
    let target_file := gettempdir E ++ [fi_sha256 file_info] in
    fs_update "move" (Fs.move original_temp target_file);;
    log INFO ("File was a CaRT archive, it was un-CaRTed to "
              +:+ show_path target_file +:+ " for processing");;
    mret (file_info, target_file)
  else
    let target_file := gettempdir E ++ [fi_sha256 file_info] in
    fs_update "copyfile" (Fs.copyfile (FILE_PATH E) target_file);;
    mret (file_info, target_file).

(** Lines 124-149, the part of the [try] block that rewrites the parsed
    result. *)
Definition normalize_result (service_task : task) (result : json) : M json :=
  result ← lift (strip_result result);
  let heuristics := get_heuristics E in
  result ← lift (score_result heuristics result);
  created ← now_as_iso 0;
  result ← lift (Py.setitem result "created" created);
  archive_ts ← now_as_iso (1 * 24 * 60 * 60);
  result ← lift (Py.setitem result "archive_ts" archive_ts);
  expiry_ts ← now_as_iso (ttl service_task * 24 * 60 * 60);
  result ← lift (Py.setitem result "expiry_ts" expiry_ts);
  mret result.

(** Lines 121-159.  The file is opened for reading only; [pformat] stands
    for the lines of [pprint.pformat(result.result.as_primitives())]. *)
Definition validate_result (result_json : path) (service_task : task) : M unit :=
  text ← fs_read result_json;
  try_except
    (result ← lift (json_load E text);
     result ← normalize_result service_task result;
     result ← lift (Result E result);
     if args_debug E then for_each (pformat E result) (log DEBUG) else mret tt)
    (λ e, log ERROR ("Invalid result created: " +:+ exn_str e)).

Definition staging_dir : path := gettempdir E ++ ["working_directory"].

Definition result_json_of (service_task : task) : path :=
  gettempdir E ++
    [sid service_task +:+ "_" +:+ fi_sha256 (fileinfo service_task) +:+ "_result.json"].

(** Lines 103-112: empty the shared staging directory into the
    workspace and remove it. *)
Definition collect_staging (working_dir : path) : M unit :=
  let source := staging_dir in
  present ← fs_query (Fs.exists_ source);
  (if (present : bool) then mret tt else fs_update "makedirs" (Fs.makedirs source));;
  files ← fs_listdir source;
  for_each files (λ f,
    fs_update "move" (Fs.move (source ++ [f]) (working_dir ++ ["working_directory"])));;
  fs_update "rmtree" (Fs.rmtree source).

(** Lines 103-167: everything after [handle_task] has returned. *)
Definition after_handle (working_dir : path) (service_task : task)
  (target_file : path) : M unit :=
  collect_staging working_dir;;
  let result_json := result_json_of service_task in
  present ← fs_query (Fs.exists_ result_json);
  if (present : bool) then
    validate_result result_json service_task;;
    log INFO ("Cleaning up file used for temporary processing: "
              +:+ show_path target_file);;
    fs_update "unlink" (Fs.unlink target_file);;
    log INFO ("Moving " +:+ show_path result_json +:+ " to the working directory: "
              +:+ show_path working_dir +:+ "/result.json");;
    fs_update "move" (Fs.move result_json (working_dir ++ ["result.json"]));;
    log INFO ("Successfully completed task. Output directory: "
              +:+ show_path working_dir)
  else
    raise (Exception "A service error occured and no result json was found.").

Definition working_dir_of (file_dir : path) : path :=
  file_dir ++ [Fs.basename (FILE_PATH E) +:+ "_" +:+ lower (SERVICE_NAME E)].

(** Lines 95-98 *)
Definition prepare_workspace (working_dir : path) : M unit :=
  d ← fs_query (Fs.isdir working_dir);
  (if (d : bool) then fs_update "rmtree" (Fs.rmtree working_dir) else mret tt);;
  d ← fs_query (Fs.isdir working_dir);
  (if (d : bool) then mret tt
   else fs_update "makedirs" (Fs.makedirs (working_dir ++ ["working_directory"]))).

(** Lines 74-90 *)
Definition make_task (submission_params : list (json * json))
  (file_info : FileInfo) (file_name : string) : task :=
  {| sid := get_random_id E;
     service_name := SERVICE_NAME E;
     service_config := submission_params;
     fileinfo := file_info;
     filename := file_name;
     max_files := 501;
     ttl := 3600 |}.

(** Lines 32-100 of [RunService.try_run]: everything up to the return of
    [handle_task].  [None] is the early [return] of line 44; otherwise
    the locals the rest of the function uses: [working_dir],
    [service_task] and [target_file]. *)
Definition run_task : M (option (path * task * path)) :=
  service_class ←
    match load_module_by_path E (SERVICE_PATH E) with
    | Ok c => mret c
    | Raise e =>
        if is_ValueError e then raise e
        else
          log ERROR "Could not find service in path. Check your environment variables.";;
          raise e
    end;
  update (set_service_class service_class);;
  load_service_manifest false;;
  found ← fs_query (Fs.isfile (FILE_PATH E));
  if (found : bool) then
    let file_dir := Fs.dirname (FILE_PATH E) in
    update (set_file_dir file_dir);;
    let file_name := Fs.basename (FILE_PATH E) in
    let working_dir := working_dir_of file_dir in
    call_service EvStartService start_service;;
    '(file_info, target_file) ← identify_and_unwrap;
    submission_params ← (λ w, (Ok (default [] (self_submission_params w)), w));
    let service_task := make_task submission_params file_info file_name in
    log INFO ("Starting task with SID: " +:+ sid service_task);;
    prepare_workspace working_dir;;
    call_service (EvHandleTask service_task) (λ svc, handle_task svc service_task);;
    mret (Some (working_dir, service_task, target_file))
  else
    log INFO ("File not found: " +:+ show_path (FILE_PATH E));;
    mret None.

(** [RunService.try_run] (lines 31-167) *)
Definition try_run : M unit :=
  locals ← run_task;
  match locals with
  | Some (working_dir, service_task, target_file) =>
      after_handle working_dir service_task target_file
  | None => mret tt
  end.

End Harness.

(** ** Vocabulary of the properties *)

(** Two paths are related when one leads to or through the other. *)
Fixpoint related (p q : path) : bool :=
  match p, q with
  | c :: p', d :: q' => if decide (c = d) then related p' q' else false
  | _, _ => true
  end.

Definition apart (p q : path) : Prop := related p q = false.

(** The catalog entry a section's heuristic reference resolves to. *)
Definition resolved (heuristics : gmap heur_id_t heuristic) (section : json)
  : option heuristic :=
  match Py.getitem section "heuristic" with
  | Ok h =>
      match Py.getitem h "heur_id" with
      | Ok heur_id =>
          match catalog_lookup heuristics heur_id with
          | Ok (Some d) => Some d
          | _ => None
          end
      | Raise _ => None
      end
  | Raise _ => None
  end.

(** The sum of the scores of the sections whose heuristic id is in the
    catalog; the other sections count for nothing. *)
Fixpoint resolved_total (heuristics : gmap heur_id_t heuristic)
  (sections : list json) : Z :=
  match sections with
  | [] => 0
  | section :: rest =>
      match resolved heuristics section with
      | Some d => heur_score d
      | None => 0
      end + resolved_total heuristics rest
  end.

(** A section is well formed for the scorer when it is an object whose
    heuristic is empty or a reference that the catalog resolves. *)
Definition section_resolves (heuristics : gmap heur_id_t heuristic)
  (section : json) : Prop :=
  ∃ h, Py.getitem section "heuristic" = Ok h ∧
       (Py.truthy h = false ∨ is_Some (resolved heuristics section)).

(** A top-level field of a returned document. *)
Definition field (key : string) (r : res json) : option json :=
  match r with
  | Ok (JDict d) => d !! key
  | _ => None
  end.

Definition doc_list (doc : json) (key : string) : list json :=
  match Py.getitem doc "response" with
  | Ok response =>
      match Py.getitem response key with
      | Ok (JList l) => l
      | _ => []
      end
  | Raise _ => []
  end.

Definition entry_has_path (entry : json) : bool :=
  match entry with
  | JDict d => match d !! "path" with Some _ => true | None => false end
  | _ => false
  end.

(** Some entry of [extracted] or [supplementary] carries a [path] field. *)
Definition leaks_path (doc : json) : bool :=
  existsb entry_has_path (doc_list doc "extracted" ++ doc_list doc "supplementary").

(** Whether the service under test was started or handed a task. *)
Definition executed (tr : list event) : bool :=
  existsb (λ e, match e with EvStartService | EvHandleTask _ => true | _ => false end) tr.

(** What the canonical file should hold: the input itself, or the decoded
    payload of a CaRT input. *)
Definition payload_of (E : env) (data : string) : res string :=
  if String.eqb (fi_type (identify_fileinfo E data)) "archive/cart"
  then unpack_stream E data
  else Ok data.

(** A statement is quiet when it leaves the files alone and does not call
    into the service under test. *)
Definition quiet {A} (m : M A) : Prop :=
  ∀ w r w', m w = (r, w') →
            fs w' = fs w ∧ executed (trace w') = executed (trace w).

(** The manifest cannot be used: it is missing or unreadable, or its text
    does not parse to a YAML mapping. *)
Definition manifest_unusable (E : env) (n : node) : bool :=
  match Fs.read (service_manifest_yml E) n with
  | None => true
  | Some text =>
      match yaml_safe_load E text with
      | Ok (JDict _) => false
      | _ => true
      end
  end.

(** The manifest as the [Service] model sees it, the extra keys popped. *)
Definition manifest_core (d : gmap string json) : json :=
  JDict (delete "heuristics" (delete "tool_version" (delete "file_required" d))).

(** ** A concrete service, manifest and input *)

Module Demo.

Definition obj (l : list (string * json)) : json := JDict (list_to_map l).

Definition catalog : gmap heur_id_t heuristic :=
  {[ inl 42 := Heuristic "SUSPICIOUS_API" 500 ]}.

Definition section_of (heur_id : Z) : json :=
  obj [("heuristic", obj [("heur_id", JInt heur_id)])].

(** The result the service writes: one extracted file with its local
    path, one section that refers to heuristic 42. *)
Definition raw_doc : json :=
  obj [("temp_submission_data", obj []);
       ("response",
        obj [("extracted",
              JList [obj [("name", JStr "a.bin");
                          ("path", JStr "/tmp/working_directory/a.bin")]]);
             ("supplementary", JList [])]);
       ("result", obj [("sections", JList [section_of 42])])].

(** A result with an unknown heuristic id after, and before, a known
    one. *)
Definition doc_with (sections : list json) : json :=
  obj [("response", obj [("extracted", JList []); ("supplementary", JList [])]);
       ("result", obj [("sections", JList sections)])].

Definition raw_text : string := "RAW".

(** A service that stages one file and writes its result. *)
Definition handle (deposit : bool) (t : task) (n : node) : res unit * node :=
  match Fs.makedirs ["tmp"; "working_directory"] n with
  | Some n1 =>
      match Fs.write ["tmp"; "working_directory"; "a.bin"] "payload" n1 with
      | Some n2 =>
          if deposit then
            match Fs.write ["tmp"; sid t +:+ "_" +:+ fi_sha256 (fileinfo t)
                                     +:+ "_result.json"] raw_text n2 with
            | Some n3 => (Ok tt, n3)
            | None => (Raise (OSError "write"), n2)
            end
          else (Ok tt, n2)
      | None => (Raise (OSError "write"), n1)
      end
  | None => (Raise (OSError "makedirs"), n)
  end.

Definition svc (deposit : bool) : service :=
  {| start_service := λ n, (Ok tt, n);
     handle_task := handle deposit;
     stop_service := λ n, (Ok tt, n) |}.

Definition cart_magic : string := "CART".

(** A stand-in for [identify.fileinfo]: the digest is the content
    itself, and a file that starts with the CaRT magic is a CaRT. *)
Definition identify (data : string) : FileInfo :=
  {| fi_magic := "data"; fi_md5 := "md5:" +:+ data; fi_mime := "application/octet-stream";
     fi_sha1 := "sha1:" +:+ data; fi_sha256 := "sha256:" +:+ data;
     fi_size := Z.of_nat (String.length data);
     fi_type := if String.prefix cart_magic data then "archive/cart" else "unknown" |}.

Definition unpack (data : string) : res string :=
  if String.prefix cart_magic data
  then Ok (String.substring 4 (String.length data - 4) data)
  else Raise (Exception "not a CaRT").

(** [deposit]: the service writes a result; [valid]: the manifest passes
    the [Service] model; [clock]: the readings of the system clock. *)
Definition env_of (deposit valid : bool) (clock : nat → Z) : env :=
  {| SERVICE_PATH := "pkg.Demo"; SERVICE_NAME := "Demo";
     FILE_PATH := ["data"; "sample.bin"];
     args_debug := false;
     getcwd := ["svc"]; gettempdir := ["tmp"];
     load_module_by_path := λ _, Ok (λ _, Ok (svc deposit));
     identify_fileinfo := identify;
     unpack_stream := unpack;
     yaml_safe_load := λ text,
       if String.eqb text "name: Demo" then Ok (obj [("name", JStr "Demo")])
       else Raise (Exception "YAMLError");
     json_load := λ text,
       if String.eqb text raw_text then Ok raw_doc
       else if String.eqb text "UNKNOWN"
            then Ok (doc_with [section_of 99; section_of 42])
            else Raise (ValueError "JSONDecodeError");
     Service := λ _, if valid then Ok tt else Raise (ValueError "missing field 'version'");
     Result := λ j, Ok j;
     pformat := λ _, [];
     get_random_id := "sid0";
     get_heuristics := catalog;
     time := clock |}.

Definition ticking : nat → Z := λ k, 1600000000 + Z.of_nat k.
Definition frozen : nat → Z := λ _, 1600000000.

Definition E : env := env_of true true ticking.

Definition disk (input : string) (manifest : bool) : node :=
  Dir (list_to_map
         [("svc", Dir (if manifest
                       then {[ "service_manifest.yml" := File "name: Demo" ]}
                       else ∅));
          ("tmp", Dir ∅);
          ("data", Dir {[ "sample.bin" := File input ]})]).

Definition boot (n : node) : world :=
  {| fs := n; ticks := 0; trace := [];
     self_service_class := None; self_service := None;
     self_submission_params := None; self_file_dir := None |}.

Definition w0 : world := boot (disk "abc" true).

Definition the_task : task :=
  make_task E [] (identify "abc") "sample.bin".

Definition workspace : path := ["data"; "sample.bin_demo"].

(** The state in which a statement leaves the world, and its outcome. *)
Definition after {A} (m : M A) (w : world) : world := (m w).2.
Definition outcome {A} (m : M A) (w : world) : res A := (m w).1.

(** The document of an outcome, [null] for a raise. *)
Definition document (r : res json) : json :=
match r with Ok j => j | Raise _ => JNull end.

Definition target : path := ["tmp"; "sha256:abc"].

(** The world in which [handle_task] has returned. *)
Definition handled (E' : env) : world := after (run_task E') w0.

(** A result file whose only content is a reference to heuristic 99. *)
Definition unknown_world : world := boot (Dir {[ "r.json" := File "UNKNOWN" ]}).

Definition E_silent : env := env_of false true ticking.
Definition E_rejecting : env := env_of true false ticking.
Definition E_frozen : env := env_of true true frozen.

(** What the normalizer makes of the result the service writes. *)
Definition normalized : json :=
document (outcome (normalize_result E the_task raw_doc) w0).

Definition w_no_input : world :=
boot (Dir (list_to_map
             [("svc", Dir {[ "service_manifest.yml" := File "name: Demo" ]});
              ("tmp", Dir ∅); ("data", Dir ∅)])).

Definition w_no_manifest : world := boot (disk "abc" false).

End Demo.

(** ** The rest of [run_service_once.py] *)

(** [RunService.stop] (lines 169-170) *)
Definition stop : M unit := call_service EvStopService stop_service.

(** The character [.], code 46 *)
Definition dot : Ascii.ascii := Ascii.ascii_of_nat 46.

(** [SERVICE_PATH.split(".")[-1]]: what follows the last dot, the whole
    string when there is none.  [acc] is the component read so far. *)
Fixpoint last_component (s acc : string) : string :=
  match s with
  | EmptyString => acc
  | String c s' =>
      if Ascii.eqb c dot then last_component s' ""
      else last_component s' (acc +:+ String c "")
  end.

(** [SERVICE_NAME] as the main block computes it (line 213). *)
Definition service_name_of (service_path : string) : string :=
  lower (last_component service_path "").

(** Lines 210-214: the globals the main block takes from the command
    line, on top of the process environment and the libraries of [base]. *)
Definition main_env (base : env) (service_path : string) (file_path : path)
  (debug : bool) : env :=
  {| SERVICE_PATH := service_path;
     SERVICE_NAME := service_name_of service_path;
     FILE_PATH := file_path;
     args_debug := debug;
     getcwd := getcwd base; gettempdir := gettempdir base;
     load_module_by_path := load_module_by_path base;
     identify_fileinfo := identify_fileinfo base;
     unpack_stream := unpack_stream base;
     yaml_safe_load := yaml_safe_load base;
     json_load := json_load base;
     Service := Service base; Result := Result base;
     pformat := pformat base;
     get_random_id := get_random_id base;
     get_heuristics := get_heuristics base;
     time := time base |}.

(** [RunService.__init__] (lines 25-29): the four attributes are
    [None].  The world starts on [disk], with no clock reading taken and
    an empty trace. *)
Definition fresh (disk : node) : world :=
  {| fs := disk; ticks := 0; trace := [];
     self_service_class := None; self_service := None;
     self_submission_params := None; self_file_dir := None |}.

(** Lines 223-224: a fresh [RunService] runs once. *)
Definition main (base : env) (service_path : string) (file_path : path)
  (debug : bool) (disk : node) : res unit * world :=
  try_run (main_env base service_path file_path debug) (fresh disk).

(** A statement emits events of one kind only when everything it adds to
    the trace satisfies [ok]. *)
Definition emits {A} (ok : event → bool) (m : M A) : Prop :=
  ∀ w r w', m w = (r, w') →
            ∃ evs, trace w' = trace w ++ evs ∧ forallb ok evs = true.

Definition is_stop (e : event) : bool :=
  match e with EvStopService => true | _ => false end.

(** How far a run has got with the service under test. *)
Inductive stage := Idle | Started | Handed.

(** [phase E s evs s']: the events [evs] take a run from stage [s] to
    stage [s'].  Log records leave the stage as it is; [start_service]
    is called when idle, [handle_task] once started, with a task of the
    harness's making; nothing else is called. *)
Inductive phase (E : env) : stage → list event → stage → Prop :=
| phase_done s : phase E s [] s
| phase_log s lvl msg evs s' :
    phase E s evs s' → phase E s (EvLog lvl msg :: evs) s'
| phase_start evs s' :
    phase E Started evs s' → phase E Idle (EvStartService :: evs) s'
| phase_handle params fi evs s' :
    phase E Handed evs s' →
    phase E Started
      (EvHandleTask (make_task E params fi (Fs.basename (FILE_PATH E))) :: evs) s'.

(** A statement that, run at stage [s], adds to the trace the events of
    a phase that starts at [s]. *)
Definition staged {A} (E : env) (s : stage) (m : M A) : Prop :=
  ∀ w r w', m w = (r, w') →
            ∃ evs s', trace w' = trace w ++ evs ∧ phase E s evs s'.

(** The value a list of pairs gives a key when a later pair overrides an
    earlier one: the value of the last pair with that key. *)
Fixpoint lookup_key (k : json) (pairs : list (json * json)) : option json :=
  match pairs with
  | [] => None
  | (k', v') :: rest =>
      match lookup_key k rest with
      | Some v => Some v
      | None => if same_key k k' then Some v' else None
      end
  end.

Definition is_log (e : event) : bool :=
  match e with EvLog _ _ => true | _ => false end.

(** A statement keeps an attribute [f] of the world when it leaves the
    world with the value of [f] it found. *)
Definition keeps {A B} (f : world → B) (m : M A) : Prop :=
  ∀ w r w', m w = (r, w') → f w' = f w.

(** An entry of [extracted] or [supplementary] without its [path]. *)
Definition drop_path (entry : json) : json :=
  match entry with
  | JDict d => JDict (delete "path" d)
  | _ => entry
  end.

(** The record a resolved reference is replaced by. *)
Definition resolved_record (heur_id : json) (d : heuristic) : json :=
  JDict (<["heur_id" := heur_id]>
         (<["name" := JStr (heur_name d)]>
         (<["score" := JInt (heur_score d)]> ∅))).

(** A manifest entry of [submission_params]. *)
Definition param_entry (p : json * json) : json :=
  JDict (<["name" := p.1]> (<["default" := p.2]> ∅)).

Definition hashable (j : json) : bool :=
  match j with JList _ | JDict _ => false | _ => true end.

(** ** The batch regeneration utility ([testing/regenerate_results.py]) *)

Module Regen.

Definition required_env : list string :=
  ["SERVICE_MANIFEST_PATH"; "SERVICE_TESTING_RESULT_FOLDER"; "SERVICE_PATH"].

Definition optional_env : list string :=
  ["SERVICE_TESTING_EXTRA_SAMPLE_FOLDER"; "FULL_SAMPLES_LOCATION"].

(** The value of [extra_folder] at line 31: [None], a string left as it
    is because it is empty, or a one-element list. *)
Inductive extra :=
| ExtraNone
| ExtraStr (s : string)
| ExtraList (l : list string).

(** How [run] ends: [exit(code)], an exception, or the call of
    [TestHelper] with its three arguments, on whose result
    [regenerate_results] is then called.  [TestHelper] is not among the
    sources; the model stops at its call. *)
Inductive ending (C : Type) :=
| SysExit (code : Z)
| Failed (e : exn)
| Helper (service_class : C) (result_folder : string) (extra_folder : extra).
Arguments SysExit {C} code.
Arguments Failed {C} e.
Arguments Helper {C} service_class result_folder extra_folder.

(** Lines 19-22: the first required variable that is not set ends the
    loop. *)
Fixpoint check_required (environ : gmap string string) (vars : list string)
  : option string :=
  match vars with
  | [] => None
  | env :: rest =>
      match environ !! env with
      | None => Some ("[E] You must set " +:+ env +:+ " environement variable.")
      | Some _ => check_required environ rest
      end
  end.

(** Lines 24-26 *)
Fixpoint warn_optional (environ : gmap string string) (vars : list string)
  : list string :=
  match vars with
  | [] => []
  | env :: rest =>
      match environ !! env with
      | None =>
          ("[W] " +:+ env +:+ " environement variable is not set, it should probably be...")
            :: warn_optional environ rest
      | Some _ => warn_optional environ rest
      end
  end.

(** Lines 28-30 *)
Definition extra_folder_of (environ : gmap string string) : extra :=
  match environ !! "SERVICE_TESTING_EXTRA_SAMPLE_FOLDER" with
  | None => ExtraNone
  | Some s => if String.eqb s "" then ExtraStr s else ExtraList [s]
  end.

(** [os.environ[key]] *)
Definition environ_getitem (environ : gmap string string) (key : string)
  : res string :=
  match environ !! key with
  | Some v => Ok v
  | None => Raise (KeyError (JStr key))
  end.

(** [run] (lines 18-34): the lines printed and the ending. *)
Definition run {C} (environ : gmap string string)
  (load_module_by_path : string → res C) : list string * ending C :=
  match check_required environ required_env with
  | Some line => ([line], SysExit 1)
  | None =>
      let printed := warn_optional environ optional_env in
      let extra_folder := extra_folder_of environ in
      (printed,
       match environ_getitem environ "SERVICE_PATH" ≫= load_module_by_path with
       | Raise e => Failed e
       | Ok service_class =>
           match environ_getitem environ "SERVICE_TESTING_RESULT_FOLDER" with
           | Raise e => Failed e
           | Ok result_folder => Helper service_class result_folder extra_folder
           end
       end)
  end.

End Regen.

(** The number of nodes of a tree *)
Fixpoint node_size (n : node) : nat :=
  match n with
  | File _ => 1%nat
  | Dir es => Datatypes.S (map_fold (λ _ m acc, (node_size m + acc)%nat) 0%nat es)
  end.

(** ** The update distribution service ([updater/app.py]) *)

Module Updater.

(** The exceptions a view can end in: the two the module raises itself,
    the [NotFound] of Flask's [send_from_directory], and whatever another
    library call raised. *)
Inductive http_error :=
| Unauthorized (description : string)
| ServiceUnavailable (description : string)
| NotFound
| Propagated (e : exn).

Inductive outcome (A : Type) :=
| Returned (a : A)
| Aborted (e : http_error).
Arguments Returned {A} a.
Arguments Aborted {A} e.

(** What [session.get] returns: whether [raise_for_status] passes, the
    text of the body, and what [json()] makes of it. *)
Record response := mkResponse {
  status_ok : bool;
  text : string;
  json_body : res json }.

(** What a view answers with; the Flask calls that build the answer are
    kept as the call and its arguments. *)
Inductive reply :=
| ReplyText (body : string)
| ReplyJson (body : string) (status : Z)
| ReplyFiles (files : list path)
| ReplyFromDirectory (directory : string) (name : string)
| ReplyFile (file : string).

(** The process of the service: its key, the update daemon behind
    [http://localhost:9999], the disk, how the system splits a path
    string into components, and werkzeug's [safe_join] of a directory and
    a name, which is [None] when the name would leave the directory. *)
Record server := mkServer {
  AUTH_KEY : string;
  status_service : res response;
  disk : node;
  as_path : string → path;
  safe_join : string → string → option string }.

(** What the views leave behind: the requests made to the update daemon
    and the warnings logged. *)
Record state := mkState {
  status_requests : nat;
  warnings : list string }.

Definition view (A : Type) : Type := state → outcome A * state.

(** Line 10 *)
Definition auth_key_of (environ : gmap string string) : string :=
  default "ThisIsARandomAuthKey...ChangeMe!" (environ !! "AL_INSTANCE_KEY").

(** Lines 13-15: the certificate pair, when the root certificate is
    there. *)
Definition ssl_context_of (root_ca_exists : bool) : option (string * string) :=
  if root_ca_exists
  then Some ("/etc/assemblyline/ssl/al_updates/tls.crt",
             "/etc/assemblyline/ssl/al_updates/tls.key")
  else None.

Section Views.

Variable S : server.

(** [session.get('http://localhost:9999')] followed by
    [raise_for_status()] *)
Definition fetch_status : res response :=
  request ← status_service S;
  if status_ok request then Ok request
  else Raise (Exception "HTTPError").

(** [container_ready] (lines 18-21) *)
Definition container_ready : view reply :=
  λ st, (Returned (ReplyText "OK"), st).

(** [update_status] (lines 24-34) *)
Definition update_status : view reply :=
  λ st,
    let st := mkState (Datatypes.S (status_requests st)) (warnings st) in
    match fetch_status with
    | Ok request => (Returned (ReplyJson (text request) 200), st)
    | Raise e => (Aborted (Propagated e), st)
    end.

(** [api_login] (lines 37-47): [environ] is [request.environ]; a header
    that is not there reads as [None], which no key equals. *)
Definition api_login {A} (func : view A) (environ : gmap string string) : view A :=
  λ st,
    let apikey := environ !! "HTTP_X_APIKEY" in
    if decide (apikey = Some (AUTH_KEY S)) then func st
    else
      (Aborted (Unauthorized "Unauthorized access denied"),
       mkState (status_requests st)
         (warnings st ++ ["Client provided wrong api key ["
                          +:+ default "None" apikey +:+ "]"])).

(** The tests of lines 56-59 on one of the two values: [None] and a
    string that [check] refuses raise [ValueError]; what is no string is
    no path either.  (A number would be read as a file descriptor; none
    is taken to be open on what is looked for.) *)
Definition checked (check : path → node → bool) (j : json) : res string :=
  match j with
  | JStr s => if check (as_path S s) (disk S) then Ok s else Raise (ValueError "")
  | JNull => Raise (ValueError "")
  | JInt _ | JBool _ => Raise (ValueError "")
  | _ => Raise (TypeError "expected str, bytes or os.PathLike object")
  end.

(** The [try] block of [get_paths] (lines 52-59) *)
Definition get_paths_body : res (string * string) :=
  request ← fetch_status;
  body ← json_body request;
  path ← Py.getitem body "_directory";
  body ← json_body request;
  tar ← Py.getitem body "_tar";
  path ← checked Fs.isdir path;
  tar ← checked Fs.isfile tar;
  Ok (path, tar).

(** [get_paths] (lines 50-62) *)
Definition get_paths : view (string * string) :=
  λ st,
    let st := mkState (Datatypes.S (status_requests st)) (warnings st) in
    match get_paths_body with
    | Ok paths => (Returned paths, st)
    | Raise _ => (Aborted (ServiceUnavailable "No update ready"), st)
    end.

Definition is_file_node (n : node) : bool :=
  match n with File _ => true | Dir _ => false end.

(** [os.walk(top)] on the subtree [n] found at [top]: one triple of
    directory, subdirectory names and file names for [top] and for every
    directory below it.  A [top] that is no directory yields nothing. *)
Fixpoint walk (top : path) (n : node) : list (path * list string * list string) :=
  match n with
  | File _ => []
  | Dir es =>
      (top,
       (List.filter (λ e, negb (is_file_node e.2)) (map_to_list es)).*1,
       (List.filter (λ e, is_file_node e.2) (map_to_list es)).*1)
      :: map_fold (λ name m acc, walk (top ++ [name]) m ++ acc) [] es
  end.

Definition os_walk (top : path) : list (path * list string * list string) :=
  match Fs.get top (disk S) with
  | Some n => walk top n
  | None => []
  end.

(** The loop of lines 72-73 *)
Definition walk_files (walked : list (path * list string * list string))
  : list path :=
  walked ≫= λ '(dirname, _, file_names), (λ f, dirname ++ [f]) <$> file_names.

(** The views behind [api_login] (lines 67-93) *)
Definition list_files_view : view reply :=
  λ st,
    match get_paths st with
    | (Returned (path, _), st) =>
        (Returned (ReplyFiles (walk_files (os_walk (as_path S path)))), st)
    | (Aborted e, st) => (Aborted e, st)
    end.

(** Flask's [send_from_directory(directory, name)]: the name is joined
    to the directory by [safe_join]; a name that leaves the directory, or
    that does not lead to a regular file, raises [NotFound]. *)
Definition send_from_directory (directory name : string) : outcome reply :=
  match safe_join S directory name with
  | Some file =>
      if Fs.isfile (as_path S file) (disk S)
      then Returned (ReplyFromDirectory directory name)
      else Aborted NotFound
  | None => Aborted NotFound
  end.

Definition get_file_view (name : string) : view reply :=
  λ st,
    match get_paths st with
    | (Returned (path, _), st) => (send_from_directory path name, st)
    | (Aborted e, st) => (Aborted e, st)
    end.

Definition get_all_files_view : view reply :=
  λ st,
    match get_paths st with
    | (Returned (_, path), st) => (Returned (ReplyFile path), st)
    | (Aborted e, st) => (Aborted e, st)
    end.

(** [list_files], [get_file] and [get_all_files] as routed *)
Definition list_files := api_login list_files_view.
Definition get_file (name : string) := api_login (get_file_view name).
Definition get_all_files := api_login get_all_files_view.

(** The views decorated with [api_login] *)
Definition protected (name : string) : list (gmap string string → view reply) :=
  [list_files; get_file name; get_all_files].

End Views.

End Updater.

(** ** Sample data for the further properties *)

(** The section that refers to heuristic [heur_id], once resolved. *)
Definition resolved_section (heur_id : Z) : json :=
  match score_section Demo.catalog (Demo.section_of heur_id) 0 with
  | Ok (section, _) => section
  | Raise _ => JNull
  end.

(** The environment [base] with another module loader, YAML parser, debug
    flag and printer. *)
Definition env_with (base : env) (loader : string → res (json → res service))
  (yaml : string → res json) (debug : bool) (printer : json → list string) : env :=
  {| SERVICE_PATH := SERVICE_PATH base; SERVICE_NAME := SERVICE_NAME base;
     FILE_PATH := FILE_PATH base;
     args_debug := debug;
     getcwd := getcwd base; gettempdir := gettempdir base;
     load_module_by_path := loader;
     identify_fileinfo := identify_fileinfo base;
     unpack_stream := unpack_stream base;
     yaml_safe_load := yaml;
     json_load := json_load base;
     Service := Service base; Result := Result base;
     pformat := printer;
     get_random_id := get_random_id base;
     get_heuristics := get_heuristics base;
     time := time base |}.

(** The demo environment in debug mode, with a printer of two lines. *)
Definition E_debug : env :=
  env_with Demo.E (load_module_by_path Demo.E) (yaml_safe_load Demo.E) true
    (λ _, ["{'score': 500,"; " 'sections': [...]}"]).

(** The demo environment with a module that cannot be imported. *)
Definition E_unloadable (e : exn) : env :=
  env_with Demo.E (λ _, Raise e) (yaml_safe_load Demo.E) false (pformat Demo.E).

(** The demo environment with a manifest that declares a configuration,
    a heuristic and two submission parameters. *)
Definition rich_manifest : gmap string json :=
  list_to_map
    [("name", JStr "Demo");
     ("config", Demo.obj [("max_depth", JInt 3)]);
     ("heuristics",
      JList [Demo.obj [("heur_id", JInt 42); ("name", JStr "SUSPICIOUS_API");
                       ("score", JInt 500)]]);
     ("submission_params",
      JList [param_entry (JStr "deep_scan", JBool false);
             param_entry (JStr "timeout", JInt 60)])].

Definition E_rich : env :=
  env_with Demo.E (load_module_by_path Demo.E) (λ _, Ok (JDict rich_manifest)) false
    (pformat Demo.E).

(** A service class that insists on the [max_depth] of its config. *)
Definition rich_class (config : json) : res service :=
  match Py.getitem config "max_depth" with
  | Ok (JInt 3) => Ok (Demo.svc true)
  | Ok _ => Raise (ValueError "max_depth")
  | Raise e => Raise e
  end.

(** Entries of [submission_params] in which a name comes twice. *)
Definition repeated_params : list (json * json) :=
  [(JStr "deep_scan", JBool false); (JStr "timeout", JInt 60);
   (JStr "deep_scan", JBool true)].

(** A service whose [handle_task] raises, and the demo environment with
    it. *)
Definition failing_svc : service :=
  {| start_service := λ n, (Ok tt, n);
     handle_task := λ _ n, (Raise (Exception "handle_task failed"), n);
     stop_service := λ n, (Ok tt, n) |}.

Definition E_failing : env :=
  env_with Demo.E (λ _, Ok (λ _, Ok failing_svc)) (yaml_safe_load Demo.E) false
    (pformat Demo.E).

(** A disk with nothing but a result file. *)
Definition result_world (text : string) : world :=
  Demo.boot (Dir {[ "r.json" := File text ]}).

(** A disk on which an earlier run has left its workspace. *)
Definition stale_world : world :=
  Demo.boot
    (Dir (list_to_map
            [("tmp", Dir ∅);
             ("data",
              Dir (list_to_map
                     [("sample.bin", File "abc");
                      ("sample.bin_demo",
                       Dir (list_to_map
                              [("result.json", File "OLD");
                               ("working_directory",
                                Dir {[ "old.bin" := File "stale" ]})]))]))])).

(** The task the harness builds for the demo input under [E_rich]. *)
Definition rich_task : task :=
  make_task E_rich [(JStr "deep_scan", JBool false); (JStr "timeout", JInt 60)]
    (Demo.identify "abc") "sample.bin".

(** Two process environments for the regeneration utility: one that
    lacks the result folder, one that has all the required variables and
    an extra sample folder. *)
Definition regen_partial : gmap string string :=
  list_to_map [("SERVICE_MANIFEST_PATH", "service_manifest.yml");
               ("SERVICE_PATH", "pkg.Demo")].

Definition regen_full : gmap string string :=
  list_to_map [("SERVICE_MANIFEST_PATH", "service_manifest.yml");
               ("SERVICE_TESTING_RESULT_FOLDER", "results");
               ("SERVICE_PATH", "pkg.Demo");
               ("SERVICE_TESTING_EXTRA_SAMPLE_FOLDER", "extra")].

(** An update server whose daemon reports the update under [/updates]:
    a directory with two rule files, one of them in a subdirectory, and a
    tar file beside it. *)
Definition update_disk : node :=
  Dir (list_to_map
         [("updates",
           Dir (list_to_map
                  [("rules", Dir (list_to_map
                                    [("a.yar", File "rule a");
                                     ("extra", Dir {[ "b.yar" := File "rule b" ]})]));
                   ("rules.tar", File "TAR")]))]).

Definition update_body : json :=
  Demo.obj [("_directory", JStr "updates/rules"); ("_tar", JStr "updates/rules.tar")].

Definition slash : Ascii.ascii := Ascii.ascii_of_nat 47.

Definition dots : string := String dot (String dot EmptyString).

(** A path string split at the slashes. *)
Fixpoint split_path (s acc : string) : path :=
  match s with
  | EmptyString => [acc]
  | String c s' =>
      if Ascii.eqb c slash then acc :: split_path s' ""
      else split_path s' (acc +:+ String c "")
  end.

(** A join that refuses a name with a [..] component. *)
Definition join_below (directory name : string) : option string :=
  if bool_decide (dots ∈ split_path name "") then None
  else Some (directory +:+ String slash name).

Definition update_server (key : string) : Updater.server :=
  {| Updater.AUTH_KEY := key;
     Updater.status_service :=
       Ok {| Updater.status_ok := true;
             Updater.text := "{}";
             Updater.json_body := Ok update_body |};
     Updater.disk := update_disk;
     Updater.as_path := λ s, split_path s "";
     Updater.safe_join := join_below |}.

Definition idle : Updater.state :=
  {| Updater.status_requests := 0; Updater.warnings := [] |}.

(** The same server while the update daemon cannot be reached. *)
Definition down_server (key : string) : Updater.server :=
  {| Updater.AUTH_KEY := key;
     Updater.status_service := Raise (Exception "ConnectionError");
     Updater.disk := update_disk;
     Updater.as_path := λ s, split_path s "";
     Updater.safe_join := join_below |}.

(** The demo runner once its manifest is loaded. *)
Definition loaded : world :=
  Demo.after (load_service_manifest Demo.E false)
    (set_service_class (λ _, Ok (Demo.svc true)) Demo.w0).

(** * Lemmas *)

(** ** The state-and-exception monad *)

Lemma bind_ok {A B} (m : M A) (f : A → M B) w a w1 :
  m w = (Ok a, w1) → (m ≫= f) w = f a w1.
Proof. intros H. unfold mbind, M_bind. by rewrite H. Qed.

Lemma bind_raise {A B} (m : M A) (f : A → M B) w e w1 :
  m w = (Raise e, w1) → (m ≫= f) w = (Raise e, w1).
Proof. intros H. unfold mbind, M_bind. by rewrite H. Qed.

Lemma bind_inv {A B} (m : M A) (f : A → M B) w b w' :
  (m ≫= f) w = (Ok b, w') → ∃ a w1, m w = (Ok a, w1) ∧ f a w1 = (Ok b, w').
Proof.
  unfold mbind, M_bind. destruct (m w) as [[a|e] w1]; [eauto | discriminate].
Qed.

Lemma lift_inv {A} (r : res A) w a w' : lift r w = (Ok a, w') → r = Ok a ∧ w' = w.
Proof. unfold lift. intros H. by simplify_eq. Qed.

Lemma res_bind_inv {A B} (r : res A) (f : A → res B) b :
  r ≫= f = Ok b → ∃ a, r = Ok a ∧ f a = Ok b.
Proof. destruct r; [eauto | discriminate]. Qed.

(** ** Python operations *)

Lemma getitem_inv j k v :
  Py.getitem j k = Ok v → ∃ d, j = JDict d ∧ d !! k = Some v.
Proof.
  destruct j; try discriminate. simpl. destruct (d !! k) eqn:E; [|discriminate].
  intros [= ->]. eauto.
Qed.

Lemma setitem_inv j k v j' :
  Py.setitem j k v = Ok j' → ∃ d, j = JDict d ∧ j' = JDict (<[k := v]> d).
Proof. destruct j; try discriminate. intros [= <-]. eauto. Qed.

Lemma falsy_unresolved heuristics section h :
  Py.getitem section "heuristic" = Ok h → Py.truthy h = false →
  resolved heuristics section = None.
Proof.
  intros Hh Ht. unfold resolved. rewrite Hh.
  destruct h as [| | | | |d]; try done. simpl in *.
  destruct (size d) eqn:Hs; [|done].
  apply map_size_empty_inv in Hs as ->. by rewrite lookup_empty.
Qed.

Lemma score_section_resolved heuristics section total d :
  resolved heuristics section = Some d →
  (∃ h, Py.getitem section "heuristic" = Ok h ∧ Py.truthy h = true) →
  ∃ section', score_section heuristics section total = Ok (section', total + heur_score d).
Proof.
  unfold resolved. intros Hr (h & Hh & Ht). rewrite Hh in Hr.
  destruct (Py.getitem h "heur_id") as [i|] eqn:Hi; [|done].
  destruct (catalog_lookup heuristics i) as [[d'|]|] eqn:Hc; try done.
  injection Hr as ->.
  unfold score_section. rewrite Hh. cbn [mbind res_bind]. rewrite Ht, Hi.
  cbn [mbind res_bind].
  unfold service_heuristic_to_result_heuristic. rewrite Hi. cbn [mbind res_bind].
  rewrite Hc. unfold catalog_name. rewrite Hc.
  apply getitem_inv in Hh as (sd & -> & Hsd).
  cbn [mbind res_bind Py.setitem Py.getitem res_except_invalid].
  rewrite lookup_insert_eq.
  do 3 (cbn [mbind res_bind Py.setitem Py.getitem res_except_invalid add_score];
        rewrite ?lookup_insert_eq; rewrite ?lookup_insert_ne by done).
  cbn. eauto.
Qed.

Lemma score_section_falsy heuristics section total h :
  Py.getitem section "heuristic" = Ok h → Py.truthy h = false →
  score_section heuristics section total = Ok (section, total).
Proof. intros Hh Ht. unfold score_section. rewrite Hh. cbn [mbind res_bind]. by rewrite Ht. Qed.

(** When every reference resolves, the loop returns the claimed total. *)
Lemma score_sections_resolved heuristics sections total :
  Forall (section_resolves heuristics) sections →
  ∃ sections', score_sections heuristics sections total
               = Ok (sections', total + resolved_total heuristics sections).
Proof.
  intros H. revert total. induction H as [|s l (h & Hh & Hs) _ IH]; intros total.
  - simpl. exists []. f_equal. f_equal. lia.
  - simpl. destruct (Py.truthy h) eqn:Ht.
    + destruct Hs as [|[d Hd]]; [done|].
      destruct (score_section_resolved heuristics s total d Hd) as (s' & ->); [eauto|].
      simpl. destruct (IH (total + heur_score d)) as (l' & ->). simpl.
      rewrite Hd. exists (s' :: l'). do 2 f_equal. lia.
    + rewrite (score_section_falsy _ _ _ _ Hh Ht). simpl.
      destruct (IH total) as (l' & ->). simpl.
      rewrite (falsy_unresolved _ _ _ Hh Ht). exists (s :: l'). do 2 f_equal.
Qed.

(** A reference the catalog does not know aborts the loop at line 143. *)
Lemma score_section_unknown heuristics section total h heur_id :
  Py.getitem section "heuristic" = Ok h → Py.truthy h = true →
  Py.getitem h "heur_id" = Ok heur_id →
  catalog_lookup heuristics heur_id = Ok None →
  score_section heuristics section total = Raise (KeyError heur_id).
Proof.
  intros Hh Ht Hi Hc.
  unfold score_section. rewrite Hh. cbn [mbind res_bind]. rewrite Ht, Hi.
  cbn [mbind res_bind].
  unfold service_heuristic_to_result_heuristic. rewrite Hi. cbn [mbind res_bind].
  rewrite Hc. unfold catalog_name. rewrite Hc.
  apply getitem_inv in Hh as (sd & -> & Hsd). done.
Qed.

Lemma score_sections_unknown heuristics section rest total h heur_id :
  Py.getitem section "heuristic" = Ok h → Py.truthy h = true →
  Py.getitem h "heur_id" = Ok heur_id →
  catalog_lookup heuristics heur_id = Ok None →
  score_sections heuristics (section :: rest) total = Raise (KeyError heur_id).
Proof.
  intros. simpl. by erewrite score_section_unknown.
Qed.

(** ** The normalizer *)

Lemma normalize_result_inv E t result w r' w' :
  normalize_result E t result w = (Ok r', w') →
  ∃ r1 d2,
    strip_result result = Ok r1 ∧
    score_result (get_heuristics E) r1 = Ok (JDict d2) ∧
    r' = JDict (<["expiry_ts" := JInt (time E (S (S (ticks w))) + ttl t * 24 * 60 * 60)]>
               (<["archive_ts" := JInt (time E (S (ticks w)) + 1 * 24 * 60 * 60)]>
               (<["created" := JInt (time E (ticks w) + 0)]> d2))).
Proof.
  unfold normalize_result. intros H.
  apply bind_inv in H as (r1 & w1 & [H1 ->]%lift_inv & H).
  apply bind_inv in H as (r2 & w2 & [H2 ->]%lift_inv & H).
  apply bind_inv in H as (c & w3 & Hc & H).
  apply bind_inv in H as (r3 & w4 & [H3 ->]%lift_inv & H).
  apply bind_inv in H as (a & w5 & Ha & H).
  apply bind_inv in H as (r4 & w6 & [H4 ->]%lift_inv & H).
  apply bind_inv in H as (x & w7 & Hx & H).
  apply bind_inv in H as (r5 & w8 & [H5 ->]%lift_inv & H).
  unfold now_as_iso in *. simplify_eq/=.
  apply setitem_inv in H3 as (d2 & -> & ->).
  apply setitem_inv in H4 as (? & ? & ->). simplify_eq.
  apply setitem_inv in H5 as (? & ? & ->). simplify_eq.
  unfold mret, M_ret in H. simplify_eq. eauto.
Qed.

Lemma res_mapM_pop_path l l' :
  res_mapM pop_path l = Ok l' → existsb entry_has_path l' = false.
Proof.
  revert l'. induction l as [|x l IH]; intros l'; simpl.
  - by intros [= <-].
  - intros (y & Hy & H)%res_bind_inv. apply res_bind_inv in H as (ys & Hys & [= <-]).
    simpl. rewrite (IH _ Hys), orb_false_r.
    destruct x; try discriminate. injection Hy as <-. simpl.
    by rewrite lookup_delete_eq.
Qed.

Lemma doc_list_insert d k v key :
  k ≠ "response" → doc_list (JDict (<[k := v]> d)) key = doc_list (JDict d) key.
Proof. intros Hk. unfold doc_list. simpl. by rewrite lookup_insert_ne. Qed.

Lemma strip_result_no_leak result r1 :
  strip_result result = Ok r1 → leaks_path r1 = false.
Proof.
  unfold strip_result. intros (r0 & H0 & H)%res_bind_inv.
  apply res_bind_inv in H as (resp & Hresp & H).
  apply res_bind_inv in H as (ext & Hext & H).
  apply res_bind_inv in H as (sup & Hsup & H).
  apply getitem_inv in Hresp as (d0 & -> & Hd0).
  apply getitem_inv in Hext as (dr & -> & Hdr).
  apply getitem_inv in Hsup as (? & [= <-] & Hds).
  unfold leaks_path, doc_list.
  destruct ext as [| | |a|a|]; try discriminate;
    destruct sup as [| | |b|b|]; try discriminate.
  - destruct (String.eqb _ _); [|discriminate]. injection H as <-.
    simpl. rewrite Hd0. simpl. by rewrite Hdr, Hds.
  - apply res_bind_inv in H as (a' & Ha & H).
    apply res_bind_inv in H as (b' & Hb & H). simpl in H. injection H as <-.
    simpl. rewrite lookup_insert_eq. simpl. rewrite lookup_insert_eq.
    rewrite lookup_insert_ne by done. rewrite lookup_insert_eq.
    rewrite existsb_app, (res_mapM_pop_path _ _ Ha), (res_mapM_pop_path _ _ Hb). done.
Qed.

Lemma score_result_doc_list heuristics r1 r2 key :
  score_result heuristics r1 = Ok r2 → doc_list r2 key = doc_list r1 key.
Proof.
  unfold score_result. intros (r & Hr & H)%res_bind_inv.
  apply res_bind_inv in H as (ss & Hss & H).
  apply res_bind_inv in H as (items & Hit & H).
  apply res_bind_inv in H as ([items' total] & Hsc & H).
  apply res_bind_inv in H as (ra & Hra & H).
  apply res_bind_inv in H as (rb & Hrb & H).
  apply setitem_inv in H as (d & -> & ->). by apply doc_list_insert.
Qed.

Lemma normalize_result_no_leak E t result w r' w' :
  normalize_result E t result w = (Ok r', w') → leaks_path r' = false.
Proof.
  intros (r1 & d2 & H1 & H2 & ->)%normalize_result_inv.
  apply strip_result_no_leak in H1.
  unfold leaks_path in *. rewrite !doc_list_insert by done.
  by rewrite !(score_result_doc_list _ _ _ _ H2).
Qed.

(** ** Paths *)

Lemma related_sym p q : related p q = related q p.
Proof.
  revert q. induction p as [|c p IH]; intros [|d q]; simpl; try done.
  rewrite IH. repeat case_decide; congruence.
Qed.

Lemma apart_sym p q : apart p q → apart q p.
Proof. unfold apart. by rewrite related_sym. Qed.

Lemma apart_app_l p q r : apart p q → apart (p ++ r) q.
Proof.
  unfold apart. revert q. induction p as [|c p IH]; intros [|d q]; simpl; try done.
  case_decide; auto.
Qed.

Lemma apart_app_r p q r : apart p q → apart p (q ++ r).
Proof. intros. by apply apart_sym, apart_app_l, apart_sym. Qed.

Lemma related_app p r : related p (p ++ r) = true.
Proof. induction p as [|c p IH]; simpl; [done|]. by case_decide. Qed.

Lemma related_cases p q :
  related p q = true → (∃ r, q = p ++ r) ∨ (∃ r, p = q ++ r).
Proof.
  revert q. induction p as [|c p IH]; intros q; simpl.
  - left. by exists q.
  - destruct q as [|d q]; [right; by exists (c :: p)|].
    case_decide as Hcd; [|done]. subst d. intros [[r ->]|[r ->]]%IH.
    + left. by exists r.
    + right. by exists r.
Qed.

Lemma apart_siblings p c d : c ≠ d → apart (p ++ [c]) (p ++ [d]).
Proof.
  intros Hcd. unfold apart. induction p as [|e p IH]; simpl.
  - by case_decide.
  - by case_decide.
Qed.

Lemma related_siblings p c d : related (p ++ [c]) (p ++ [d]) = true → c = d.
Proof.
  intros H. destruct (decide (c = d)) as [|Hne]; [done|].
  by rewrite (apart_siblings p c d Hne) in H.
Qed.

Lemma apart_ne p q : apart p q → p ≠ q.
Proof.
  intros H ->. unfold apart in H. pose proof (related_app q []) as Hq.
  rewrite app_nil_r in Hq. congruence.
Qed.

(** ** The filesystem *)

Lemma get_app p q n : Fs.get (p ++ q) n = Fs.get p n ≫= Fs.get q.
Proof.
  revert n. induction p as [|c p IH]; intros n; simpl; [done|].
  destruct n as [|es]; [done|]. destruct (es !! c); [apply IH | done].
Qed.

Lemma get_below_dir p r n x :
  Fs.get (p ++ r) n = Some x → r ≠ [] → Fs.isdir p n = true.
Proof.
  rewrite get_app. unfold Fs.isdir. destruct (Fs.get p n) as [[|es]|]; try done.
  destruct r; done.
Qed.

Lemma set_at_same p x n n' : Fs.set_at p x n = Some n' → Fs.get p n' = x.
Proof.
  revert n n'. induction p as [|c p IH]; intros n n'; simpl; [done|].
  destruct n as [|es]; [done|]. destruct p as [|c2 p].
  - intros [= <-]. simpl. rewrite lookup_partial_alter_eq. by destruct x.
  - destruct (es !! c) as [m|]; [|done].
    destruct (Fs.set_at (c2 :: p) x m) as [m'|] eqn:Hm; [|done].
    intros [= <-]. cbn [Fs.get]. rewrite lookup_insert_eq. by apply IH in Hm.
Qed.

Lemma set_at_other p x n n' q :
  Fs.set_at p x n = Some n' → apart p q → Fs.get q n' = Fs.get q n.
Proof.
  unfold apart. revert n n' q. induction p as [|c p IH]; intros n n' q; simpl; [done|].
  destruct n as [|es]; [done|]. destruct q as [|d q]; [done|].
  destruct p as [|c2 p].
  - intros [= <-]. case_decide as Hcd; [done|]. intros _. simpl.
    by rewrite lookup_partial_alter_ne.
  - destruct (es !! c) as [m|] eqn:Hc; [|done].
    destruct (Fs.set_at (c2 :: p) x m) as [m'|] eqn:Hm; [|done].
    intros [= <-]. cbn [Fs.get]. case_decide as Hcd.
    + subst d. intros Hr. rewrite lookup_insert_eq, Hc. eapply IH; eauto.
    + intros _. by rewrite lookup_insert_ne.
Qed.

Lemma set_at_cons c q x es :
  q ≠ [] →
  Fs.set_at (c :: q) x (Dir es) =
  match es !! c with
  | Some m =>
      match Fs.set_at q x m with
      | Some m' => Some (Dir (<[c := m']> es))
      | None => None
      end
  | None => None
  end.
Proof. by destruct q. Qed.

Lemma set_at_above p r x n n' :
  Fs.set_at (p ++ r) x n = Some n' → r ≠ [] →
  Fs.isdir p n = true ∧ Fs.isdir p n' = true.
Proof.
  unfold Fs.isdir. revert n n'. induction p as [|c p IH]; intros n n' H Hr.
  - destruct r as [|c r]; [done|]. simpl in *. destruct n as [|es]; [done|].
    destruct r; [by simplify_eq|].
    destruct (es !! c); [|done]. destruct (Fs.set_at _ _ _); by simplify_eq.
  - rewrite <-app_comm_cons in H. destruct n as [|es]; [done|].
    rewrite set_at_cons in H by (by destruct p, r).
    destruct (es !! c) as [m|] eqn:Hc; [|done].
    destruct (Fs.set_at (p ++ r) x m) as [m'|] eqn:Hm; [|done].
    injection H as <-. cbn [Fs.get]. rewrite lookup_insert_eq, Hc.
    by apply IH in Hm.
Qed.

Lemma set_at_ok d c x n :
  Fs.isdir d n = true → is_Some (Fs.set_at (d ++ [c]) x n).
Proof.
  unfold Fs.isdir. revert n. induction d as [|e d IH]; intros n Hn.
  - simpl in *. destruct n; [done|]. eauto.
  - simpl in Hn. destruct n as [|es]; [done|].
    rewrite <-app_comm_cons, set_at_cons by (by destruct d).
    destruct (es !! e) as [m|]; [|done]. destruct (IH m Hn) as [m' ->]. eauto.
Qed.

(** Unbinding an entry never makes a directory appear. *)
Lemma set_at_none_isdir p n n' q :
  Fs.set_at p None n = Some n' → Fs.isdir q n' = true → Fs.isdir q n = true.
Proof.
  intros H Hq. destruct (related p q) eqn:Hr.
  - apply related_cases in Hr as [[r ->]|[r ->]].
    + unfold Fs.isdir in Hq. rewrite get_app, (set_at_same _ _ _ _ H) in Hq. done.
    + destruct r as [|c r].
      * rewrite app_nil_r in H. unfold Fs.isdir in Hq.
        by rewrite (set_at_same _ _ _ _ H) in Hq.
      * by apply set_at_above in H as [? _].
  - unfold Fs.isdir in *. by rewrite (set_at_other _ _ _ _ _ H Hr) in Hq.
Qed.

Lemma mkchain_get_apart p q : apart p q → Fs.get q (Fs.mkchain p) = None.
Proof.
  unfold apart. revert q. induction p as [|c p IH]; intros [|d q]; simpl; try done.
  case_decide as Hcd.
  - subst d. rewrite lookup_singleton_eq. apply IH.
  - by rewrite lookup_singleton_ne.
Qed.

Lemma makedirs_other p n n' q :
  Fs.makedirs p n = Some n' → apart p q → Fs.get q n' = Fs.get q n.
Proof.
  unfold apart. revert n n' q. induction p as [|c p IH]; intros n n' q; simpl; [done|].
  destruct n as [|es]; [done|]. destruct q as [|d q]; [done|].
  destruct (es !! c) as [m|] eqn:Hc.
  - destruct (Fs.makedirs p m) as [m'|] eqn:Hm; [|done]. intros [= <-].
    cbn [Fs.get]. case_decide as Hcd.
    + subst d. rewrite lookup_insert_eq, Hc. eapply IH; eauto.
    + by rewrite lookup_insert_ne.
  - intros [= <-]. cbn [Fs.get]. case_decide as Hcd.
    + subst d. rewrite lookup_insert_eq, Hc. apply mkchain_get_apart.
    + by rewrite lookup_insert_ne.
Qed.

Lemma listdir_spec p n names :
  Fs.listdir p n = Some names →
  NoDup names ∧ ∀ f, f ∈ names ↔ is_Some (Fs.get (p ++ [f]) n).
Proof.
  unfold Fs.listdir. intros H. split.
  - destruct (Fs.get p n) as [[|es]|]; try done. injection H as <-.
    apply NoDup_fst_map_to_list.
  - intros f. rewrite get_app. destruct (Fs.get p n) as [[|es]|]; try done.
    injection H as <-. simpl. rewrite list_elem_of_fmap. split.
    + intros ([k v] & -> & Hkv). apply elem_of_map_to_list in Hkv. simpl.
      rewrite Hkv. eauto.
    + destruct (es !! f) as [v|] eqn:Hf; [|by intros [? ?]]. intros _.
      exists (f, v). split; [done|]. by apply elem_of_map_to_list.
Qed.

Lemma rename_spec src dst n n' :
  Fs.rename src dst n = Some n' → src ≠ dst →
  ∃ x n1, Fs.get src n = Some x ∧ apart src dst ∧
          Fs.set_at src None n = Some n1 ∧ Fs.set_at dst (Some x) n1 = Some n'.
Proof.
  unfold Fs.rename. destruct (Fs.get src n) as [x|] eqn:Hx; [|done].
  case_decide as Heq; [done|]. case_decide as Hpre; [done|]. intros H _.
  assert (Hd : Fs.isdir dst n = false).
  { unfold Fs.isdir. destruct x, (Fs.get dst n) as [[]|]; done. }
  assert (Hap : apart src dst).
  { unfold apart. destruct (related src dst) eqn:Hr; [|done].
    apply related_cases in Hr as [[r ->]|[r ->]].
    - destruct Hpre. by exists r.
    - destruct r as [|c r]; [by rewrite app_nil_r in *|].
      by rewrite (get_below_dir _ _ _ _ Hx) in Hd. }
  destruct (Fs.set_at src None n) as [n1|] eqn:H1.
  - exists x, n1. repeat split; try done.
    destruct x, (Fs.get dst n) as [[]|]; done.
  - destruct x, (Fs.get dst n) as [[]|]; done.
Qed.

Lemma rename_frame src dst n n' q :
  Fs.rename src dst n = Some n' → apart q src → apart q dst →
  Fs.get q n' = Fs.get q n.
Proof.
  intros H Hs Hd. destruct (decide (src = dst)) as [->|Hne].
  - unfold Fs.rename in H. destruct (Fs.get dst n); [|done].
    rewrite decide_True in H by done. by injection H as <-.
  - apply rename_spec in H as (x & n1 & _ & _ & H1 & H2); [|done].
    rewrite (set_at_other _ _ _ _ _ H2) by by apply apart_sym.
    by rewrite (set_at_other _ _ _ _ _ H1) by by apply apart_sym.
Qed.

Lemma move_frame src dst n n' q :
  Fs.move src dst n = Some n' → apart q src → apart q dst →
  Fs.get q n' = Fs.get q n.
Proof.
  unfold Fs.move. intros H Hs Hd. destruct (Fs.isdir dst n).
  - case_decide; [by eapply rename_frame|].
    destruct (Fs.exists_ _ n); [done|].
    eapply rename_frame; eauto. by apply apart_app_r.
  - by eapply rename_frame.
Qed.

Lemma basename_app p f : Fs.basename (p ++ [f]) = f.
Proof. unfold Fs.basename. apply last_last. Qed.

(** Moving an entry into a directory. *)
Lemma move_into_dir src dst n n' :
  Fs.move src dst n = Some n' → Fs.isdir dst n = true → src ≠ dst →
  let real_dst := dst ++ [Fs.basename src] in
  ∃ x, Fs.get src n = Some x ∧ Fs.get real_dst n' = Some x ∧
       Fs.isdir dst n' = true ∧
       ∀ q, apart q src → apart q real_dst → Fs.get q n' = Fs.get q n.
Proof.
  unfold Fs.move. intros H Hd Hne. rewrite Hd in H.
  rewrite decide_False in H by done.
  destruct (Fs.exists_ _ n) eqn:Hex; [done|]. simpl.
  assert (Hne' : src ≠ dst ++ [Fs.basename src]).
  { intros Heq. unfold Fs.exists_, Fs.rename in *.
    rewrite <-Heq in Hex. by destruct (Fs.get src n). }
  pose proof H as Hren.
  apply rename_spec in H as (x & n1 & Hx & Hap & H1 & H2); [|done].
  exists x. split; [done|]. split; [by apply set_at_same in H2|]. split.
  - by apply set_at_above in H2 as [_ ?].
  - intros q Hq1 Hq2. by eapply rename_frame.
Qed.

(** Moving an entry onto a path that is not a directory. *)
Lemma move_onto src dst n n' :
  Fs.move src dst n = Some n' → Fs.isdir dst n = false →
  ∃ x, Fs.get src n = Some x ∧ Fs.get dst n' = Some x ∧
       (src ≠ dst → Fs.get src n' = None).
Proof.
  unfold Fs.move. intros H Hd. rewrite Hd in H.
  destruct (decide (src = dst)) as [->|Hne].
  - unfold Fs.rename in H. destruct (Fs.get dst n) as [x|] eqn:Hx; [|done].
    rewrite decide_True in H by done. injection H as <-. exists x. done.
  - apply rename_spec in H as (x & n1 & Hx & Hap & H1 & H2); [|done].
    exists x. split; [done|]. split; [by apply set_at_same in H2|]. intros _.
    rewrite (set_at_other _ _ _ _ _ H2) by by apply apart_sym.
    by apply set_at_same in H1.
Qed.

(** A regular file lies apart from every other path that is not a
    directory and has a directory for parent. *)
Lemma file_apart p d c n :
  Fs.isfile p n = true → Fs.isdir d n = true → Fs.isdir (d ++ [c]) n = false →
  p ≠ d ++ [c] → apart p (d ++ [c]).
Proof.
  intros Hp Hd Hdc Hne. unfold apart. destruct (related _ _) eqn:Hr; [|done].
  unfold Fs.isfile, Fs.isdir in *.
  apply related_cases in Hr as [[r Hr]|[r ->]].
  - destruct r as [|e r _] using rev_ind; [by rewrite app_nil_r in Hr|].
    rewrite app_assoc in Hr. apply app_inj_tail in Hr as [-> _].
    rewrite get_app in Hd. destruct (Fs.get p n) as [[]|]; try done.
    by destruct r.
  - destruct r as [|e r]; [by rewrite app_nil_r in Hne|].
    destruct (Fs.get ((d ++ [c]) ++ e :: r) n) eqn:Hg; [|done].
    apply get_below_dir in Hg; [|done]. unfold Fs.isdir in Hg.
    by destruct (Fs.get (d ++ [c]) n) as [[]|].
Qed.

(** ** Statements of the harness *)

Lemma ret_inv {A} (a b : A) w w' : (mret a : M A) w = (Ok b, w') → a = b ∧ w' = w.
Proof. unfold mret, M_ret. intros H. by simplify_eq. Qed.

Lemma fs_update_inv what f w w' :
  fs_update what f w = (Ok tt, w') → ∃ n, f (fs w) = Some n ∧ w' = set_fs n w.
Proof. unfold fs_update. destruct (f (fs w)); intros H; simplify_eq. eauto. Qed.

Lemma fs_update_ok what f w n :
  f (fs w) = Some n → fs_update what f w = (Ok tt, set_fs n w).
Proof. unfold fs_update. by intros ->. Qed.

Lemma fs_query_inv {A} (f : node → A) w a w' :
  fs_query f w = (Ok a, w') → a = f (fs w) ∧ w' = w.
Proof. unfold fs_query. intros H. by simplify_eq. Qed.

Lemma fs_read_inv p w data w' :
  fs_read p w = (Ok data, w') → Fs.read p (fs w) = Some data ∧ w' = w.
Proof. unfold fs_read. destruct (Fs.read p (fs w)); intros H; by simplify_eq. Qed.

Lemma fs_read_ok p w data :
  Fs.read p (fs w) = Some data → fs_read p w = (Ok data, w).
Proof. unfold fs_read. by intros ->. Qed.

Lemma read_get p n data : Fs.read p n = Some data ↔ Fs.get p n = Some (File data).
Proof.
  unfold Fs.read. destruct (Fs.get p n) as [[]|]; split; intros; by simplify_eq.
Qed.

Lemma quiet_ret {A} (a : A) : quiet (mret a).
Proof. intros w r w' H. unfold mret, M_ret in H. by simplify_eq. Qed.

Lemma quiet_raise {A} e : quiet (raise (A:=A) e).
Proof. intros w r w' H. unfold raise in H. by simplify_eq. Qed.

Lemma quiet_lift {A} (r : res A) : quiet (lift r).
Proof. intros w r' w' H. unfold lift in H. by simplify_eq. Qed.

Lemma quiet_log lvl msg : quiet (log lvl msg).
Proof.
  intros w r w' H. unfold log, update in H. simplify_eq. split; [done|].
  unfold executed. simpl. by rewrite existsb_app, orb_false_r.
Qed.

Lemma quiet_update f :
  (∀ w, fs (f w) = fs w ∧ trace (f w) = trace w) → quiet (update f).
Proof.
  intros Hf w r w' H. unfold update in H. simplify_eq.
  destruct (Hf w) as [-> ->]. done.
Qed.

Lemma quiet_fs_query {A} (f : node → A) : quiet (fs_query f).
Proof. intros w r w' H. unfold fs_query in H. by simplify_eq. Qed.

Lemma quiet_fs_read p : quiet (fs_read p).
Proof.
  intros w r w' H. unfold fs_read in H. destruct (Fs.read p (fs w)); by simplify_eq.
Qed.

Lemma quiet_now E offset : quiet (now_as_iso E offset).
Proof. intros w r w' H. unfold now_as_iso in H. by simplify_eq. Qed.

Lemma quiet_bind {A B} (m : M A) (f : A → M B) :
  quiet m → (∀ a, quiet (f a)) → quiet (m ≫= f).
Proof.
  intros Hm Hf w r w'. unfold mbind, M_bind.
  destruct (m w) as [[a|e] w1] eqn:H1; intros H.
  - destruct (Hm _ _ _ H1) as [<- <-]. by eapply Hf.
  - simplify_eq. by eapply Hm.
Qed.

Lemma quiet_try_except {A} (m : M A) (h : exn → M A) :
  quiet m → (∀ e, quiet (h e)) → quiet (try_except m h).
Proof.
  intros Hm Hh w r w'. unfold try_except.
  destruct (m w) as [[a|e] w1] eqn:H1; intros H.
  - simplify_eq. by eapply Hm.
  - destruct (Hm _ _ _ H1) as [<- <-]. by eapply Hh.
Qed.

Lemma quiet_for_each {A} (l : list A) (body : A → M unit) :
  (∀ x, quiet (body x)) → quiet (for_each l body).
Proof.
  intros Hb. induction l as [|x l IH]; simpl.
  - apply quiet_ret.
  - apply quiet_bind; auto.
Qed.

Ltac quiet_step :=
  first
    [ apply quiet_bind; [|intros ?]
    | apply quiet_try_except; [|intros ?]
    | apply quiet_for_each; intros ?
    | apply quiet_lift | apply quiet_log | apply quiet_ret | apply quiet_raise
    | apply quiet_fs_query | apply quiet_fs_read | apply quiet_now
    | apply quiet_update; done
    | match goal with
      | |- quiet (if ?b then _ else _) => destruct b
      | |- quiet (match ?x with _ => _ end) => destruct x
      end ].

Lemma quiet_normalize_result E t result : quiet (normalize_result E t result).
Proof. unfold normalize_result. repeat quiet_step. Qed.

Lemma quiet_validate_result E result_json t : quiet (validate_result E result_json t).
Proof.
  unfold validate_result. repeat quiet_step.
Qed.

Lemma quiet_read_manifest E : quiet (read_manifest E).
Proof. unfold read_manifest. repeat quiet_step. Qed.

Lemma quiet_configure_service data heuristics b :
  quiet (configure_service data heuristics b).
Proof.
  unfold configure_service. repeat quiet_step.
  intros w r w' H. by simplify_eq.
Qed.

Lemma quiet_load_service_manifest E b : quiet (load_service_manifest E b).
Proof.
  unfold load_service_manifest. repeat quiet_step.
  intros w r w' H. by simplify_eq.
Qed.

(** ** Emptying the staging directory *)

Section Staging.

Variables (source art : path).

Lemma for_each_move_frame l w w' q :
  for_each l (λ f, fs_update "move" (Fs.move (source ++ [f]) art)) w
  = (Ok tt, w') →
  apart q source → apart q art →
  Fs.get q (fs w') = Fs.get q (fs w).
Proof.
  intros H Hs Ha. revert w H. induction l as [|f l IH]; intros w H; simpl in H.
  - by apply ret_inv in H as [_ ->].
  - apply bind_inv in H as ([] & w1 & H1 & H).
    apply fs_update_inv in H1 as (n1 & Hn1 & ->).
    rewrite (IH _ H). simpl.
    eapply move_frame; eauto. by apply apart_app_r.
Qed.

Lemma for_each_move_kept l w w' :
  for_each l (λ f, fs_update "move" (Fs.move (source ++ [f]) art)) w
  = (Ok tt, w') →
  NoDup l → Fs.isdir art (fs w) = true → apart source art →
  Fs.isdir art (fs w') = true ∧
  (∀ f, f ∈ l → ∃ x, Fs.get (source ++ [f]) (fs w) = Some x ∧
                      Fs.get (art ++ [f]) (fs w') = Some x) ∧
  (∀ q, (∀ g, g ∈ l → apart q (source ++ [g]) ∧ apart q (art ++ [g])) →
        Fs.get q (fs w') = Fs.get q (fs w)).
Proof.
  intros H Hnd Hart Hap. revert w H Hart.
  induction Hnd as [|f l Hf Hnd IH]; intros w H Hart; simpl in H.
  - apply ret_inv in H as [_ ->]. split; [done|]. split; [|done].
    intros f Hf. by apply elem_of_nil in Hf.
  - apply bind_inv in H as ([] & w1 & H1 & H).
    apply fs_update_inv in H1 as (n1 & Hn1 & ->).
    apply move_into_dir in Hn1 as (x & Hx & Hx' & Hart1 & Hfr1); [|done|].
    2: { apply apart_ne, apart_app_l, Hap. }
    rewrite basename_app in Hx', Hfr1.
    destruct (IH _ H Hart1) as (Hart' & Hkept & Hfr). simpl in *.
    split; [done|]. split.
    + intros g [->|Hg]%elem_of_cons.
      * exists x. split; [done|]. rewrite Hfr; [done|].
        intros g Hg. split.
        -- apply apart_sym, apart_app_l, apart_app_r, Hap.
        -- apply apart_siblings. intros ->. done.
      * destruct (Hkept g Hg) as (y & Hy & Hy'). exists y. split; [|done].
        rewrite <-Hy. symmetry. apply Hfr1.
        -- apply apart_siblings. intros ->. done.
        -- apply apart_app_l, apart_app_r, Hap.
    + intros q Hq. rewrite Hfr.
      * apply Hfr1; apply Hq; by left.
      * intros g Hg. apply Hq. by right.
Qed.

End Staging.

Lemma collect_staging_inv E wd w w' :
  collect_staging E wd w = (Ok tt, w') →
  ∃ n0 files w1 n2,
    (if Fs.exists_ (staging_dir E) (fs w) then n0 = fs w
     else Fs.makedirs (staging_dir E) (fs w) = Some n0) ∧
    Fs.listdir (staging_dir E) n0 = Some files ∧
    for_each files (λ f, fs_update "move"
      (Fs.move (staging_dir E ++ [f]) (wd ++ ["working_directory"]))) (set_fs n0 w)
      = (Ok tt, w1) ∧
    Fs.rmtree (staging_dir E) (fs w1) = Some n2 ∧ fs w' = n2.
Proof.
  unfold collect_staging. intros H.
  apply bind_inv in H as (present & w0 & [-> ->]%fs_query_inv & H).
  apply bind_inv in H as ([] & w1 & H1 & H).
  apply bind_inv in H as (files & w2 & Hls & H).
  apply bind_inv in H as ([] & w3 & Hloop & H).
  apply fs_update_inv in H as (n2 & Hrm & ->).
  unfold fs_listdir in Hls.
  destruct (Fs.listdir (staging_dir E) (fs w1)) as [names|] eqn:Hnames; [|done].
  simplify_eq.
  destruct (Fs.exists_ (staging_dir E) (fs w)) eqn:Hex.
  - apply ret_inv in H1 as [_ ->]. exists (fs w), files, w3, n2.
    repeat split; try done. by destruct w.
  - apply fs_update_inv in H1 as (n0 & Hmk & ->). by exists n0, files, w3, n2.
Qed.

Lemma collect_staging_frame E wd w w' q :
  collect_staging E wd w = (Ok tt, w') →
  apart q (staging_dir E) → apart q (wd ++ ["working_directory"]) →
  Fs.get q (fs w') = Fs.get q (fs w).
Proof.
  intros (n0 & files & w1 & n2 & H0 & Hls & Hloop & Hrm & ->)%collect_staging_inv Hs Ha.
  unfold Fs.rmtree in Hrm. destruct (Fs.isdir _ _); [|done].
  rewrite (set_at_other _ _ _ _ _ Hrm) by by apply apart_sym.
  rewrite (for_each_move_frame _ _ _ _ _ _ Hloop Hs Ha). simpl.
  destruct (Fs.exists_ _ _); [by subst|].
  eapply makedirs_other; eauto. by apply apart_sym.
Qed.

Lemma collect_staging_gone E wd w w' :
  collect_staging E wd w = (Ok tt, w') → Fs.get (staging_dir E) (fs w') = None.
Proof.
  intros (n0 & files & w1 & n2 & H0 & Hls & Hloop & Hrm & ->)%collect_staging_inv.
  unfold Fs.rmtree in Hrm. destruct (Fs.isdir _ _); [|done].
  by apply set_at_same in Hrm.
Qed.

Lemma collect_staging_kept E wd w w' f x :
  collect_staging E wd w = (Ok tt, w') →
  Fs.isdir (wd ++ ["working_directory"]) (fs w) = true →
  apart (staging_dir E) (wd ++ ["working_directory"]) →
  Fs.get (staging_dir E ++ [f]) (fs w) = Some x →
  Fs.get ((wd ++ ["working_directory"]) ++ [f]) (fs w') = Some x.
Proof.
  intros (n0 & files & w1 & n2 & H0 & Hls & Hloop & Hrm & ->)%collect_staging_inv
         Hart Hap Hx.
  destruct (Fs.exists_ (staging_dir E) (fs w)) eqn:Hex.
  2: { rewrite get_app in Hx. unfold Fs.exists_ in Hex.
       by destruct (Fs.get (staging_dir E) (fs w)). }
  subst n0. apply listdir_spec in Hls as [Hnd Hin].
  apply for_each_move_kept in Hloop as (_ & Hkept & _); try done.
  destruct (Hkept f) as (y & Hy & Hy'); [apply Hin; by rewrite Hx|].
  simpl in Hy. rewrite Hx in Hy. injection Hy as <-.
  unfold Fs.rmtree in Hrm. destruct (Fs.isdir _ _); [|done].
  rewrite (set_at_other _ _ _ _ _ Hrm); [done|]. by apply apart_app_r.
Qed.

(** ** After the service has handled the task *)

Lemma after_handle_inv E wd t tf w w' :
  after_handle E wd t tf w = (Ok tt, w') →
  ∃ w_c w_v n_u n_f,
    collect_staging E wd w = (Ok tt, w_c) ∧
    Fs.exists_ (result_json_of E t) (fs w_c) = true ∧
    validate_result E (result_json_of E t) t w_c = (Ok tt, w_v) ∧
    Fs.unlink tf (fs w_v) = Some n_u ∧
    Fs.move (result_json_of E t) (wd ++ ["result.json"]) n_u = Some n_f ∧
    fs w' = n_f.
Proof.
  unfold after_handle. intros H.
  apply bind_inv in H as ([] & w_c & Hc & H).
  apply bind_inv in H as (present & w0 & [-> ->]%fs_query_inv & H).
  destruct (Fs.exists_ _ (fs w_c)) eqn:Hex; [|done].
  apply bind_inv in H as ([] & w_v & Hv & H).
  apply bind_inv in H as ([] & w1 & H1 & H).
  apply bind_inv in H as ([] & w2 & (n_u & Hu & ->)%fs_update_inv & H).
  apply bind_inv in H as ([] & w3 & H3 & H).
  apply bind_inv in H as ([] & w4 & (n_f & Hm & ->)%fs_update_inv & H).
  unfold log, update in *. simplify_eq/=.
  exists w_c, w_v, n_u, n_f. done.
Qed.

Lemma result_json_vs_staging E t :
  related (result_json_of E t) (staging_dir E) = true →
  result_json_of E t = staging_dir E.
Proof.
  unfold result_json_of, staging_dir. by intros ->%related_siblings.
Qed.

(** The file the harness leaves at [result.json] is the file the service
    left at the result path. *)
Lemma after_handle_persists_raw E wd t tf w w' :
  after_handle E wd t tf w = (Ok tt, w') →
  apart (wd ++ ["working_directory"]) (result_json_of E t) →
  apart (wd ++ ["result.json"]) (staging_dir E) →
  Fs.isdir (wd ++ ["result.json"]) (fs w) = false →
  ∃ raw, Fs.read (result_json_of E t) (fs w) = Some raw ∧
         Fs.read (wd ++ ["result.json"]) (fs w') = Some raw.
Proof.
  intros (w_c & w_v & n_u & n_f & Hc & Hex & Hv & Hu & Hm & ->)%after_handle_inv
         Hart Hdst Hnd.
  set (q := result_json_of E t) in *. set (dst := wd ++ ["result.json"]) in *.
  (* the validation reads the result and leaves the files alone *)
  pose proof (quiet_validate_result _ _ _ _ _ _ Hv) as [Hfs _].
  unfold validate_result in Hv.
  apply bind_inv in Hv as (raw & w1 & [Hraw ->]%fs_read_inv & _).
  rewrite Hfs in Hu. clear Hfs w_v.
  (* the result path is not the staging directory *)
  assert (Hqs : apart q (staging_dir E)).
  { unfold apart. destruct (related q (staging_dir E)) eqn:Hr; [|done].
    apply result_json_vs_staging in Hr. unfold Fs.exists_ in Hex.
    fold q in Hr. by rewrite Hr, (collect_staging_gone _ _ _ _ Hc) in Hex. }
  pose proof (collect_staging_frame _ _ _ _ q Hc Hqs (apart_sym _ _ Hart)) as Hq.
  assert (Hd : Fs.isdir dst (fs w_c) = false).
  { unfold Fs.isdir. rewrite (collect_staging_frame _ _ _ _ dst Hc Hdst); [done|].
    by apply apart_siblings. }
  exists raw. split; [by rewrite read_get, <-Hq, <-read_get|].
  (* the unlink *)
  unfold Fs.unlink in Hu. destruct (Fs.isfile tf (fs w_c)) eqn:Htf; [|done].
  assert (Hd' : Fs.isdir dst n_u = false).
  { destruct (Fs.isdir dst n_u) eqn:Hd'; [|done].
    by rewrite (set_at_none_isdir _ _ _ _ Hu Hd') in Hd. }
  apply move_onto in Hm as (x & Hx & Hx' & _); [|done].
  apply read_get in Hraw.
  destruct (related tf q) eqn:Hr.
  - apply related_cases in Hr as [[r Hr]|[r Hr]].
    + rewrite Hr, get_app, (set_at_same _ _ _ _ Hu) in Hx. done.
    + destruct r as [|c r].
      * rewrite app_nil_r in Hr. subst tf.
        by rewrite (set_at_same _ _ _ _ Hu) in Hx.
      * unfold Fs.isfile in Htf. rewrite Hr, get_app, Hraw in Htf. done.
  - rewrite (set_at_other _ _ _ _ _ Hu Hr), Hraw in Hx. injection Hx as <-.
    by apply read_get.
Qed.

(** Without a result the rest of [try_run] is the collection of the
    staging directory followed by the raise of line 118. *)
Lemma after_handle_no_result E wd t tf w w_c :
  collect_staging E wd w = (Ok tt, w_c) →
  Fs.exists_ (result_json_of E t) (fs w) = false →
  apart (wd ++ ["working_directory"]) (result_json_of E t) →
  after_handle E wd t tf w
  = (Raise (Exception "A service error occured and no result json was found."), w_c).
Proof.
  intros Hc Hex Hart. unfold after_handle.
  rewrite (bind_ok _ _ _ _ _ Hc).
  assert (Hex' : Fs.exists_ (result_json_of E t) (fs w_c) = false).
  { unfold Fs.exists_ in *.
    destruct (related (result_json_of E t) (staging_dir E)) eqn:Hr.
    - apply result_json_vs_staging in Hr.
      by rewrite Hr, (collect_staging_gone _ _ _ _ Hc).
    - by rewrite (collect_staging_frame _ _ _ _ _ Hc Hr (apart_sym _ _ Hart)). }
  unfold mbind, M_bind, fs_query. by rewrite Hex'.
Qed.

Lemma try_run_unfold E w locals w_h :
  run_task E w = (Ok locals, w_h) →
  try_run E w =
  match locals with
  | Some (working_dir, service_task, target_file) =>
      after_handle E working_dir service_task target_file w_h
  | None => (Ok tt, w_h)
  end.
Proof.
  intros H. unfold try_run. rewrite (bind_ok _ _ _ _ _ H).
  by destruct locals as [[[? ?] ?]|].
Qed.

(** ** Identification and unwrapping *)

Lemma prefix_related (p q : path) : p `prefix_of` q → related p q = true.
Proof. intros [r ->]. apply related_app. Qed.

Lemma isdir_file p n data : Fs.get p n = Some (File data) → Fs.isdir p n = false.
Proof. unfold Fs.isdir. by intros ->. Qed.

Lemma write_ok d c data n :
  Fs.isdir d n = true → Fs.isdir (d ++ [c]) n = false →
  ∃ n', Fs.write (d ++ [c]) data n = Some n' ∧
        Fs.get (d ++ [c]) n' = Some (File data) ∧
        Fs.isdir d n' = true ∧
        ∀ q, apart (d ++ [c]) q → Fs.get q n' = Fs.get q n.
Proof.
  intros Hd Hdc. unfold Fs.write. rewrite Hdc.
  destruct (set_at_ok d c (Some (File data)) n Hd) as [n' Hn'].
  exists n'. split; [done|]. split; [by apply set_at_same in Hn'|]. split.
  - by apply set_at_above in Hn' as [_ ?].
  - intros q Hq. by eapply set_at_other.
Qed.

Lemma identify_plain E w data :
  Fs.read (FILE_PATH E) (fs w) = Some data →
  Fs.isdir (gettempdir E) (fs w) = true →
  String.eqb (fi_type (identify_fileinfo E data)) "archive/cart" = false →
  let target := gettempdir E ++ [fi_sha256 (identify_fileinfo E data)] in
  FILE_PATH E ≠ target → Fs.isdir target (fs w) = false →
  ∃ w', identify_and_unwrap E w = (Ok (identify_fileinfo E data, target), w') ∧
        Fs.read target (fs w') = Some data ∧
        ∀ name, name ≠ fi_sha256 (identify_fileinfo E data) →
                Fs.get (gettempdir E ++ [name]) (fs w')
                = Fs.get (gettempdir E ++ [name]) (fs w).
Proof.
  intros Hin Htmp Hty target Hne Hnd.
  destruct (write_ok _ _ data _ Htmp Hnd) as (n' & Hw & Hget & _ & Hfr).
  exists (set_fs n' w). split; [|split].
  - unfold identify_and_unwrap.
    rewrite (bind_ok _ _ _ _ _ (fs_read_ok _ _ _ Hin)), Hty.
    erewrite bind_ok; [done|]. apply fs_update_ok.
    unfold Fs.copyfile. by rewrite decide_False, Hin.
  - by apply read_get.
  - intros name Hname. apply Hfr, apart_siblings. congruence.
Qed.

Lemma identify_cart E w data payload :
  Fs.read (FILE_PATH E) (fs w) = Some data →
  Fs.isdir (gettempdir E) (fs w) = true →
  String.eqb (fi_type (identify_fileinfo E data)) "archive/cart" = true →
  unpack_stream E data = Ok payload →
  let outer := gettempdir E ++ [fi_sha256 (identify_fileinfo E data)] in
  let final := gettempdir E ++ [fi_sha256 (identify_fileinfo E payload)] in
  FILE_PATH E ≠ outer → Fs.isdir outer (fs w) = false →
  Fs.isdir final (fs w) = false →
  ∃ w', identify_and_unwrap E w = (Ok (identify_fileinfo E payload, final), w') ∧
        Fs.read final (fs w') = Some payload ∧
        ∀ name, name ≠ fi_sha256 (identify_fileinfo E payload) →
                Fs.get (gettempdir E ++ [name]) (fs w')
                = if decide (name = fi_sha256 (identify_fileinfo E data)) then None
                  else Fs.get (gettempdir E ++ [name]) (fs w).
Proof.
  intros Hin Htmp Hty Hun outer final Hne Hnd Hndf.
  assert (Hf : Fs.isfile (FILE_PATH E) (fs w) = true).
  { apply read_get in Hin. unfold Fs.isfile. by rewrite Hin. }
  pose proof (file_apart _ _ _ _ Hf Htmp Hnd Hne) as Hap.
  (* the output is created empty, then filled *)
  destruct (write_ok _ _ "" _ Htmp Hnd) as (n1 & Hw1 & Hg1 & Htmp1 & Hfr1).
  destruct (write_ok _ _ payload _ Htmp1 (isdir_file _ _ _ Hg1))
    as (n2 & Hw2 & Hg2 & Htmp2 & Hfr2).
  fold outer in Hw1, Hg1, Hfr1, Hw2, Hg2, Hfr2, Hap.
  assert (Hin1 : Fs.read (FILE_PATH E) n1 = Some data).
  { apply read_get. rewrite Hfr1 by by apply apart_sym. by apply read_get. }
  (* the move to the name given by the hash of the payload *)
  assert (Hmv : ∃ n4, Fs.move outer final n2 = Some n4 ∧
                      Fs.get final n4 = Some (File payload) ∧
                      ∀ name, name ≠ fi_sha256 (identify_fileinfo E payload) →
                        Fs.get (gettempdir E ++ [name]) n4
                        = if decide (name = fi_sha256 (identify_fileinfo E data))
                          then None
                          else Fs.get (gettempdir E ++ [name]) (fs w)).
  { destruct (decide (fi_sha256 (identify_fileinfo E data)
                      = fi_sha256 (identify_fileinfo E payload))) as [Heq|Hneq].
    - assert (final = outer) as -> by (unfold final, outer; by rewrite Heq).
      exists n2. unfold Fs.move. rewrite (isdir_file _ _ _ Hg2).
      unfold Fs.rename. rewrite Hg2, decide_True by done.
      split; [done|]. split; [done|]. intros name Hname.
      rewrite decide_False by congruence.
      rewrite Hfr2, Hfr1; [done| |]; apply apart_siblings; congruence.
    - assert (Hof : apart outer final) by by apply apart_siblings.
      assert (Hndf2 : Fs.isdir final n2 = false).
      { unfold Fs.isdir in *. by rewrite Hfr2, Hfr1. }
      destruct (set_at_ok (gettempdir E) (fi_sha256 (identify_fileinfo E data))
                  None n2 Htmp2) as [n3 Hn3]. fold outer in Hn3.
      pose proof (set_at_above _ _ _ _ _ Hn3 ltac:(done)) as [_ Htmp3].
      destruct (set_at_ok (gettempdir E) (fi_sha256 (identify_fileinfo E payload))
                  (Some (File payload)) n3 Htmp3) as [n4 Hn4]. fold final in Hn4.
      exists n4. split; [|split].
      + unfold Fs.move. rewrite Hndf2. unfold Fs.rename.
        rewrite Hg2, decide_False by by apply apart_ne.
        rewrite decide_False.
        2: { intros Hp%prefix_related. unfold apart in Hof. congruence. }
        unfold Fs.isdir in Hndf2. rewrite Hn3.
        by destruct (Fs.get final n2) as [[]|].
      + by apply set_at_same in Hn4.
      + intros name Hname.
        rewrite (set_at_other _ _ _ _ _ Hn4) by (apply apart_siblings; congruence).
        case_decide as Hd.
        * subst name. by apply set_at_same in Hn3.
        * rewrite (set_at_other _ _ _ _ _ Hn3) by (apply apart_siblings; congruence).
          rewrite Hfr2, Hfr1; [done| |]; apply apart_siblings; congruence. }
  destruct Hmv as (n4 & Hmv & Hg4 & Hnames).
  eexists. split; [|split].
  - unfold identify_and_unwrap.
    rewrite (bind_ok _ _ _ _ _ (fs_read_ok _ _ _ Hin)), Hty.
    rewrite (bind_ok _ _ _ _ _ (fs_read_ok _ _ _ Hin)).
    rewrite (bind_ok _ _ _ _ _ (fs_update_ok "open" _ _ _ Hw1)).
    erewrite bind_ok; [|by apply fs_read_ok].
    erewrite bind_ok; [|unfold lift; by rewrite Hun].
    erewrite bind_ok; [|apply fs_update_ok; exact Hw2].
    erewrite bind_ok; [|apply fs_read_ok; apply read_get; exact Hg2].
    erewrite bind_ok; [|apply fs_update_ok; exact Hmv].
    reflexivity.
  - by apply read_get.
  - done.
Qed.

(** ** The manifest and the input path *)

Lemma load_service_manifest_unusable E b w :
  manifest_unusable E (fs w) = true →
  ∃ e, load_service_manifest E b w = (Raise e, w).
Proof.
  unfold manifest_unusable, load_service_manifest. intros H.
  unfold mbind at 1, M_bind at 1, fs_query.
  destruct (Fs.exists_ _ (fs w)); [|by eexists].
  unfold read_manifest, mbind, M_bind, fs_read.
  destruct (Fs.read _ (fs w)) as [text|]; [|by eexists].
  unfold lift. destruct (yaml_safe_load E text) as [[]|]; try done; by eexists.
Qed.

Lemma run_task_loaded E w cls :
  load_module_by_path E (SERVICE_PATH E) = Ok cls →
  run_task E w =
  (load_service_manifest E false ≫= λ _,
   found ← fs_query (Fs.isfile (FILE_PATH E));
   if (found : bool) then
     let file_dir := Fs.dirname (FILE_PATH E) in
     update (set_file_dir file_dir);;
     let file_name := Fs.basename (FILE_PATH E) in
     let working_dir := working_dir_of E file_dir in
     call_service EvStartService start_service;;
     '(file_info, target_file) ← identify_and_unwrap E;
     submission_params ← (λ w, (Ok (default [] (self_submission_params w)), w));
     let service_task := make_task E submission_params file_info file_name in
     log INFO ("Starting task with SID: " +:+ sid service_task);;
     prepare_workspace working_dir;;
     call_service (EvHandleTask service_task) (λ svc, handle_task svc service_task);;
     mret (Some (working_dir, service_task, target_file))
   else
     log INFO ("File not found: " +:+ show_path (FILE_PATH E));;
     mret None) (set_service_class cls w).
Proof. intros H. unfold run_task. by rewrite H. Qed.

Lemma read_manifest_rejected E w text d e :
  Fs.read (service_manifest_yml E) (fs w) = Some text →
  yaml_safe_load E text = Ok (JDict d) →
  Service E (manifest_core d) = Raise e →
  read_manifest E w
  = (Ok (manifest_core d, default JNull (d !! "heuristics")),
     add_event (EvLog ERROR ("Invalid service manifest: " +:+ exn_str e)) w).
Proof.
  intros Hr Hy Hs. unfold read_manifest.
  rewrite (bind_ok _ _ _ _ _ (fs_read_ok _ _ _ Hr)).
  unfold mbind, M_bind, lift, try_except. rewrite Hy. simpl.
  fold (manifest_core d). by rewrite Hs.
Qed.

(** * The claims *)

(** ** Scoring *)

(** C1 (defect in the code).  The claim: the total score is the sum of the
    scores of the sections whose heuristic id is in the catalog, a section
    with an unknown id counting for 0.  On a result with one section that
    refers to heuristic 42 (score 500) and one that refers to the unknown
    heuristic 99, that sum is 500; the code raises [KeyError] at line 143
    while it handles the second section, so [result['result']['score']] is
    never assigned and the normalizer returns no document at all. *)
Theorem C1_unknown_heuristic_leaves_no_total :
  resolved_total Demo.catalog [Demo.section_of 42; Demo.section_of 99] = 500 ∧
  score_result Demo.catalog (Demo.doc_with [Demo.section_of 42; Demo.section_of 99])
  = Raise (KeyError (JInt 99)) ∧
  Demo.outcome
    (normalize_result Demo.E Demo.the_task
       (Demo.doc_with [Demo.section_of 42; Demo.section_of 99])) Demo.w0
  = Raise (KeyError (JInt 99)).
Proof. repeat split; by vm_compute. Qed.

(** C4 (defect in the code).  The claim: a section whose heuristic id is
    unknown gets a null heuristic, nothing is read from that null, and the
    normalization goes on with the other sections.  The code nulls the
    heuristic in the handler of line 141 and then runs line 143, which
    looks the unknown id up again and raises: the section is not
    recovered, the loop stops before the section that refers to heuristic
    42, and the whole normalization ends in the handler of line 158 with
    an "Invalid result created" record. *)
Theorem C4_unknown_heuristic_aborts_normalization :
  score_section Demo.catalog (Demo.section_of 99) 0 = Raise (KeyError (JInt 99)) ∧
  score_sections Demo.catalog [Demo.section_of 99; Demo.section_of 42] 0
  = Raise (KeyError (JInt 99)) ∧
  trace (Demo.after (validate_result Demo.E ["r.json"] Demo.the_task) Demo.unknown_world)
  = [EvLog ERROR "Invalid result created: 99"].
Proof. repeat split; by vm_compute. Qed.

(** ** The persisted result *)

(** C2, counterexample.  A completed run whose [result.json] has an
    [extracted] entry with a [path] field: the file is the text the
    service wrote. *)
Lemma C2_persisted_result_keeps_path :
  Demo.outcome (try_run Demo.E) Demo.w0 = Ok tt ∧
  Fs.read (Demo.workspace ++ ["result.json"]) (fs (Demo.after (try_run Demo.E) Demo.w0))
  = Some Demo.raw_text ∧
  json_load Demo.E Demo.raw_text = Ok Demo.raw_doc ∧
  leaks_path Demo.raw_doc = true.
Proof. repeat split; by vm_compute. Qed.

(** C2, as amended.  In a completed run no entry of [extracted] or
    [supplementary] of the normalized in-memory result, the copy that is
    validated, has a [path] field; [result.json] itself is the text the
    service wrote at the result path, whatever its entries carry. *)
Theorem C2_normalized_copy_has_no_path E w wd t tf w_h w' :
  run_task E w = (Ok (Some (wd, t, tf)), w_h) →
  try_run E w = (Ok tt, w') →
  apart (wd ++ ["working_directory"]) (result_json_of E t) →
  apart (wd ++ ["result.json"]) (staging_dir E) →
  Fs.isdir (wd ++ ["result.json"]) (fs w_h) = false →
  ∃ raw, Fs.read (result_json_of E t) (fs w_h) = Some raw ∧
         Fs.read (wd ++ ["result.json"]) (fs w') = Some raw ∧
         ∀ doc w1 r' w2,
           json_load E raw = Ok doc →
           normalize_result E t doc w1 = (Ok r', w2) →
           leaks_path r' = false.
Proof.
  intros Hrun Htry Hart Hdst Hnd.
  rewrite (try_run_unfold _ _ _ _ Hrun) in Htry.
  destruct (after_handle_persists_raw _ _ _ _ _ _ Htry Hart Hdst Hnd)
    as (raw & Hraw & Hraw').
  exists raw. split; [done|]. split; [done|].
  intros doc w1 r' w2 _ Hn. by eapply normalize_result_no_leak.
Qed.

Lemma C2_normalized_copy_has_no_path_witness :
  ∃ raw, Fs.read (result_json_of Demo.E Demo.the_task) (fs (Demo.handled Demo.E))
         = Some raw ∧
         Fs.read (Demo.workspace ++ ["result.json"])
                 (fs (Demo.after (try_run Demo.E) Demo.w0)) = Some raw ∧
         ∀ doc w1 r' w2,
           json_load Demo.E raw = Ok doc →
           normalize_result Demo.E Demo.the_task doc w1 = (Ok r', w2) →
           leaks_path r' = false.
Proof.
  apply (C2_normalized_copy_has_no_path Demo.E Demo.w0 Demo.workspace
           Demo.the_task Demo.target);
    vm_compute; reflexivity.
Defined.

(** C3.  In a completed run the normalization and scoring work on the
    parsed copy only: the validation block leaves every file as it is,
    and the file left at [<workspace>/result.json] has the bytes of the
    result artifact the service deposited.  The workspace is assumed not
    to be nested with the result path or the staging directory, and the
    service not to have made a directory called [result.json]. *)
Theorem C3_result_json_is_raw_artifact E w wd t tf w_h w' :
  run_task E w = (Ok (Some (wd, t, tf)), w_h) →
  try_run E w = (Ok tt, w') →
  apart (wd ++ ["working_directory"]) (result_json_of E t) →
  apart (wd ++ ["result.json"]) (staging_dir E) →
  Fs.isdir (wd ++ ["result.json"]) (fs w_h) = false →
  quiet (validate_result E (result_json_of E t) t) ∧
  ∃ raw, Fs.read (result_json_of E t) (fs w_h) = Some raw ∧
         Fs.read (wd ++ ["result.json"]) (fs w') = Some raw.
Proof.
  intros Hrun Htry Hart Hdst Hnd. split; [apply quiet_validate_result|].
  rewrite (try_run_unfold _ _ _ _ Hrun) in Htry.
  by eapply after_handle_persists_raw.
Qed.

Lemma C3_result_json_is_raw_artifact_witness :
  quiet (validate_result Demo.E (result_json_of Demo.E Demo.the_task) Demo.the_task) ∧
  ∃ raw, Fs.read (result_json_of Demo.E Demo.the_task) (fs (Demo.handled Demo.E))
         = Some raw ∧
         Fs.read (Demo.workspace ++ ["result.json"])
                 (fs (Demo.after (try_run Demo.E) Demo.w0)) = Some raw.
Proof.
  apply (C3_result_json_is_raw_artifact Demo.E Demo.w0 Demo.workspace
           Demo.the_task Demo.target);
    vm_compute; reflexivity.
Defined.

(** ** The canonical file *)

(** C5.  For a readable input, with the temp directory in place and the
    two content-addressed names not taken by directories, the
    identification stage returns the file information of the payload and
    leaves the payload at [<temp>/<sha256 of the payload>]: the input
    itself when it is no CaRT, the decoded payload when it is one.  No
    other entry of the temp directory is added or changed; the
    intermediate file named after the wrapper is gone. *)
Theorem C5_canonical_file E w data payload :
  Fs.read (FILE_PATH E) (fs w) = Some data →
  Fs.isdir (gettempdir E) (fs w) = true →
  payload_of E data = Ok payload →
  FILE_PATH E ≠ gettempdir E ++ [fi_sha256 (identify_fileinfo E data)] →
  Fs.isdir (gettempdir E ++ [fi_sha256 (identify_fileinfo E data)]) (fs w) = false →
  Fs.isdir (gettempdir E ++ [fi_sha256 (identify_fileinfo E payload)]) (fs w) = false →
  ∃ w', identify_and_unwrap E w
        = (Ok (identify_fileinfo E payload,
               gettempdir E ++ [fi_sha256 (identify_fileinfo E payload)]), w') ∧
        Fs.read (gettempdir E ++ [fi_sha256 (identify_fileinfo E payload)]) (fs w')
        = Some payload ∧
        ∀ name, name ≠ fi_sha256 (identify_fileinfo E payload) →
                Fs.get (gettempdir E ++ [name]) (fs w')
                = if decide (name = fi_sha256 (identify_fileinfo E data)) then None
                  else Fs.get (gettempdir E ++ [name]) (fs w).
Proof.
  intros Hin Htmp Hpay Hne Hnd Hndf. unfold payload_of in Hpay.
  destruct (String.eqb _ _) eqn:Hty.
  - by apply identify_cart.
  - injection Hpay as <-.
    destruct (identify_plain E w data Hin Htmp Hty Hne Hnd) as (w' & H1 & H2 & H3).
    exists w'. split; [done|]. split; [done|]. intros name Hname.
    rewrite decide_False by done. by apply H3.
Qed.

Lemma C5_canonical_file_witness :
  ∃ w', identify_and_unwrap Demo.E (Demo.boot (Demo.disk "CARTxyz" true))
        = (Ok (Demo.identify "xyz", ["tmp"; "sha256:xyz"]), w') ∧
        Fs.read ["tmp"; "sha256:xyz"] (fs w') = Some "xyz" ∧
        ∀ name, name ≠ "sha256:xyz" →
                Fs.get ["tmp"; name] (fs w')
                = if decide (name = "sha256:CARTxyz") then None
                  else Fs.get ["tmp"; name] (Demo.disk "CARTxyz" true).
Proof.
  apply (C5_canonical_file Demo.E (Demo.boot (Demo.disk "CARTxyz" true))
           "CARTxyz" "xyz"); try (vm_compute; reflexivity).
  vm_compute. discriminate.
Defined.

(** ** A run without a result *)

(** C6, counterexample.  The service stages a file and writes no result:
    the run ends in the exception of line 118, and the content-addressed
    temp input is still there.  The abort comes before the unlink of
    line 162, not after it. *)
Lemma C6_temp_input_survives_abort :
  Demo.outcome (try_run Demo.E_silent) Demo.w0
  = Raise (Exception "A service error occured and no result json was found.") ∧
  Fs.read Demo.target (fs (Demo.after (try_run Demo.E_silent) Demo.w0)) = Some "abc".
Proof. split; by vm_compute. Qed.

(** C6, as amended.  If no result artifact exists at the result path when
    [handle_task] has returned, and the staging directory could be emptied
    into the workspace, then the harness raises the fatal exception of
    line 118.  The run ends right there, in the state the collection of
    the staging directory left: before the temp input is unlinked and
    before the result is moved.  The temp input is as the service left it,
    the shared staging directory is gone, and every entry the service
    staged is kept, under [<workspace>/working_directory].  The paths
    involved are assumed not to be nested in one another. *)
Theorem C6_abort_without_result E w wd t tf w_h w_c :
  run_task E w = (Ok (Some (wd, t, tf)), w_h) →
  collect_staging E wd w_h = (Ok tt, w_c) →
  Fs.exists_ (result_json_of E t) (fs w_h) = false →
  apart (wd ++ ["working_directory"]) (result_json_of E t) →
  apart tf (staging_dir E) →
  apart tf (wd ++ ["working_directory"]) →
  apart (staging_dir E) (wd ++ ["working_directory"]) →
  Fs.isdir (wd ++ ["working_directory"]) (fs w_h) = true →
  try_run E w
  = (Raise (Exception "A service error occured and no result json was found."), w_c) ∧
  Fs.get tf (fs w_c) = Fs.get tf (fs w_h) ∧
  Fs.get (staging_dir E) (fs w_c) = None ∧
  ∀ f x, Fs.get (staging_dir E ++ [f]) (fs w_h) = Some x →
         Fs.get ((wd ++ ["working_directory"]) ++ [f]) (fs w_c) = Some x.
Proof.
  intros Hrun Hc Hex Hart Htf1 Htf2 Hsa Hdir. split; [|split; [|split]].
  - rewrite (try_run_unfold _ _ _ _ Hrun). by apply after_handle_no_result.
  - by eapply collect_staging_frame.
  - by eapply collect_staging_gone.
  - intros f x Hx. by eapply collect_staging_kept.
Qed.

Lemma C6_abort_without_result_witness :
  try_run Demo.E_silent Demo.w0
  = (Raise (Exception "A service error occured and no result json was found."),
     Demo.after (collect_staging Demo.E_silent Demo.workspace)
                (Demo.handled Demo.E_silent)) ∧
  Fs.get Demo.target
    (fs (Demo.after (collect_staging Demo.E_silent Demo.workspace)
                    (Demo.handled Demo.E_silent)))
  = Fs.get Demo.target (fs (Demo.handled Demo.E_silent)) ∧
  Fs.get (staging_dir Demo.E_silent)
    (fs (Demo.after (collect_staging Demo.E_silent Demo.workspace)
                    (Demo.handled Demo.E_silent)))
  = None ∧
  ∀ f x, Fs.get (staging_dir Demo.E_silent ++ [f]) (fs (Demo.handled Demo.E_silent))
         = Some x →
         Fs.get ((Demo.workspace ++ ["working_directory"]) ++ [f])
           (fs (Demo.after (collect_staging Demo.E_silent Demo.workspace)
                           (Demo.handled Demo.E_silent))) = Some x.
Proof.
  apply (C6_abort_without_result Demo.E_silent Demo.w0 Demo.workspace
           Demo.the_task Demo.target (Demo.handled Demo.E_silent));
    vm_compute; reflexivity.
Defined.

(** ** Timestamps *)

(** C7, counterexample.  With a clock that stands still, [created] is the
    reading and [expiry_ts] is the reading plus 311040000 seconds, which
    is 3600 days: not [created] plus the 3600 seconds of the task's
    ttl. *)
Lemma C7_expiry_is_not_created_plus_ttl_seconds :
  field "created"
    (Demo.outcome (normalize_result Demo.E_frozen Demo.the_task Demo.raw_doc) Demo.w0)
  = Some (JInt 1600000000) ∧
  field "expiry_ts"
    (Demo.outcome (normalize_result Demo.E_frozen Demo.the_task Demo.raw_doc) Demo.w0)
  = Some (JInt 1911040000) ∧
  ttl Demo.the_task = 3600 ∧
  1911040000 ≠ 1600000000 + ttl Demo.the_task.
Proof. repeat split; by vm_compute. Qed.

(** C7, as amended.  [expiry_ts] is the time read by its own call of
    [now_as_iso], the third of the block, plus the task's ttl multiplied
    by 24 * 60 * 60: the ttl, 3600 in every task the harness builds, is
    counted in days.  [created] is the time read by the first call. *)
Theorem C7_expiry_counts_ttl_in_days E t result w r' w' :
  normalize_result E t result w = (Ok r', w') →
  field "created" (Ok r') = Some (JInt (time E (ticks w))) ∧
  field "expiry_ts" (Ok r')
  = Some (JInt (time E (S (S (ticks w))) + ttl t * (24 * 60 * 60))) ∧
  ∀ submission_params file_info file_name,
    ttl (make_task E submission_params file_info file_name) = 3600.
Proof.
  intros (r1 & d2 & _ & _ & ->)%normalize_result_inv. split; [|split]; [| |done].
  - simpl. rewrite !lookup_insert_ne by done. rewrite lookup_insert_eq.
    do 2 f_equal. lia.
  - simpl. rewrite lookup_insert_eq. do 2 f_equal. lia.
Qed.

Lemma C7_expiry_counts_ttl_in_days_witness :
  field "created" (Ok Demo.normalized) = Some (JInt (Demo.ticking 0)) ∧
  field "expiry_ts" (Ok Demo.normalized)
  = Some (JInt (Demo.ticking 2 + ttl Demo.the_task * (24 * 60 * 60))) ∧
  ∀ submission_params file_info file_name,
    ttl (make_task Demo.E submission_params file_info file_name) = 3600.
Proof.
  apply (C7_expiry_counts_ttl_in_days Demo.E Demo.the_task Demo.raw_doc Demo.w0
           Demo.normalized
           (Demo.after (normalize_result Demo.E Demo.the_task Demo.raw_doc) Demo.w0)).
  vm_compute. reflexivity.
Defined.

(** C8, counterexample.  With a clock that advances by one second from
    one reading to the next, [archive_ts] is one day and one second after
    [created]. *)
Lemma C8_archive_is_not_created_plus_day :
  field "created"
    (Demo.outcome (normalize_result Demo.E Demo.the_task Demo.raw_doc) Demo.w0)
  = Some (JInt 1600000000) ∧
  field "archive_ts"
    (Demo.outcome (normalize_result Demo.E Demo.the_task Demo.raw_doc) Demo.w0)
  = Some (JInt 1600086401) ∧
  1600086401 ≠ 1600000000 + 24 * 60 * 60.
Proof. repeat split; by vm_compute. Qed.

(** C8, as amended.  [archive_ts] is the time read by its own call of
    [now_as_iso], the second of the block, plus exactly one day; it is
    [created] plus exactly one day when, and only when, the clock reads
    the same at the first two calls. *)
Theorem C8_archive_is_own_reading_plus_day E t result w r' w' :
  normalize_result E t result w = (Ok r', w') →
  ∃ created archive_ts,
    field "created" (Ok r') = Some (JInt created) ∧
    field "archive_ts" (Ok r') = Some (JInt archive_ts) ∧
    archive_ts = time E (S (ticks w)) + 24 * 60 * 60 ∧
    (archive_ts = created + 24 * 60 * 60 ↔ time E (S (ticks w)) = time E (ticks w)).
Proof.
  intros (r1 & d2 & _ & _ & ->)%normalize_result_inv.
  exists (time E (ticks w)), (time E (S (ticks w)) + 24 * 60 * 60).
  split; [|split; [|split]].
  - simpl. rewrite !lookup_insert_ne by done. rewrite lookup_insert_eq.
    do 2 f_equal. lia.
  - simpl. rewrite lookup_insert_ne by done. rewrite lookup_insert_eq.
    do 2 f_equal.
  - done.
  - lia.
Qed.

Lemma C8_archive_is_own_reading_plus_day_witness :
  ∃ created archive_ts,
    field "created" (Ok Demo.normalized) = Some (JInt created) ∧
    field "archive_ts" (Ok Demo.normalized) = Some (JInt archive_ts) ∧
    archive_ts = Demo.ticking 1 + 24 * 60 * 60 ∧
    (archive_ts = created + 24 * 60 * 60 ↔ Demo.ticking 1 = Demo.ticking 0).
Proof.
  apply (C8_archive_is_own_reading_plus_day Demo.E Demo.the_task Demo.raw_doc Demo.w0
           Demo.normalized
           (Demo.after (normalize_result Demo.E Demo.the_task Demo.raw_doc) Demo.w0)).
  vm_compute. reflexivity.
Defined.

(** ** Missing input, unusable manifest *)

(** C9.  With a module that loads and a manifest that loads, an input
    path that is no file makes [try_run] return normally: it logs "File
    not found", writes nothing to the filesystem and never calls the
    service. *)
Theorem C9_missing_input_is_noop E w cls j w1 :
  load_module_by_path E (SERVICE_PATH E) = Ok cls →
  load_service_manifest E false (set_service_class cls w) = (Ok j, w1) →
  Fs.isfile (FILE_PATH E) (fs w) = false →
  ∃ w', try_run E w = (Ok tt, w') ∧
        fs w' = fs w ∧
        trace w' = trace w1 ++ [EvLog INFO ("File not found: " +:+ show_path (FILE_PATH E))] ∧
        executed (trace w') = executed (trace w).
Proof.
  intros Hload Hman Hfile.
  destruct (quiet_load_service_manifest _ _ _ _ _ Hman) as [Hfs Htr]. simpl in *.
  exists (add_event (EvLog INFO ("File not found: " +:+ show_path (FILE_PATH E))) w1).
  split; [|split; [|split]].
  - rewrite (try_run_unfold E w None
               (add_event (EvLog INFO ("File not found: " +:+ show_path (FILE_PATH E))) w1));
      [done|].
    rewrite (run_task_loaded _ _ _ Hload), (bind_ok _ _ _ _ _ Hman).
    unfold mbind at 1, M_bind at 1, fs_query. by rewrite Hfs, Hfile.
  - done.
  - done.
  - simpl. unfold executed in *. by rewrite existsb_app, Htr, orb_false_r.
Qed.

Lemma C9_missing_input_is_noop_witness :
  ∃ w', try_run Demo.E Demo.w_no_input = (Ok tt, w') ∧
        fs w' = fs Demo.w_no_input ∧
        trace w' = [EvLog INFO "File not found: data/sample.bin"] ∧
        executed (trace w') = executed (trace Demo.w_no_input).
Proof.
  apply (C9_missing_input_is_noop Demo.E Demo.w_no_input (λ _, Ok (Demo.svc true)) JNull
           (Demo.after (load_service_manifest Demo.E false)
              (set_service_class (λ _, Ok (Demo.svc true)) Demo.w_no_input)));
    vm_compute; reflexivity.
Defined.

(** C10, counterexample.  A manifest that parses to a mapping and is
    rejected by the [Service] model: the rejection is logged, the service
    is started and handed the task, and the run completes. *)
Lemma C10_rejected_manifest_still_runs :
  Service Demo.E_rejecting (manifest_core {[ "name" := JStr "Demo" ]})
  = Raise (ValueError "missing field 'version'") ∧
  Demo.outcome (try_run Demo.E_rejecting) Demo.w0 = Ok tt ∧
  head (trace (Demo.after (try_run Demo.E_rejecting) Demo.w0))
  = Some (EvLog ERROR "Invalid service manifest: missing field 'version'") ∧
  executed (trace (Demo.after (try_run Demo.E_rejecting) Demo.w0)) = true.
Proof. repeat split; by vm_compute. Qed.

(** C10, as amended.  Whenever the service manifest is missing or
    unreadable, or its text does not parse to a YAML mapping, the harness
    raises a fatal exception before any execution of the service under
    test: no file is touched and nothing is logged or called.  A manifest
    that parses to a mapping and is rejected by the [Service] model is
    another matter: reading it returns normally, with one error record
    in the log. *)
Theorem C10_unusable_manifest_is_fatal E w cls :
  load_module_by_path E (SERVICE_PATH E) = Ok cls →
  (manifest_unusable E (fs w) = true →
   ∃ e w', try_run E w = (Raise e, w') ∧ fs w' = fs w ∧ trace w' = trace w) ∧
  (∀ text d e,
     Fs.read (service_manifest_yml E) (fs w) = Some text →
     yaml_safe_load E text = Ok (JDict d) →
     Service E (manifest_core d) = Raise e →
     read_manifest E w
     = (Ok (manifest_core d, default JNull (d !! "heuristics")),
        add_event (EvLog ERROR ("Invalid service manifest: " +:+ exn_str e)) w)).
Proof.
  intros Hload. split.
  - intros Hbad.
    destruct (load_service_manifest_unusable E false (set_service_class cls w) Hbad)
      as [e He].
    exists e, (set_service_class cls w). split; [|done].
    unfold try_run. erewrite bind_raise; [done|].
    rewrite (run_task_loaded _ _ _ Hload). by apply bind_raise.
  - intros text d e. apply read_manifest_rejected.
Qed.

Lemma C10_unusable_manifest_is_fatal_witness :
  (∃ e w', try_run Demo.E Demo.w_no_manifest = (Raise e, w') ∧
           fs w' = fs Demo.w_no_manifest ∧ trace w' = trace Demo.w_no_manifest) ∧
  read_manifest Demo.E_rejecting Demo.w0
  = (Ok (manifest_core {[ "name" := JStr "Demo" ]},
         default JNull (({[ "name" := JStr "Demo" ]} : gmap string json) !! "heuristics")),
     add_event
       (EvLog ERROR ("Invalid service manifest: "
                     +:+ exn_str (ValueError "missing field 'version'")))
       Demo.w0).
Proof.
  split.
  - apply (proj1 (C10_unusable_manifest_is_fatal Demo.E Demo.w_no_manifest
                    (λ _, Ok (Demo.svc true)) eq_refl)).
    vm_compute. reflexivity.
  - apply (proj2 (C10_unusable_manifest_is_fatal Demo.E_rejecting Demo.w0
                    (λ _, Ok (Demo.svc true)) eq_refl) "name: Demo"
             {[ "name" := JStr "Demo" ]} (ValueError "missing field 'version'"));
      vm_compute; reflexivity.
Defined.

(** * Further properties *)

(** A statement that ends in [r] leaves the world [Demo.after] names. *)
Lemma run_outcome {A} (m : M A) w r : Demo.outcome m w = r → m w = (r, Demo.after m w).
Proof.
  unfold Demo.outcome, Demo.after. destruct (m w) as [r' w']. simpl. by intros ->.
Qed.

(** ** Scoring *)

Lemma score_section_total heuristics section total section' total' :
  score_section heuristics section total = Ok (section', total') →
  total' = total + match resolved heuristics section with
                   | Some d => heur_score d
                   | None => 0
                   end.
Proof.
  unfold score_section. intros H.
  destruct (Py.getitem section "heuristic") as [h|] eqn:Hh; [|done].
  cbn [mbind res_bind] in H. destruct (Py.truthy h) eqn:Ht.
  - destruct (Py.getitem h "heur_id") as [i|] eqn:Hi; [|done].
    cbn [mbind res_bind] in H.
    unfold service_heuristic_to_result_heuristic, catalog_name in H.
    rewrite Hi in H. cbn [mbind res_bind] in H.
    unfold resolved. rewrite Hh, Hi.
    destruct (catalog_lookup heuristics i) as [[d|]|] eqn:Hc.
    + apply getitem_inv in Hh as (sd & -> & Hsd).
      cbn [mbind res_bind Py.setitem Py.getitem res_except_invalid add_score] in H.
      rewrite lookup_insert_eq in H.
      do 3 (cbn [mbind res_bind Py.setitem Py.getitem res_except_invalid add_score] in H;
            rewrite ?lookup_insert_eq in H; rewrite ?lookup_insert_ne in H by done).
      cbn in H. by simplify_eq.
    + apply getitem_inv in Hh as (sd & -> & Hsd). cbn in H. done.
    + apply getitem_inv in Hh as (sd & -> & Hsd). cbn in H.
      destruct (is_InvalidHeuristicException e); cbn in H; done.
  - simplify_eq. rewrite (falsy_unresolved _ _ _ Hh Ht). lia.
Qed.

Lemma score_sections_total heuristics sections total sections' total' :
  score_sections heuristics sections total = Ok (sections', total') →
  total' = total + resolved_total heuristics sections.
Proof.
  revert total sections' total'.
  induction sections as [|s l IH]; intros total sections' total'; simpl.
  - intros [= <- <-]. lia.
  - intros ([s' t1] & Hs & H)%res_bind_inv.
    apply res_bind_inv in H as ([l' t2] & Hl & H). simplify_eq.
    apply score_section_total in Hs. apply IH in Hl. lia.
Qed.

(** X1.  Whenever the scoring of lines 132-144 goes through, the score it
    stores under [result.score] is the sum of the catalog scores of the
    sections whose heuristic id the catalog knows. *)
Theorem X1_stored_score_is_resolved_total heuristics result result' sections :
  score_result heuristics result = Ok result' →
  (Py.getitem result "result" ≫= λ r, Py.getitem r "sections") = Ok (JList sections) →
  (Py.getitem result' "result" ≫= λ r, Py.getitem r "score")
  = Ok (JInt (resolved_total heuristics sections)).
Proof.
  unfold score_result. intros H Hs.
  destruct (Py.getitem result "result") as [r|] eqn:Hr; [|done].
  cbn [mbind res_bind] in H, Hs. rewrite Hs in H. cbn [mbind res_bind Py.iter] in H.
  apply res_bind_inv in H as ([items total] & Hsc & H).
  apply score_sections_total in Hsc.
  apply res_bind_inv in H as (ra & Hra & H).
  apply res_bind_inv in H as (rb & Hrb & H).
  apply setitem_inv in Hra as (dr & -> & ->).
  apply setitem_inv in Hrb as (? & [= <-] & ->).
  apply setitem_inv in H as (d & -> & ->).
  cbn. rewrite lookup_insert_eq. cbn. rewrite lookup_insert_eq.
  do 2 f_equal. lia.
Qed.

Lemma X1_stored_score_is_resolved_total_witness :
  (Py.getitem (Demo.document (score_result Demo.catalog Demo.raw_doc)) "result"
   ≫= λ r, Py.getitem r "score")
  = Ok (JInt (resolved_total Demo.catalog [Demo.section_of 42])).
Proof.
  apply (X1_stored_score_is_resolved_total Demo.catalog Demo.raw_doc);
    vm_compute; reflexivity.
Defined.

(** X2.  A section whose heuristic reference is truthy comes out of the
    loop body only if the catalog knows its id, and then its heuristic is
    the record of that id with the name and the score of the catalog. *)
Theorem X2_resolved_section_carries_catalog_record
  heuristics section total section' total' h :
  score_section heuristics section total = Ok (section', total') →
  Py.getitem section "heuristic" = Ok h →
  Py.truthy h = true →
  ∃ heur_id d,
    Py.getitem h "heur_id" = Ok heur_id ∧
    catalog_lookup heuristics heur_id = Ok (Some d) ∧
    Py.getitem section' "heuristic" = Ok (resolved_record heur_id d) ∧
    total' = total + heur_score d.
Proof.
  unfold score_section. intros H Hh Ht. rewrite Hh in H.
  cbn [mbind res_bind] in H. rewrite Ht in H.
  destruct (Py.getitem h "heur_id") as [i|] eqn:Hi; [|done].
  cbn [mbind res_bind] in H.
  unfold service_heuristic_to_result_heuristic, catalog_name in H.
  rewrite Hi in H. cbn [mbind res_bind] in H.
  apply getitem_inv in Hh as (sd & -> & Hsd).
  destruct (catalog_lookup heuristics i) as [[d|]|] eqn:Hc.
  2: { cbn in H. done. }
  2: { cbn in H. destruct (is_InvalidHeuristicException e); cbn in H; done. }
  exists i, d. split; [done|]. split; [done|].
  cbn [mbind res_bind Py.setitem Py.getitem res_except_invalid add_score] in H.
  rewrite lookup_insert_eq in H.
  do 3 (cbn [mbind res_bind Py.setitem Py.getitem res_except_invalid add_score] in H;
        rewrite ?lookup_insert_eq in H; rewrite ?lookup_insert_ne in H by done).
  cbn in H. simplify_eq. split; [|done].
  cbn. rewrite lookup_insert_eq. f_equal.
Qed.

Lemma X2_resolved_section_carries_catalog_record_witness :
  ∃ heur_id d,
    Py.getitem (Demo.obj [("heur_id", JInt 42)]) "heur_id" = Ok heur_id ∧
    catalog_lookup Demo.catalog heur_id = Ok (Some d) ∧
    Py.getitem (resolved_section 42) "heuristic" = Ok (resolved_record heur_id d) ∧
    500 = 0 + heur_score d.
Proof.
  apply (X2_resolved_section_carries_catalog_record Demo.catalog
           (Demo.section_of 42) 0 (resolved_section 42) 500
           (Demo.obj [("heur_id", JInt 42)]));
    vm_compute; reflexivity.
Defined.

(** X3.  A section that has no [heuristic] key at all stops the loop with
    [KeyError: 'heuristic'], whatever sections come after it, when the
    sections before it are well formed. *)
Theorem X3_section_without_heuristic_key_raises heuristics before d after total :
  Forall (section_resolves heuristics) before →
  d !! "heuristic" = None →
  score_sections heuristics (before ++ JDict d :: after) total
  = Raise (KeyError (JStr "heuristic")).
Proof.
  intros Hb Hd. revert total. induction Hb as [|s l (h & Hh & Hs) _ IH]; intros total.
  - simpl. unfold score_section. simpl. by rewrite Hd.
  - cbn [app score_sections].
    assert (∃ s' t', score_section heuristics s total = Ok (s', t')) as (s' & t' & ->).
    { destruct (Py.truthy h) eqn:Ht.
      - destruct Hs as [|[r Hr]]; [done|].
        destruct (score_section_resolved heuristics s total r Hr) as (s' & ?); eauto.
      - rewrite (score_section_falsy _ _ _ _ Hh Ht). eauto. }
    cbn [mbind res_bind]. by rewrite IH.
Qed.

Lemma X3_section_without_heuristic_key_raises_witness :
  score_sections Demo.catalog
    ([Demo.section_of 42] ++ JDict {[ "body" := JStr "text" ]} :: [Demo.section_of 42]) 0
  = Raise (KeyError (JStr "heuristic")).
Proof.
  apply (X3_section_without_heuristic_key_raises Demo.catalog [Demo.section_of 42]
           {[ "body" := JStr "text" ]} [Demo.section_of 42] 0).
  - apply Forall_singleton. exists (Demo.obj [("heur_id", JInt 42)]).
    split; [vm_compute; reflexivity|]. right. vm_compute. eexists. reflexivity.
  - vm_compute. reflexivity.
Defined.

(** ** Stripping *)

Lemma res_mapM_pop_path_eq l l' :
  res_mapM pop_path l = Ok l' → l' = drop_path <$> l.
Proof.
  revert l'. induction l as [|x l IH]; intros l'; simpl.
  - by intros [= <-].
  - intros (y & Hy & H)%res_bind_inv. apply res_bind_inv in H as (ys & Hys & [= <-]).
    rewrite (IH _ Hys). destruct x; try discriminate. by injection Hy as <-.
Qed.

Lemma strip_result_shape result r1 :
  strip_result result = Ok r1 →
  ∃ d1, r1 = JDict d1 ∧ d1 !! "temp_submission_data" = None ∧
        doc_list r1 "extracted" = drop_path <$> doc_list result "extracted" ∧
        doc_list r1 "supplementary" = drop_path <$> doc_list result "supplementary".
Proof.
  unfold strip_result. intros (r0 & H0 & H)%res_bind_inv.
  apply res_bind_inv in H as (resp & Hresp & H).
  apply res_bind_inv in H as (ext & Hext & H).
  apply res_bind_inv in H as (sup & Hsup & H).
  destruct result as [| | | | |d]; try discriminate. injection H0 as <-.
  apply getitem_inv in Hresp as (d0 & [= <-] & Hd0).
  rewrite lookup_delete_ne in Hd0 by done.
  apply getitem_inv in Hext as (dr & -> & Hdr).
  apply getitem_inv in Hsup as (? & [= <-] & Hds).
  destruct ext as [| | |a|a|]; try discriminate;
    destruct sup as [| | |b|b|]; try discriminate.
  - destruct (String.eqb _ _); [|discriminate]. injection H as <-.
    eexists. split; [done|]. split; [by rewrite lookup_delete_eq|].
    unfold doc_list. simpl. rewrite lookup_delete_ne, Hd0 by done. simpl.
    by rewrite Hdr, Hds.
  - apply res_bind_inv in H as (a' & Ha & H).
    apply res_bind_inv in H as (b' & Hb & H). simpl in H. injection H as <-.
    apply res_mapM_pop_path_eq in Ha as ->. apply res_mapM_pop_path_eq in Hb as ->.
    eexists. split; [done|]. split.
    { rewrite lookup_insert_ne by done. by rewrite lookup_delete_eq. }
    unfold doc_list. simpl. rewrite lookup_insert_eq, Hd0. simpl.
    rewrite lookup_insert_eq, Hdr, Hds.
    rewrite lookup_insert_ne by done. by rewrite lookup_insert_eq.
Qed.

Lemma normalize_result_shape E t result w r' w' :
  normalize_result E t result w = (Ok r', w') →
  field "temp_submission_data" (Ok r') = None ∧
  doc_list r' "extracted" = drop_path <$> doc_list result "extracted" ∧
  doc_list r' "supplementary" = drop_path <$> doc_list result "supplementary".
Proof.
  intros (r1 & d2 & H1 & H2 & ->)%normalize_result_inv.
  apply strip_result_shape in H1 as (d1 & -> & Htsd & Hext & Hsup).
  rewrite !doc_list_insert by done.
  rewrite !(score_result_doc_list _ _ _ _ H2), Hext, Hsup.
  split; [|done]. simpl. rewrite !lookup_insert_ne by done.
  unfold score_result in H2.
  apply res_bind_inv in H2 as (r & Hr & H2).
  apply res_bind_inv in H2 as (ss & Hss & H2).
  apply res_bind_inv in H2 as (items & Hit & H2).
  apply res_bind_inv in H2 as ([items' total] & Hsc & H2).
  apply res_bind_inv in H2 as (ra & Hra & H2).
  apply res_bind_inv in H2 as (rb & Hrb & H2).
  simpl in H2. injection H2 as <-. by rewrite lookup_insert_ne.
Qed.

(** X4.  The scratch field [temp_submission_data] is not in the document
    the normalizer returns, whether or not the raw result had it. *)
Theorem X4_scratch_field_is_dropped E t result w r' w' :
  normalize_result E t result w = (Ok r', w') →
  field "temp_submission_data" (Ok r') = None.
Proof. intros H. by apply normalize_result_shape in H as [? _]. Qed.

Lemma X4_scratch_field_is_dropped_witness :
  field "temp_submission_data" (Ok Demo.raw_doc) = Some (Demo.obj []) ∧
  field "temp_submission_data" (Ok Demo.normalized) = None.
Proof.
  split; [vm_compute; reflexivity|].
  apply (X4_scratch_field_is_dropped Demo.E Demo.the_task Demo.raw_doc Demo.w0
           Demo.normalized
           (Demo.after (normalize_result Demo.E Demo.the_task Demo.raw_doc) Demo.w0)).
  vm_compute. reflexivity.
Defined.

(** X5.  The normalizer keeps the entries of [extracted] and
    [supplementary] in number and in order, and takes nothing from an
    entry but its [path]. *)
Theorem X5_entries_lose_only_their_path E t result w r' w' :
  normalize_result E t result w = (Ok r', w') →
  doc_list r' "extracted" = drop_path <$> doc_list result "extracted" ∧
  doc_list r' "supplementary" = drop_path <$> doc_list result "supplementary".
Proof. intros H. by apply normalize_result_shape in H as [_ ?]. Qed.

Lemma X5_entries_lose_only_their_path_witness :
  doc_list Demo.normalized "extracted"
  = drop_path <$> doc_list Demo.raw_doc "extracted" ∧
  doc_list Demo.normalized "supplementary"
  = drop_path <$> doc_list Demo.raw_doc "supplementary".
Proof.
  apply (X5_entries_lose_only_their_path Demo.E Demo.the_task Demo.raw_doc Demo.w0
           Demo.normalized
           (Demo.after (normalize_result Demo.E Demo.the_task Demo.raw_doc) Demo.w0)).
  vm_compute. reflexivity.
Defined.

(** ** The manifest *)

Lemma param_pairs_entries ps :
  forallb (λ p, hashable p.1) ps = true →
  param_pairs (param_entry <$> ps) = Ok ps.
Proof.
  induction ps as [|[name dflt] ps IH]; [done|].
  intros [Hn Hps]%andb_prop. specialize (IH Hps).
  rewrite fmap_cons. cbn [param_pairs param_entry fst snd Py.getitem].
  rewrite lookup_insert_eq. cbn [mbind res_bind].
  rewrite lookup_insert_ne by done. rewrite lookup_insert_eq. cbn [mbind res_bind].
  rewrite IH. by destruct name.
Qed.

Lemma same_key_sym a b : same_key a b = same_key b a.
Proof. unfold same_key. apply bool_decide_ext. split; by intros ->. Qed.

Lemma same_key_spec a b : same_key a b = true ↔ dict_key a = dict_key b.
Proof. unfold same_key. apply bool_decide_eq_true. Qed.

Lemma same_key_trans_l a b c : same_key a b = true → same_key c a = same_key c b.
Proof.
  intros Hab%same_key_spec. unfold same_key. apply bool_decide_ext. by rewrite Hab.
Qed.

Lemma lookup_key_absent k d : dict_key k ∉ dict_key <$> d.*1 → lookup_key k d = None.
Proof.
  induction d as [|[k' v'] d IH]; [done|]. simpl.
  rewrite not_elem_of_cons. intros [Hne Hd]. rewrite (IH Hd).
  destruct (same_key k k') eqn:Hs; [|done]. by apply same_key_spec in Hs.
Qed.

Lemma lookup_key_snoc k' d k v :
  lookup_key k' (d ++ [(k, v)])
  = if same_key k' k then Some v else lookup_key k' d.
Proof.
  induction d as [|[k1 v1] d IH]; simpl; [done|]. rewrite IH.
  by destruct (same_key k' k).
Qed.

Lemma dict_set_keys_in k v d :
  dict_key k ∈ dict_key <$> d.*1 →
  dict_key <$> (dict_set k v d).*1 = dict_key <$> d.*1.
Proof.
  induction d as [|[k1 v1] d IH]; [by intros ?%elem_of_nil|].
  cbn [dict_set]. destruct (same_key k k1) eqn:Hs; [done|].
  rewrite !fmap_cons. intros [Heq|Hin]%elem_of_cons.
  - simpl in Heq. apply same_key_spec in Heq. congruence.
  - simpl. by rewrite (IH Hin).
Qed.

Lemma dict_set_new k v d :
  dict_key k ∉ dict_key <$> d.*1 → dict_set k v d = d ++ [(k, v)].
Proof.
  induction d as [|[k1 v1] d IH]; [done|]. simpl.
  rewrite not_elem_of_cons. intros [Hne Hd].
  destruct (same_key k k1) eqn:Hs; [by apply same_key_spec in Hs|].
  by rewrite (IH Hd).
Qed.

Lemma dict_set_NoDup k v d :
  NoDup (dict_key <$> d.*1) → NoDup (dict_key <$> (dict_set k v d).*1).
Proof.
  intros Hd. destruct (decide (dict_key k ∈ dict_key <$> d.*1)) as [Hin|Hin].
  - by rewrite dict_set_keys_in.
  - rewrite (dict_set_new _ _ _ Hin), !fmap_app. apply NoDup_app.
    split; [done|]. split; [|apply NoDup_singleton].
    by intros x Hx ->%list_elem_of_singleton.
Qed.

Lemma lookup_key_dict_set k' k v d :
  NoDup (dict_key <$> d.*1) →
  lookup_key k' (dict_set k v d)
  = if same_key k' k then Some v else lookup_key k' d.
Proof.
  induction d as [|[k1 v1] d IH]; simpl; [done|].
  intros [Hk1 Hd]%NoDup_cons. destruct (same_key k k1) eqn:Hs; simpl.
  - rewrite (same_key_trans_l _ _ k' Hs).
    destruct (same_key k' k1) eqn:Hs'; [|done].
    assert (Hnone : lookup_key k' d = None).
    { apply lookup_key_absent. apply same_key_spec in Hs'. by rewrite Hs'. }
    by rewrite Hnone.
  - rewrite (IH Hd). destruct (same_key k' k) eqn:Hs'; [done|].
    by destruct (lookup_key k' d).
Qed.

Lemma dict_of_snoc ps p : dict_of (ps ++ [p]) = dict_set p.1 p.2 (dict_of ps).
Proof. unfold dict_of. by rewrite foldl_app. Qed.

Lemma dict_of_spec ps :
  NoDup (dict_key <$> (dict_of ps).*1) ∧
  (∀ k, lookup_key k (dict_of ps) = lookup_key k ps) ∧
  (NoDup (dict_key <$> ps.*1) → dict_of ps = ps).
Proof.
  induction ps as [|[k v] ps (Hnd & Hlook & Hsame)] using rev_ind.
  - split; [apply NoDup_nil_2|]. done.
  - rewrite dict_of_snoc. simpl. split; [by apply dict_set_NoDup|]. split.
    + intros k'. by rewrite lookup_key_dict_set, lookup_key_snoc, Hlook.
    + rewrite fmap_app, fmap_app. simpl. intros (Hps & Hk & _)%NoDup_app.
      rewrite (Hsame Hps). apply dict_set_new. intros Hin.
      apply (Hk _ Hin). apply elem_of_cons; by left.
Qed.

(** X6.  The comprehension of line 195 turns a list of well-formed
    entries into a dictionary.  No two of its items have the same key;
    every name reads the [default] of the last entry that has it, and a
    name no entry has reads nothing; and when the names of the entries
    are pairwise different, the items are the pairs of [name] and
    [default] of the entries, one for each entry and in the order of the
    manifest. *)
Theorem X6_submission_params_follow_the_manifest ps :
  forallb (λ p, hashable p.1) ps = true →
  ∃ params,
    submission_params_of (param_entry <$> ps) = Ok params ∧
    NoDup (dict_key <$> params.*1) ∧
    (∀ k, lookup_key k params = lookup_key k ps) ∧
    (NoDup (dict_key <$> ps.*1) → params = ps).
Proof.
  intros Hps. exists (dict_of ps). split; [|apply dict_of_spec].
  unfold submission_params_of. by rewrite (param_pairs_entries _ Hps).
Qed.

Lemma X6_submission_params_follow_the_manifest_witness :
  ∃ params,
    submission_params_of (param_entry <$> repeated_params) = Ok params ∧
    NoDup (dict_key <$> params.*1) ∧
    (∀ k, lookup_key k params = lookup_key k repeated_params) ∧
    (NoDup (dict_key <$> repeated_params.*1) → params = repeated_params).
Proof.
  apply (X6_submission_params_follow_the_manifest repeated_params).
  vm_compute. reflexivity.
Defined.

(** X7.  An entry of [submission_params] that has a [name] and no
    [default] makes the comprehension raise [KeyError: 'default'],
    however many well-formed entries come before or after it. *)
Theorem X7_entry_without_default_raises ps d name rest :
  forallb (λ p, hashable p.1) ps = true →
  d !! "name" = Some name →
  d !! "default" = None →
  submission_params_of ((param_entry <$> ps) ++ JDict d :: rest)
  = Raise (KeyError (JStr "default")).
Proof.
  intros Hps Hn Hd.
  assert (H : param_pairs ((param_entry <$> ps) ++ JDict d :: rest)
              = Raise (KeyError (JStr "default"))).
  { induction ps as [|[n v] ps IH].
    - simpl. by rewrite Hn, Hd.
    - simpl in Hps. apply andb_prop in Hps as [Hh Hps]. specialize (IH Hps).
      rewrite fmap_cons, <-app_comm_cons.
      cbn [param_pairs param_entry fst snd Py.getitem].
      rewrite lookup_insert_eq. cbn [mbind res_bind].
      rewrite lookup_insert_ne by done. rewrite lookup_insert_eq. cbn [mbind res_bind].
      rewrite IH. by destruct n. }
  unfold submission_params_of. by rewrite H.
Qed.

Lemma X7_entry_without_default_raises_witness :
  submission_params_of
    ((param_entry <$> [(JStr "deep_scan", JBool false)])
     ++ JDict {[ "name" := JStr "timeout" ]} :: [])
  = Raise (KeyError (JStr "default")).
Proof.
  apply (X7_entry_without_default_raises [(JStr "deep_scan", JBool false)]
           {[ "name" := JStr "timeout" ]} (JStr "timeout") []);
    reflexivity.
Defined.

(** X8.  With a manifest that parses to a mapping, well-formed submission
    parameters and a service class that accepts the config, loading the
    manifest returns the [heuristics] entry when asked for it and [None]
    otherwise; the service is built from the [config] entry, or from an
    empty config when the manifest has none, and the parameters are
    kept.  Whether the [Service] model accepts the manifest plays no part
    in this, and no file is written. *)
Theorem X8_manifest_configures_the_service
  E return_heuristics w text d items params cls svc :
  Fs.read (service_manifest_yml E) (fs w) = Some text →
  yaml_safe_load E text = Ok (JDict d) →
  Py.iter (default (JList []) (d !! "submission_params")) = Ok items →
  submission_params_of items = Ok params →
  self_service_class w = Some cls →
  cls (default (JDict ∅) (d !! "config")) = Ok svc →
  ∃ w', load_service_manifest E return_heuristics w
        = (Ok (if return_heuristics then default JNull (d !! "heuristics") else JNull),
           w') ∧
        self_service w' = Some svc ∧
        self_submission_params w' = Some params ∧
        fs w' = fs w.
Proof.
  intros Hread Hyaml Hiter Hparams Hcls Hsvc.
  assert (Hex : Fs.exists_ (service_manifest_yml E) (fs w) = true).
  { unfold Fs.exists_. apply read_get in Hread. by rewrite Hread. }
  set (core := delete "heuristics" (delete "tool_version" (delete "file_required" d))).
  assert (Hrm : ∃ w1, read_manifest E w
                      = (Ok (JDict core, default JNull (d !! "heuristics")), w1) ∧
                      fs w1 = fs w ∧ self_service_class w1 = self_service_class w).
  { unfold read_manifest. rewrite (bind_ok _ _ _ _ _ (fs_read_ok _ _ _ Hread)).
    unfold mbind, M_bind, lift, try_except. rewrite Hyaml. simpl. fold core.
    destruct (Service E (JDict core)); eauto. }
  destruct Hrm as (w1 & Hrm & Hfs1 & Hcls1).
  assert (Hconfig : (if Py.truthy (JDict core)
                     then default (JDict ∅) (core !! "config") else JDict ∅)
                    = default (JDict ∅) (d !! "config")).
  { unfold core. rewrite !lookup_delete_ne by done. simpl.
    destruct (size _) eqn:Hsz; [|done].
    apply map_size_empty_inv in Hsz.
    assert (Hc : core !! "config" = None) by (unfold core; by rewrite Hsz).
    unfold core in Hc. rewrite !lookup_delete_ne in Hc by done. by rewrite Hc. }
  assert (Hps : core !! "submission_params" = d !! "submission_params").
  { unfold core. by rewrite !lookup_delete_ne. }
  eexists. split.
  - unfold load_service_manifest.
    unfold mbind at 1, M_bind at 1, fs_query. rewrite Hex.
    rewrite (bind_ok _ _ _ _ _ Hrm). unfold configure_service.
    unfold mbind, M_bind, lift, update, mret, M_ret.
    destruct (Py.truthy (JDict core)); simpl in *;
      rewrite ?Hps, ?Hiter, ?Hparams; simpl;
      rewrite Hcls1, Hcls; rewrite Hconfig || rewrite <-Hconfig;
      rewrite Hsvc; reflexivity.
  - by simpl.
Qed.

Lemma X8_manifest_configures_the_service_witness :
  ∃ w', load_service_manifest E_rich true (set_service_class rich_class Demo.w0)
        = (Ok (if true then default JNull (rich_manifest !! "heuristics") else JNull),
           w') ∧
        self_service w' = Some (Demo.svc true) ∧
        self_submission_params w'
        = Some [(JStr "deep_scan", JBool false); (JStr "timeout", JInt 60)] ∧
        fs w' = fs (set_service_class rich_class Demo.w0).
Proof.
  apply (X8_manifest_configures_the_service E_rich true
           (set_service_class rich_class Demo.w0)
           "name: Demo" rich_manifest
           [param_entry (JStr "deep_scan", JBool false);
            param_entry (JStr "timeout", JInt 60)]
           [(JStr "deep_scan", JBool false); (JStr "timeout", JInt 60)]
           rich_class (Demo.svc true));
    [vm_compute; reflexivity | reflexivity | vm_compute; reflexivity
    |vm_compute; reflexivity | reflexivity | reflexivity].
Defined.

(** ** Validation of the result *)

Lemma for_each_log lvl lines w :
  for_each lines (log lvl) w
  = (Ok tt, mkWorld (fs w) (ticks w) (trace w ++ (EvLog lvl <$> lines))
              (self_service_class w) (self_service w)
              (self_submission_params w) (self_file_dir w)).
Proof.
  revert w. induction lines as [|l lines IH]; intros w; simpl.
  - unfold mret, M_ret. rewrite app_nil_r. by destruct w.
  - unfold mbind, M_bind, log, update. rewrite IH. simpl.
    by rewrite <-app_assoc.
Qed.

(** X9.  Once the result file can be read, the validation block never
    raises: whatever [json.load], the normalizer or the [Result] model do,
    [validate_result] returns normally, without touching a file and
    without calling the service. *)
Theorem X9_validation_is_never_fatal E result_json t w text :
  Fs.read result_json (fs w) = Some text →
  ∃ w', validate_result E result_json t w = (Ok tt, w') ∧
        fs w' = fs w ∧
        executed (trace w') = executed (trace w).
Proof.
  intros Hread.
  destruct (validate_result E result_json t w) as [r w'] eqn:H.
  destruct (quiet_validate_result _ _ _ _ _ _ H) as [Hfs Htr].
  exists w'. split; [|done]. f_equal.
  unfold validate_result in H. rewrite (bind_ok _ _ _ _ _ (fs_read_ok _ _ _ Hread)) in H.
  unfold try_except in H.
  match type of H with
  | match ?m w with _ => _ end = _ => destruct (m w) as [[[]|e] w1]
  end.
  - by simplify_eq.
  - unfold log, update in H. by simplify_eq.
Qed.

Lemma X9_validation_is_never_fatal_witness :
  ∃ w', validate_result Demo.E ["r.json"] Demo.the_task Demo.unknown_world = (Ok tt, w') ∧
        fs w' = fs Demo.unknown_world ∧
        executed (trace w') = executed (trace Demo.unknown_world).
Proof.
  apply (X9_validation_is_never_fatal Demo.E ["r.json"] Demo.the_task
           Demo.unknown_world "UNKNOWN").
  vm_compute; reflexivity.
Defined.

(** X10.  A result that parses, normalizes and passes the [Result] model
    is echoed to the log only in debug mode: one DEBUG record for each
    line of the pretty-printed result, in order, and nothing at all
    otherwise. *)
Theorem X10_valid_result_is_echoed_in_debug_mode
  E result_json t w text doc r1 w1 r2 :
  Fs.read result_json (fs w) = Some text →
  json_load E text = Ok doc →
  normalize_result E t doc w = (Ok r1, w1) →
  Result E r1 = Ok r2 →
  ∃ w', validate_result E result_json t w = (Ok tt, w') ∧
        trace w' = trace w ++ (if args_debug E then EvLog DEBUG <$> pformat E r2 else []).
Proof.
  intros Hread Hjson Hnorm Hres.
  assert (Htr : trace w1 = trace w).
  { revert Hnorm. unfold normalize_result. unfold mbind, M_bind, lift, now_as_iso, mret, M_ret.
    destruct (strip_result doc); [|done]. destruct (score_result _ _); [|done].
    simpl. repeat (match goal with |- context [Py.setitem ?a ?b ?c] =>
                     destruct (Py.setitem a b c) end; simpl; [|done]).
    by intros [= _ <-]. }
  exists (if args_debug E
          then mkWorld (fs w1) (ticks w1) (trace w1 ++ (EvLog DEBUG <$> pformat E r2))
                 (self_service_class w1) (self_service w1)
                 (self_submission_params w1) (self_file_dir w1)
          else w1).
  split.
  - unfold validate_result. rewrite (bind_ok _ _ _ _ _ (fs_read_ok _ _ _ Hread)).
    unfold try_except.
    erewrite bind_ok; [|unfold lift; by rewrite Hjson].
    rewrite (bind_ok _ _ _ _ _ Hnorm).
    erewrite bind_ok; [|unfold lift; by rewrite Hres].
    destruct (args_debug E); [by rewrite for_each_log|reflexivity].
  - destruct (args_debug E); simpl; [by rewrite Htr|]. by rewrite app_nil_r.
Qed.

Lemma X10_valid_result_is_echoed_in_debug_mode_witness :
  ∃ w', validate_result E_debug ["r.json"] Demo.the_task (result_world "RAW")
        = (Ok tt, w') ∧
        trace w' = trace (result_world "RAW")
                   ++ (if args_debug E_debug
                       then EvLog DEBUG <$> pformat E_debug Demo.normalized
                       else []).
Proof.
  apply (X10_valid_result_is_echoed_in_debug_mode E_debug ["r.json"] Demo.the_task
           (result_world "RAW") "RAW" Demo.raw_doc Demo.normalized
           (Demo.after (normalize_result E_debug Demo.the_task Demo.raw_doc)
                       (result_world "RAW")) Demo.normalized);
    vm_compute; reflexivity.
Defined.

(** X11.  A result file that [json.load] cannot parse is no reason to
    stop: the error is logged once, as "Invalid result created" with the
    text of the exception, and the validation returns. *)
Theorem X11_unparsable_result_is_logged E result_json t w text e :
  Fs.read result_json (fs w) = Some text →
  json_load E text = Raise e →
  validate_result E result_json t w
  = (Ok tt, add_event (EvLog ERROR ("Invalid result created: " +:+ exn_str e)) w).
Proof.
  intros Hread Hjson. unfold validate_result.
  rewrite (bind_ok _ _ _ _ _ (fs_read_ok _ _ _ Hread)).
  unfold try_except. erewrite bind_raise; [done|]. unfold lift. by rewrite Hjson.
Qed.

Lemma X11_unparsable_result_is_logged_witness :
  validate_result Demo.E ["r.json"] Demo.the_task (result_world "{")
  = (Ok tt,
     add_event (EvLog ERROR ("Invalid result created: "
                             +:+ exn_str (ValueError "JSONDecodeError")))
       (result_world "{")).
Proof.
  apply (X11_unparsable_result_is_logged Demo.E ["r.json"] Demo.the_task
           (result_world "{") "{" (ValueError "JSONDecodeError"));
    vm_compute; reflexivity.
Defined.

(** ** The workspace *)

Lemma makedirs_fresh d c r n :
  Fs.isdir d n = true → Fs.get (d ++ [c]) n = None →
  ∃ n', Fs.makedirs (d ++ c :: r) n = Some n' ∧
        Fs.get (d ++ [c]) n' = Some (Fs.mkchain r).
Proof.
  unfold Fs.isdir. revert n. induction d as [|e d IH]; intros n Hd Hc.
  - simpl in *. destruct n as [|es]; [done|].
    destruct (es !! c) eqn:Hec; [done|]. eexists. split; [done|].
    simpl. by rewrite lookup_insert_eq.
  - simpl in *. destruct n as [|es]; [done|].
    destruct (es !! e) as [m|] eqn:He; [|done].
    destruct (IH m Hd Hc) as (m' & -> & Hm'). eexists. split; [done|].
    simpl. by rewrite lookup_insert_eq.
Qed.

Lemma makedirs_through_file p c r n :
  Fs.isfile p n = true → Fs.makedirs (p ++ c :: r) n = None.
Proof.
  unfold Fs.isfile. revert n. induction p as [|e p IH]; intros n Hp.
  - simpl in *. by destruct n.
  - simpl in *. destruct n as [|es]; [done|].
    destruct (es !! e) as [m|]; [|done]. by rewrite (IH m Hp).
Qed.

(** X12.  Preparing the workspace wipes it: when the parent directory is
    there and the workspace path is not taken by a regular file, the
    workspace ends up holding an empty [working_directory] and nothing
    else, whatever it held before, and nothing outside it changes. *)
Theorem X12_workspace_is_wiped d c w :
  Fs.isdir d (fs w) = true →
  Fs.isfile (d ++ [c]) (fs w) = false →
  ∃ w', prepare_workspace (d ++ [c]) w = (Ok tt, w') ∧
        Fs.get (d ++ [c]) (fs w') = Some (Dir {[ "working_directory" := Dir ∅ ]}) ∧
        ∀ q, apart (d ++ [c]) q → Fs.get q (fs w') = Fs.get q (fs w).
Proof.
  intros Hd Hf. unfold prepare_workspace.
  unfold mbind at 1, M_bind at 1, fs_query.
  destruct (Fs.isdir (d ++ [c]) (fs w)) eqn:Hwd.
  - destruct (set_at_ok d c None (fs w) Hd) as [n1 Hn1].
    pose proof (set_at_above _ _ _ _ _ Hn1 ltac:(done)) as [_ Hd1].
    pose proof (set_at_same _ _ _ _ Hn1) as Hg1.
    destruct (makedirs_fresh d c ["working_directory"] n1 Hd1 Hg1) as (n2 & Hn2 & Hg2).
    exists (set_fs n2 (set_fs n1 w)). split; [|split].
    + erewrite bind_ok; [|apply fs_update_ok; unfold Fs.rmtree; by rewrite Hwd].
      unfold mbind at 1, M_bind at 1, fs_query. simpl.
      unfold Fs.isdir at 1. rewrite Hg1.
      apply fs_update_ok. simpl. by rewrite <-app_assoc.
    + done.
    + intros q Hq. simpl.
      rewrite (makedirs_other _ _ _ _ Hn2)
        by (rewrite (cons_middle c d), app_assoc; by apply apart_app_l).
      by rewrite (set_at_other _ _ _ _ _ Hn1).
  - assert (Hg : Fs.get (d ++ [c]) (fs w) = None).
    { unfold Fs.isdir, Fs.isfile in Hwd, Hf.
      by destruct (Fs.get (d ++ [c]) (fs w)) as [[]|]. }
    destruct (makedirs_fresh d c ["working_directory"] (fs w) Hd Hg) as (n2 & Hn2 & Hg2).
    exists (set_fs n2 w). split; [|split].
    + unfold mbind, M_bind, mret, M_ret, fs_query. rewrite Hwd.
      apply fs_update_ok. by rewrite <-app_assoc.
    + done.
    + intros q Hq. simpl.
      by rewrite (makedirs_other _ _ _ _ Hn2)
        by (rewrite (cons_middle c d), app_assoc; by apply apart_app_l).
Qed.

Lemma X12_workspace_is_wiped_witness :
  ∃ w', prepare_workspace (["data"] ++ ["sample.bin_demo"]) stale_world = (Ok tt, w') ∧
        Fs.get (["data"] ++ ["sample.bin_demo"]) (fs w')
        = Some (Dir {[ "working_directory" := Dir ∅ ]}) ∧
        ∀ q, apart (["data"] ++ ["sample.bin_demo"]) q →
             Fs.get q (fs w') = Fs.get q (fs stale_world).
Proof.
  apply (X12_workspace_is_wiped ["data"] "sample.bin_demo" stale_world);
    vm_compute; reflexivity.
Defined.

(** X13.  A regular file in the place of the workspace is fatal: the
    workspace cannot be made, the harness raises, and the file stays. *)
Theorem X13_file_in_place_of_workspace_is_fatal working_dir w :
  Fs.isfile working_dir (fs w) = true →
  prepare_workspace working_dir w = (Raise (OSError "makedirs"), w).
Proof.
  intros Hf. unfold prepare_workspace, mbind, M_bind, fs_query, mret, M_ret.
  assert (Hd : Fs.isdir working_dir (fs w) = false).
  { unfold Fs.isfile, Fs.isdir in *. by destruct (Fs.get _ _) as [[]|]. }
  rewrite Hd. cbv beta. rewrite Hd. unfold fs_update.
  by rewrite (makedirs_through_file working_dir "working_directory" [] (fs w) Hf).
Qed.

Lemma X13_file_in_place_of_workspace_is_fatal_witness :
  prepare_workspace ["data"; "sample.bin"] Demo.w0
  = (Raise (OSError "makedirs"), Demo.w0).
Proof.
  apply (X13_file_in_place_of_workspace_is_fatal ["data"; "sample.bin"] Demo.w0).
  vm_compute; reflexivity.
Defined.

(** ** What a run adds to the trace *)

Section Emits.

Variable ok : event → bool.

Lemma emits_same {A} (m : M A) :
  (∀ w r w', m w = (r, w') → trace w' = trace w) → emits ok m.
Proof. intros Hm w r w' H. exists []. by rewrite (Hm _ _ _ H), app_nil_r. Qed.

Lemma emits_ret {A} (a : A) : emits ok (mret a).
Proof. apply emits_same. intros w r w' H. unfold mret, M_ret in H. by simplify_eq. Qed.

Lemma emits_raise {A} e : emits ok (raise (A:=A) e).
Proof. apply emits_same. intros w r w' H. unfold raise in H. by simplify_eq. Qed.

Lemma emits_lift {A} (r : res A) : emits ok (lift r).
Proof. apply emits_same. intros w r' w' H. unfold lift in H. by simplify_eq. Qed.

Lemma emits_update f : (∀ w, trace (f w) = trace w) → emits ok (update f).
Proof.
  intros Hf. apply emits_same. intros w r w' H. unfold update in H. by simplify_eq.
Qed.

Lemma emits_log lvl msg : ok (EvLog lvl msg) = true → emits ok (log lvl msg).
Proof.
  intros Hok w r w' H. unfold log, update in H. simplify_eq.
  exists [EvLog lvl msg]. split; [done|]. simpl. by rewrite Hok.
Qed.

Lemma emits_fs_query {A} (f : node → A) : emits ok (fs_query f).
Proof. apply emits_same. intros w r w' H. unfold fs_query in H. by simplify_eq. Qed.

Lemma emits_fs_read p : emits ok (fs_read p).
Proof.
  apply emits_same. intros w r w' H. unfold fs_read in H.
  destruct (Fs.read p (fs w)); by simplify_eq.
Qed.

Lemma emits_fs_listdir p : emits ok (fs_listdir p).
Proof.
  apply emits_same. intros w r w' H. unfold fs_listdir in H.
  destruct (Fs.listdir p (fs w)); by simplify_eq.
Qed.

Lemma emits_fs_update what f : emits ok (fs_update what f).
Proof.
  apply emits_same. intros w r w' H. unfold fs_update in H.
  destruct (f (fs w)); by simplify_eq.
Qed.

Lemma emits_now E offset : emits ok (now_as_iso E offset).
Proof. apply emits_same. intros w r w' H. unfold now_as_iso in H. by simplify_eq. Qed.

Lemma emits_call e method : ok e = true → emits ok (call_service e method).
Proof.
  intros Hok w r w' H. unfold call_service in H.
  destruct (self_service w) as [svc|].
  - simpl in H. destruct (method svc (fs w)) as [r0 n]. simplify_eq.
    exists [e]. split; [done|]. simpl. by rewrite Hok.
  - simplify_eq. exists []. by rewrite app_nil_r.
Qed.

Lemma emits_bind {A B} (m : M A) (f : A → M B) :
  emits ok m → (∀ a, emits ok (f a)) → emits ok (m ≫= f).
Proof.
  intros Hm Hf w r w'. unfold mbind, M_bind.
  destruct (m w) as [[a|e] w1] eqn:H1; intros H.
  - destruct (Hm _ _ _ H1) as (l1 & E1 & Hl1).
    destruct (Hf _ _ _ _ H) as (l2 & E2 & Hl2).
    exists (l1 ++ l2). rewrite E2, E1, app_assoc, forallb_app, Hl1, Hl2. done.
  - simplify_eq. by eapply Hm.
Qed.

Lemma emits_try_except {A} (m : M A) (h : exn → M A) :
  emits ok m → (∀ e, emits ok (h e)) → emits ok (try_except m h).
Proof.
  intros Hm Hh w r w'. unfold try_except.
  destruct (m w) as [[a|e] w1] eqn:H1; intros H.
  - simplify_eq. by eapply Hm.
  - destruct (Hm _ _ _ H1) as (l1 & E1 & Hl1).
    destruct (Hh _ _ _ _ H) as (l2 & E2 & Hl2).
    exists (l1 ++ l2). rewrite E2, E1, app_assoc, forallb_app, Hl1, Hl2. done.
Qed.

Lemma emits_for_each {A} (l : list A) (body : A → M unit) :
  (∀ x, emits ok (body x)) → emits ok (for_each l body).
Proof.
  intros Hb. induction l as [|x l IH]; simpl.
  - apply emits_ret.
  - apply emits_bind; auto.
Qed.

End Emits.

Ltac emits_step :=
  first
    [ apply emits_bind; [|intros ?]
    | apply emits_try_except; [|intros ?]
    | apply emits_for_each; intros ?
    | apply emits_lift | apply emits_ret | apply emits_raise
    | apply emits_log; done
    | apply emits_call; done
    | apply emits_fs_query | apply emits_fs_read | apply emits_fs_listdir
    | apply emits_fs_update | apply emits_now
    | apply emits_update; done
    | match goal with
      | |- emits _ (if ?b then _ else _) => destruct b
      | |- emits _ (match ?x with _ => _ end) => destruct x
      end ].

Lemma emits_self_read {A} ok (f : world → res A) : emits ok (λ w, (f w, w)).
Proof. apply emits_same. intros w r w' H. by simplify_eq. Qed.

Lemma emits_load_service_manifest ok E b :
  (∀ lvl msg, ok (EvLog lvl msg) = true) → emits ok (load_service_manifest E b).
Proof.
  intros Hlog. unfold load_service_manifest, read_manifest, configure_service.
  repeat first [ emits_step | apply emits_log; apply Hlog | apply emits_self_read ].
Qed.

Lemma emits_identify_and_unwrap ok E :
  (∀ lvl msg, ok (EvLog lvl msg) = true) → emits ok (identify_and_unwrap E).
Proof.
  intros Hlog. unfold identify_and_unwrap.
  repeat first [ emits_step | apply emits_log; apply Hlog ].
Qed.

Lemma emits_prepare_workspace ok wd : emits ok (prepare_workspace wd).
Proof. unfold prepare_workspace. repeat emits_step. Qed.

Lemma emits_collect_staging ok E wd : emits ok (collect_staging E wd).
Proof. unfold collect_staging. repeat emits_step. Qed.

Lemma emits_validate_result ok E result_json t :
  (∀ lvl msg, ok (EvLog lvl msg) = true) → emits ok (validate_result E result_json t).
Proof.
  intros Hlog. unfold validate_result, normalize_result.
  repeat first [ emits_step | apply emits_log; apply Hlog ].
Qed.

Lemma emits_after_handle ok E wd t tf :
  (∀ lvl msg, ok (EvLog lvl msg) = true) → emits ok (after_handle E wd t tf).
Proof.
  intros Hlog. unfold after_handle.
  repeat first [ apply emits_collect_staging | apply emits_validate_result; exact Hlog
               | emits_step | apply emits_log; apply Hlog ].
Qed.

Lemma emits_run_task ok E :
  (∀ lvl msg, ok (EvLog lvl msg) = true) →
  ok EvStartService = true →
  (∀ params fi,
     ok (EvHandleTask (make_task E params fi (Fs.basename (FILE_PATH E)))) = true) →
  emits ok (run_task E).
Proof.
  intros Hlog Hstart Hhandle. unfold run_task.
  repeat first [ apply emits_load_service_manifest; exact Hlog
               | apply emits_identify_and_unwrap; exact Hlog
               | apply emits_prepare_workspace
               | apply emits_call; first [exact Hstart | apply Hhandle]
               | emits_step | apply emits_log; apply Hlog | apply emits_self_read ].
Qed.

Lemma emits_try_run ok E :
  (∀ lvl msg, ok (EvLog lvl msg) = true) →
  ok EvStartService = true →
  (∀ params fi,
     ok (EvHandleTask (make_task E params fi (Fs.basename (FILE_PATH E)))) = true) →
  emits ok (try_run E).
Proof.
  intros Hlog Hstart Hhandle. unfold try_run.
  apply emits_bind; [by apply emits_run_task|].
  intros [[[wd t] tf]|]; [by apply emits_after_handle | apply emits_ret].
Qed.

(** X14.  [try_run] never stops the service: whatever the run does, and
    whether it returns or raises, nothing it adds to the trace is a call
    of [stop_service].  The only caller of [stop_service] is
    [RunService.stop], which the main block does not call. *)
Theorem X14_a_run_never_stops_the_service E w r w' :
  try_run E w = (r, w') →
  ∃ evs, trace w' = trace w ++ evs ∧ forallb (λ e, negb (is_stop e)) evs = true.
Proof. intros H. by eapply (emits_try_run (λ e, negb (is_stop e))). Qed.

Lemma X14_a_run_never_stops_the_service_witness :
  ∃ evs, trace (Demo.after (try_run Demo.E) Demo.w0) = trace Demo.w0 ++ evs ∧
         forallb (λ e, negb (is_stop e)) evs = true.
Proof.
  apply (X14_a_run_never_stops_the_service Demo.E Demo.w0 (Ok tt)).
  apply (run_outcome (try_run Demo.E) Demo.w0). vm_compute; reflexivity.
Defined.

Lemma lower_ascii_idemp c : lower_ascii (lower_ascii c) = lower_ascii c.
Proof. by destruct c as [[] [] [] [] [] [] [] []]. Qed.

Lemma lower_idemp s : lower (lower s) = lower s.
Proof. induction s as [|c s IH]; simpl; [done|]. by rewrite lower_ascii_idemp, IH. Qed.

(** X26.  A run started from the command line hands the service only
    tasks of its own making: every [handle_task] in the trace, whether
    the run returned or raised, has a task whose service name is the
    lower-cased last component of the service path given on the command
    line, whose file name is the last component of the file path, and
    whose ttl and file limit are 3600 and 501; lower-casing that service
    name again, as the workspace name does, changes nothing.  The service
    is never stopped. *)
Theorem X26_command_line_run base service_path file_path debug disk r w' :
  main base service_path file_path debug disk = (r, w') →
  (EvStopService ∉ trace w') ∧
  ∀ t, EvHandleTask t ∈ trace w' →
       service_name t = lower (last_component service_path "") ∧
       lower (service_name t) = service_name t ∧
       filename t = Fs.basename file_path ∧
       ttl t = 3600 ∧ max_files t = 501.
Proof.
  unfold main. intros H.
  set (ok := λ e, match e with
                  | EvStopService => false
                  | EvHandleTask t =>
                      bool_decide
                        (service_name t = lower (last_component service_path "") ∧
                         filename t = Fs.basename file_path ∧
                         ttl t = 3600 ∧ max_files t = 501)
                  | _ => true
                  end).
  destruct (emits_try_run ok (main_env base service_path file_path debug)
              ltac:(done) ltac:(done)
              ltac:(intros; apply bool_decide_eq_true; done) _ _ _ H)
    as (evs & Htr & Hevs).
  simpl in Htr. rewrite Htr. rewrite forallb_forall in Hevs. split.
  - intros Hin. apply list_elem_of_In in Hin. by apply Hevs in Hin.
  - intros t Hin. apply list_elem_of_In in Hin. apply Hevs in Hin.
    apply bool_decide_eq_true in Hin as (Hn & Hf & Ht & Hm).
    rewrite Hn. split; [done|]. split; [apply lower_idemp|done].
Qed.

Lemma X26_command_line_run_witness :
  (EvStopService
   ∉ trace (Demo.after (try_run (main_env Demo.E "pkg.Demo" ["data"; "sample.bin"] false))
              (fresh (Demo.disk "abc" true)))) ∧
  ∀ t, EvHandleTask t
       ∈ trace (Demo.after
                  (try_run (main_env Demo.E "pkg.Demo" ["data"; "sample.bin"] false))
                  (fresh (Demo.disk "abc" true))) →
       service_name t = lower (last_component "pkg.Demo" "") ∧
       lower (service_name t) = service_name t ∧
       filename t = Fs.basename ["data"; "sample.bin"] ∧
       ttl t = 3600 ∧ max_files t = 501.
Proof.
  apply (X26_command_line_run Demo.E "pkg.Demo" ["data"; "sample.bin"] false
           (Demo.disk "abc" true) (Ok tt)).
  unfold main.
  apply (run_outcome (try_run (main_env Demo.E "pkg.Demo" ["data"; "sample.bin"] false))
           (fresh (Demo.disk "abc" true))).
  vm_compute; reflexivity.
Defined.

(** ** What a statement leaves of the attributes *)

Section Keeps.

Context {B : Type} (f : world → B).
Hypothesis Hfs : ∀ n w, f (set_fs n w) = f w.
Hypothesis Hev : ∀ e w, f (add_event e w) = f w.

Lemma keeps_ret {A} (a : A) : keeps f (mret a).
Proof. intros w r w' H. unfold mret, M_ret in H. by simplify_eq. Qed.

Lemma keeps_raise {A} e : keeps f (raise (A:=A) e).
Proof. intros w r w' H. unfold raise in H. by simplify_eq. Qed.

Lemma keeps_lift {A} (r : res A) : keeps f (lift r).
Proof. intros w r' w' H. unfold lift in H. by simplify_eq. Qed.

Lemma keeps_log lvl msg : keeps f (log lvl msg).
Proof. intros w r w' H. unfold log, update in H. simplify_eq. apply Hev. Qed.

Lemma keeps_fs_read p : keeps f (fs_read p).
Proof.
  intros w r w' H. unfold fs_read in H. destruct (Fs.read p (fs w)); by simplify_eq.
Qed.

Lemma keeps_fs_update what g : keeps f (fs_update what g).
Proof.
  intros w r w' H. unfold fs_update in H.
  destruct (g (fs w)); simplify_eq; [apply Hfs | done].
Qed.

Lemma keeps_call e method : keeps f (call_service e method).
Proof.
  intros w r w' H. unfold call_service in H.
  destruct (self_service w) as [svc|]; [|by simplify_eq].
  simpl in H. destruct (method svc (fs w)) as [r0 n]. simplify_eq.
  by rewrite Hfs, Hev.
Qed.

Lemma keeps_bind {A C} (m : M A) (k : A → M C) :
  keeps f m → (∀ a, keeps f (k a)) → keeps f (m ≫= k).
Proof.
  intros Hm Hk w r w'. unfold mbind, M_bind.
  destruct (m w) as [[a|e] w1] eqn:H1; intros H.
  - rewrite <-(Hm _ _ _ H1). by eapply Hk.
  - simplify_eq. by eapply Hm.
Qed.

Lemma keeps_identify_and_unwrap E : keeps f (identify_and_unwrap E).
Proof.
  unfold identify_and_unwrap.
  repeat first
    [ apply keeps_bind; [|intros ?]
    | apply keeps_fs_read | apply keeps_fs_update | apply keeps_lift
    | apply keeps_log | apply keeps_ret
    | match goal with |- keeps _ (if ?b then _ else _) => destruct b end ].
Qed.

End Keeps.

(** ** A run that reaches the service *)

Lemma call_service_inv e method w w' :
  call_service e method w = (Ok tt, w') →
  ∃ svc n, self_service w = Some svc ∧ method svc (fs w) = (Ok tt, n) ∧
           w' = set_fs n (add_event e w).
Proof.
  unfold call_service. destruct (self_service w) as [svc|]; [|done].
  simpl. destruct (method svc (fs w)) as [r n] eqn:Hm. intros H. simplify_eq.
  by exists svc, n.
Qed.

Lemma update_inv f w w' : update f w = (Ok tt, w') → w' = f w.
Proof. unfold update. intros H. by simplify_eq. Qed.

Lemma run_task_inv E w wd t tf w_h :
  run_task E w = (Ok (Some (wd, t, tf)), w_h) →
  ∃ cls j w_m w_s fi w_i w_p,
    load_module_by_path E (SERVICE_PATH E) = Ok cls ∧
    load_service_manifest E false (set_service_class cls w) = (Ok j, w_m) ∧
    Fs.isfile (FILE_PATH E) (fs w_m) = true ∧
    call_service EvStartService start_service
      (set_file_dir (Fs.dirname (FILE_PATH E)) w_m) = (Ok tt, w_s) ∧
    identify_and_unwrap E w_s = (Ok (fi, tf), w_i) ∧
    t = make_task E (default [] (self_submission_params w_i)) fi
          (Fs.basename (FILE_PATH E)) ∧
    wd = working_dir_of E (Fs.dirname (FILE_PATH E)) ∧
    prepare_workspace wd (add_event (EvLog INFO ("Starting task with SID: " +:+ sid t)) w_i)
    = (Ok tt, w_p) ∧
    call_service (EvHandleTask t) (λ svc, handle_task svc t) w_p = (Ok tt, w_h).
Proof.
  unfold run_task. intros H.
  apply bind_inv in H as (cls & w1 & Hcls & H).
  destruct (load_module_by_path E (SERVICE_PATH E)) as [c|e] eqn:Hload.
  2: { destruct (is_ValueError e); [by unfold raise in Hcls|].
       apply bind_inv in Hcls as ([] & w2 & _ & Hcls). by unfold raise in Hcls. }
  apply ret_inv in Hcls as [-> ->].
  apply bind_inv in H as ([] & w2 & ->%update_inv & H).
  apply bind_inv in H as (j & w_m & Hm & H).
  apply bind_inv in H as (found & w3 & [-> ->]%fs_query_inv & H).
  destruct (Fs.isfile (FILE_PATH E) (fs w_m)) eqn:Hfile.
  2: { apply bind_inv in H as ([] & w4 & _ & H). by apply ret_inv in H as [? _]. }
  apply bind_inv in H as ([] & w4 & ->%update_inv & H).
  apply bind_inv in H as ([] & w_s & Hs & H).
  apply bind_inv in H as ([fi tf'] & w_i & Hi & H).
  apply bind_inv in H as (params & w5 & Hp & H).
  injection Hp as <- <-.
  apply bind_inv in H as ([] & w6 & ->%update_inv & H).
  apply bind_inv in H as ([] & w_p & Hprep & H).
  apply bind_inv in H as ([] & w7 & Hh & H).
  apply ret_inv in H as [Heq ->]. injection Heq as <- <- <-.
  by exists cls, j, w_m, w_s, fi, w_i, w_p.
Qed.

(** ** The stages of a run *)

Lemma phase_logs E s evs : forallb is_log evs = true → phase E s evs s.
Proof.
  induction evs as [|ev evs IH]; simpl; [intros _; apply phase_done|].
  intros [Hev Hevs]%andb_prop. destruct ev; try done. by apply phase_log, IH.
Qed.

Lemma phase_app E s evs1 s1 evs2 s2 :
  phase E s evs1 s1 → phase E s1 evs2 s2 → phase E s (evs1 ++ evs2) s2.
Proof.
  intros H1 H2. induction H1; simpl; [done|..].
  - by apply phase_log, IHphase.
  - by apply phase_start, IHphase.
  - by apply phase_handle, IHphase.
Qed.

Lemma phase_handed E evs s' : phase E Handed evs s' → forallb is_log evs = true.
Proof.
  intros H. remember Handed as s eqn:Hs. induction H; subst; simpl; try done.
  by apply IHphase.
Qed.

Lemma phase_started E evs s' :
  phase E Started evs s' →
  forallb is_log evs = true ∨
  ∃ l2 l3 params fi,
    evs = l2 ++ EvHandleTask (make_task E params fi (Fs.basename (FILE_PATH E))) :: l3 ∧
    forallb is_log (l2 ++ l3) = true.
Proof.
  intros H. remember Started as s eqn:Hs. induction H; subst; try done.
  - by left.
  - destruct (IHphase eq_refl) as [Hl|(l2 & l3 & params & fi & -> & Hl)].
    + left. simpl. done.
    + right. by exists (EvLog lvl msg :: l2), l3, params, fi.
  - right. exists [], evs, params, fi. split; [done|]. simpl.
    by eapply phase_handed.
Qed.

Lemma phase_idle E evs s' :
  phase E Idle evs s' →
  forallb is_log evs = true ∨
  (∃ l1 l2, evs = l1 ++ EvStartService :: l2 ∧ forallb is_log (l1 ++ l2) = true) ∨
  (∃ l1 l2 l3 params fi,
     evs = l1 ++ EvStartService
              :: l2 ++ EvHandleTask (make_task E params fi (Fs.basename (FILE_PATH E)))
              :: l3 ∧
     forallb is_log (l1 ++ l2 ++ l3) = true).
Proof.
  intros H. remember Idle as s eqn:Hs. induction H; subst; try done.
  - by left.
  - destruct (IHphase eq_refl)
      as [Hl|[(l1 & l2 & -> & Hl)|(l1 & l2 & l3 & params & fi & -> & Hl)]].
    + by left.
    + right. left. by exists (EvLog lvl msg :: l1), l2.
    + right. right. by exists (EvLog lvl msg :: l1), l2, l3, params, fi.
  - destruct (phase_started _ _ _ H) as [Hl|(l2 & l3 & params & fi & -> & Hl)].
    + right. left. by exists [], evs.
    + right. right. by exists [], l2, l3, params, fi.
Qed.

Lemma staged_logs {A} E s (m : M A) : emits is_log m → staged E s m.
Proof.
  intros Hm w r w' H. destruct (Hm _ _ _ H) as (evs & Htr & Hevs).
  exists evs, s. split; [done|]. by apply phase_logs.
Qed.

Lemma staged_logs_bind {A B} E s (m : M A) (f : A → M B) :
  emits is_log m → (∀ a, staged E s (f a)) → staged E s (m ≫= f).
Proof.
  intros Hm Hf w r w'. unfold mbind, M_bind.
  destruct (m w) as [[a|e] w1] eqn:H1; intros H.
  - destruct (Hm _ _ _ H1) as (l1 & E1 & Hl1).
    destruct (Hf _ _ _ _ H) as (l2 & s' & E2 & Hl2).
    exists (l1 ++ l2), s'. rewrite E2, E1, app_assoc. split; [done|].
    eapply phase_app; [by apply phase_logs|done].
  - simplify_eq. by eapply (staged_logs E s m Hm).
Qed.

Lemma staged_bind_logs {A B} E s (m : M A) (f : A → M B) :
  staged E s m → (∀ a, emits is_log (f a)) → staged E s (m ≫= f).
Proof.
  intros Hm Hf w r w'. unfold mbind, M_bind.
  destruct (m w) as [[a|e] w1] eqn:H1; intros H.
  - destruct (Hm _ _ _ H1) as (l1 & s1 & E1 & Hl1).
    destruct (Hf _ _ _ _ H) as (l2 & E2 & Hl2).
    exists (l1 ++ l2), s1. rewrite E2, E1, app_assoc. split; [done|].
    eapply phase_app; [done|by apply phase_logs].
  - simplify_eq. by eapply Hm.
Qed.

(** A call into the service moves the run one stage on, whether the
    method returns or raises; without a service nothing is called. *)
Lemma staged_call_bind {B} E s s1 e method (f : unit → M B) :
  (∀ evs s', phase E s1 evs s' → phase E s (e :: evs) s') →
  (∀ a, staged E s1 (f a)) →
  staged E s (call_service e method ≫= f).
Proof.
  intros Hstep Hf w r w'. unfold mbind, M_bind, call_service.
  destruct (self_service w) as [svc|].
  - simpl. destruct (method svc (fs w)) as [[[]|e0] n] eqn:Hm; intros H.
    + destruct (Hf _ _ _ _ H) as (l2 & s' & E2 & Hl2).
      exists (e :: l2), s'. rewrite E2. simpl. rewrite <-app_assoc. split; [done|].
      by apply Hstep.
    + simplify_eq. exists [e], s1. split; [done|]. apply Hstep, phase_done.
  - intros H. simplify_eq. exists [], s. rewrite app_nil_r. split; [done|].
    apply phase_done.
Qed.

Lemma staged_run_task E : staged E Idle (run_task E).
Proof.
  unfold run_task.
  apply staged_logs_bind.
  { destruct (load_module_by_path E (SERVICE_PATH E)) as [c|e]; [apply emits_ret|].
    destruct (is_ValueError e); [apply emits_raise|].
    apply emits_bind; [by apply emits_log|intros ?; apply emits_raise]. }
  intros cls. apply staged_logs_bind; [by apply emits_update|]. intros [].
  apply staged_logs_bind; [by apply emits_load_service_manifest|]. intros j.
  apply staged_logs_bind; [apply emits_fs_query|]. intros found.
  destruct found.
  2: { apply staged_logs. apply emits_bind; [by apply emits_log|].
       intros ?. apply emits_ret. }
  apply staged_logs_bind; [by apply emits_update|]. intros [].
  apply (staged_call_bind E Idle Started); [intros evs s'; apply phase_start|].
  intros [].
  apply staged_logs_bind; [by apply emits_identify_and_unwrap|]. intros [fi tf].
  apply staged_logs_bind; [apply emits_self_read|]. intros params.
  apply staged_logs_bind; [by apply emits_log|]. intros [].
  apply staged_logs_bind; [apply emits_prepare_workspace|]. intros [].
  apply (staged_call_bind E Started Handed); [intros evs s'; apply phase_handle|].
  intros []. apply staged_logs, emits_ret.
Qed.

Lemma staged_try_run E : staged E Idle (try_run E).
Proof.
  unfold try_run. apply staged_bind_logs; [apply staged_run_task|].
  intros [[[wd t] tf]|]; [by apply emits_after_handle | apply emits_ret].
Qed.

(** X15.  Every run of [try_run], whether it returns or raises, and
    wherever it raises, deals with the service in one of three ways: it
    never reaches it; it calls [start_service], once; or it calls
    [start_service], once, and after it [handle_task], once, with a task
    of the harness's making.  Everything else the run adds to the trace
    is a log record.  A [handle_task] that raises is the third case. *)
Theorem X15_started_once_then_handed_one_task E w r w' :
  try_run E w = (r, w') →
  ∃ evs,
    trace w' = trace w ++ evs ∧
    (forallb is_log evs = true ∨
     (∃ l1 l2, evs = l1 ++ EvStartService :: l2 ∧ forallb is_log (l1 ++ l2) = true) ∨
     (∃ l1 l2 l3 params fi,
        evs = l1 ++ EvStartService
                 :: l2 ++ EvHandleTask
                            (make_task E params fi (Fs.basename (FILE_PATH E)))
                 :: l3 ∧
        forallb is_log (l1 ++ l2 ++ l3) = true)).
Proof.
  intros H. destruct (staged_try_run E _ _ _ H) as (evs & s' & Htr & Hph).
  exists evs. split; [done|]. by eapply phase_idle.
Qed.

Lemma X15_started_once_then_handed_one_task_witness :
  ∃ evs,
    trace (Demo.after (try_run E_failing) Demo.w0) = trace Demo.w0 ++ evs ∧
    (forallb is_log evs = true ∨
     (∃ l1 l2, evs = l1 ++ EvStartService :: l2 ∧ forallb is_log (l1 ++ l2) = true) ∨
     (∃ l1 l2 l3 params fi,
        evs = l1 ++ EvStartService
                 :: l2 ++ EvHandleTask
                            (make_task E_failing params fi
                               (Fs.basename (FILE_PATH E_failing)))
                 :: l3 ∧
        forallb is_log (l1 ++ l2 ++ l3) = true)).
Proof.
  apply (X15_started_once_then_handed_one_task E_failing Demo.w0
           (Raise (Exception "handle_task failed"))).
  apply (run_outcome (try_run E_failing) Demo.w0). vm_compute; reflexivity.
Defined.

Lemma load_service_manifest_params E b w j w' text d :
  load_service_manifest E b w = (Ok j, w') →
  Fs.read (service_manifest_yml E) (fs w) = Some text →
  yaml_safe_load E text = Ok (JDict d) →
  ∃ items params,
    Py.iter (default (JList []) (d !! "submission_params")) = Ok items ∧
    submission_params_of items = Ok params ∧
    self_submission_params w' = Some params.
Proof.
  unfold load_service_manifest. intros H Hread Hyaml.
  apply bind_inv in H as (present & w0 & [-> ->]%fs_query_inv & H).
  destruct (Fs.exists_ _ (fs w)); [|done].
  apply bind_inv in H as ([data h] & w1 & Hrm & H).
  assert (Hdata : data = manifest_core d).
  { unfold read_manifest in Hrm.
    apply bind_inv in Hrm as (text0 & w2 & [Ht ->]%fs_read_inv & Hrm).
    rewrite Hread in Ht. injection Ht as <-.
    apply bind_inv in Hrm as (d0 & w2 & [Hd ->]%lift_inv & Hrm).
    rewrite Hyaml in Hd. injection Hd as <-.
    apply bind_inv in Hrm as (h0 & w2 & [_ ->]%lift_inv & Hrm).
    apply bind_inv in Hrm as (d1 & w2 & [Hd1 ->]%lift_inv & Hrm).
    apply bind_inv in Hrm as (d2 & w2 & [Hd2 ->]%lift_inv & Hrm).
    apply bind_inv in Hrm as (d3 & w2 & [Hd3 ->]%lift_inv & Hrm).
    apply bind_inv in Hrm as ([] & w2 & _ & Hrm).
    apply ret_inv in Hrm as [Heq _]. injection Heq as <- _.
    simpl in Hd1. injection Hd1 as <-. simpl in Hd2. injection Hd2 as <-.
    simpl in Hd3. by injection Hd3 as <-. }
  subst data. unfold configure_service in H.
  apply bind_inv in H as (config & w2 & _ & H).
  apply bind_inv in H as (pj & w3 & [Hpj ->]%lift_inv & H).
  apply bind_inv in H as (items & w4 & [Hitems ->]%lift_inv & H).
  apply bind_inv in H as (params & w5 & [Hparams ->]%lift_inv & H).
  apply bind_inv in H as ([] & w6 & ->%update_inv & H).
  apply bind_inv in H as (cls & w7 & Hcls & H).
  apply bind_inv in H as (svc & w8 & [_ ->]%lift_inv & H).
  apply bind_inv in H as ([] & w9 & ->%update_inv & H).
  apply ret_inv in H as [_ ->].
  exists items, params. simpl in Hpj. injection Hpj as <-.
  rewrite !lookup_delete_ne in Hitems by done.
  split; [done|]. split; [done|].
  destruct (self_service_class _); by simplify_eq.
Qed.

Lemma identify_and_unwrap_target E w fi tf w' :
  identify_and_unwrap E w = (Ok (fi, tf), w') → tf = gettempdir E ++ [fi_sha256 fi].
Proof.
  unfold identify_and_unwrap. intros H.
  apply bind_inv in H as (data & w1 & _ & H).
  destruct (String.eqb _ _).
  - apply bind_inv in H as (? & w2 & _ & H).
    apply bind_inv in H as ([] & w3 & _ & H).
    apply bind_inv in H as (packed & w4 & _ & H).
    apply bind_inv in H as (unpacked & w5 & _ & H).
    apply bind_inv in H as ([] & w6 & _ & H).
    apply bind_inv in H as (data2 & w7 & _ & H).
    apply bind_inv in H as ([] & w8 & _ & H).
    apply bind_inv in H as ([] & w9 & _ & H).
    apply ret_inv in H as [Heq _]. by simplify_eq.
  - apply bind_inv in H as ([] & w2 & _ & H).
    apply ret_inv in H as [Heq _]. by simplify_eq.
Qed.

(** X16.  The task a run hands to the service describes the run: its
    sid is the random id, its service name the configured one, its file
    name the last component of the input path; [max_files] is 501 and the
    ttl 3600; the file it names by its sha256 is the canonical file under
    the temp directory; the workspace is named after the file and the
    lower-cased service; and its [service_config] is what the
    [submission_params] of the manifest give, each name with its
    default. *)
Theorem X16_the_task_describes_the_run E w wd t tf w_h text d :
  run_task E w = (Ok (Some (wd, t, tf)), w_h) →
  Fs.read (service_manifest_yml E) (fs w) = Some text →
  yaml_safe_load E text = Ok (JDict d) →
  sid t = get_random_id E ∧ service_name t = SERVICE_NAME E ∧
  filename t = Fs.basename (FILE_PATH E) ∧ max_files t = 501 ∧ ttl t = 3600 ∧
  tf = gettempdir E ++ [fi_sha256 (fileinfo t)] ∧
  wd = Fs.dirname (FILE_PATH E) ++ [filename t +:+ "_" +:+ lower (service_name t)] ∧
  ∃ items, Py.iter (default (JList []) (d !! "submission_params")) = Ok items ∧
           submission_params_of items = Ok (service_config t).
Proof.
  intros Hrun Hread Hyaml.
  apply run_task_inv in Hrun
    as (cls & j & w_m & w_s & fi & w_i & w_p & _ & Hm & _ & Hs & Hi & -> & -> & _ & _).
  destruct (load_service_manifest_params _ _ _ _ _ _ _ Hm Hread Hyaml)
    as (items & params & Hitems & Hparams & Hsp).
  pose proof (keeps_identify_and_unwrap self_submission_params
                ltac:(done) ltac:(done) E _ _ _ Hi) as Hk1.
  pose proof (keeps_call self_submission_params ltac:(done) ltac:(done)
                _ _ _ _ _ Hs) as Hk2.
  simpl in Hk2. rewrite Hk1, Hk2, Hsp. simpl.
  repeat split; try done.
  - by apply identify_and_unwrap_target in Hi.
  - by exists items.
Qed.

Lemma X16_the_task_describes_the_run_witness :
  sid rich_task = get_random_id E_rich ∧ service_name rich_task = SERVICE_NAME E_rich ∧
  filename rich_task = Fs.basename (FILE_PATH E_rich) ∧
  max_files rich_task = 501 ∧ ttl rich_task = 3600 ∧
  Demo.target = gettempdir E_rich ++ [fi_sha256 (fileinfo rich_task)] ∧
  Demo.workspace
  = Fs.dirname (FILE_PATH E_rich)
    ++ [filename rich_task +:+ "_" +:+ lower (service_name rich_task)] ∧
  ∃ items, Py.iter (default (JList []) (rich_manifest !! "submission_params"))
           = Ok items ∧
           submission_params_of items = Ok (service_config rich_task).
Proof.
  apply (X16_the_task_describes_the_run E_rich Demo.w0 Demo.workspace rich_task
           Demo.target (Demo.after (run_task E_rich) Demo.w0) "name: Demo"
           rich_manifest);
    [apply (run_outcome (run_task E_rich) Demo.w0)| |];
    vm_compute; reflexivity.
Defined.

(** X17.  A service module that cannot be imported ends the run before
    anything else happens: the exception of [load_module_by_path] is
    raised again as it is.  A [ValueError] passes in silence; any other
    exception is first logged, once, as "Could not find service in
    path".  No file is touched and no attribute is set. *)
Theorem X17_unloadable_module_is_fatal E w e :
  load_module_by_path E (SERVICE_PATH E) = Raise e →
  try_run E w
  = (Raise e,
     if is_ValueError e then w
     else add_event
            (EvLog ERROR "Could not find service in path. Check your environment variables.")
            w).
Proof.
  intros Hload. unfold try_run, run_task. rewrite Hload.
  unfold mbind, M_bind, raise, log, update. by destruct (is_ValueError e).
Qed.

Lemma X17_unloadable_module_is_fatal_witness :
  try_run (E_unloadable (Exception "ModuleNotFoundError")) Demo.w0
  = (Raise (Exception "ModuleNotFoundError"),
     if is_ValueError (Exception "ModuleNotFoundError") then Demo.w0
     else add_event
            (EvLog ERROR "Could not find service in path. Check your environment variables.")
            Demo.w0).
Proof.
  apply (X17_unloadable_module_is_fatal (E_unloadable (Exception "ModuleNotFoundError"))
           Demo.w0 (Exception "ModuleNotFoundError")).
  vm_compute; reflexivity.
Defined.

(** ** What a completed run leaves in the temp directory *)

Lemma set_at_none_gone p n n' q :
  Fs.set_at p None n = Some n' → Fs.get q n = None → Fs.get q n' = None.
Proof.
  intros H Hq. destruct (related p q) eqn:Hr.
  - apply related_cases in Hr as [[r ->]|[r ->]].
    + by rewrite get_app, (set_at_same _ _ _ _ H).
    + destruct r as [|c r].
      * rewrite app_nil_r in H. by apply set_at_same in H.
      * apply set_at_above in H as [H _]; [|done].
        unfold Fs.isdir in H. by rewrite Hq in H.
  - by rewrite (set_at_other _ _ _ _ _ H Hr).
Qed.

(** X18.  A run that completes cleans up after itself in the temp
    directory: the canonical copy of the input, the staging directory
    and the result file the service wrote are all gone; the result is in
    the workspace.  The workspace is assumed not to be nested with the
    temp entries, and the service not to have made a directory called
    [result.json]. *)
Theorem X18_completed_run_cleans_the_temp_directory E w wd t tf w_h w' :
  run_task E w = (Ok (Some (wd, t, tf)), w_h) →
  try_run E w = (Ok tt, w') →
  apart (wd ++ ["working_directory"]) (result_json_of E t) →
  apart (wd ++ ["result.json"]) (staging_dir E) →
  apart (wd ++ ["result.json"]) (result_json_of E t) →
  apart (wd ++ ["result.json"]) tf →
  Fs.isdir (wd ++ ["result.json"]) (fs w_h) = false →
  Fs.get tf (fs w') = None ∧
  Fs.get (staging_dir E) (fs w') = None ∧
  Fs.get (result_json_of E t) (fs w') = None ∧
  Fs.isfile (wd ++ ["result.json"]) (fs w') = true.
Proof.
  intros Hrun Htry Hart Hdst Hdq Hdtf Hnd.
  rewrite (try_run_unfold _ _ _ _ Hrun) in Htry.
  destruct (after_handle_persists_raw _ _ _ _ _ _ Htry Hart Hdst Hnd)
    as (raw & _ & Hraw').
  apply after_handle_inv in Htry
    as (w_c & w_v & n_u & n_f & Hc & Hex & Hv & Hu & Hm & Hw').
  rewrite Hw' in *. clear Hw'.
  set (q := result_json_of E t) in *. set (dst := wd ++ ["result.json"]) in *.
  pose proof (quiet_validate_result _ _ _ _ _ _ Hv) as [Hfs _].
  rewrite Hfs in Hu. clear Hfs Hv w_v.
  assert (Hqs : apart q (staging_dir E)).
  { unfold apart. destruct (related q (staging_dir E)) eqn:Hr; [|done].
    apply result_json_vs_staging in Hr. unfold Fs.exists_ in Hex.
    fold q in Hr. by rewrite Hr, (collect_staging_gone _ _ _ _ Hc) in Hex. }
  assert (Hd : Fs.isdir dst (fs w_c) = false).
  { unfold Fs.isdir. rewrite (collect_staging_frame _ _ _ _ dst Hc Hdst); [done|].
    by apply apart_siblings. }
  unfold Fs.unlink in Hu. destruct (Fs.isfile tf (fs w_c)) eqn:Htf; [|done].
  assert (Hd' : Fs.isdir dst n_u = false).
  { destruct (Fs.isdir dst n_u) eqn:Hd'; [|done].
    by rewrite (set_at_none_isdir _ _ _ _ Hu Hd') in Hd. }
  pose proof (set_at_same _ _ _ _ Hu) as Htf_gone.
  pose proof (set_at_none_gone _ _ _ _ Hu (collect_staging_gone _ _ _ _ Hc)) as Hst_gone.
  pose proof Hm as Hm'. apply move_onto in Hm' as (x & _ & _ & Hsrc); [|done].
  unfold Fs.move in Hm. rewrite Hd' in Hm.
  apply rename_spec in Hm as (x' & n1 & _ & _ & H1 & H2);
    [|intros Heq; apply (apart_ne _ _ Hdq); by rewrite Heq].
  split; [|split; [|split]].
  - simpl. rewrite (set_at_other _ _ _ _ _ H2 Hdtf).
    by apply (set_at_none_gone _ _ _ _ H1).
  - simpl. rewrite (set_at_other _ _ _ _ _ H2 Hdst).
    by apply (set_at_none_gone _ _ _ _ H1).
  - apply Hsrc. intros Heq. apply (apart_ne _ _ Hdq). by rewrite Heq.
  - unfold Fs.isfile. apply read_get in Hraw'. by rewrite Hraw'.
Qed.

Lemma X18_completed_run_cleans_the_temp_directory_witness :
  Fs.get Demo.target (fs (Demo.after (try_run Demo.E) Demo.w0)) = None ∧
  Fs.get (staging_dir Demo.E) (fs (Demo.after (try_run Demo.E) Demo.w0)) = None ∧
  Fs.get (result_json_of Demo.E Demo.the_task)
         (fs (Demo.after (try_run Demo.E) Demo.w0)) = None ∧
  Fs.isfile (Demo.workspace ++ ["result.json"])
            (fs (Demo.after (try_run Demo.E) Demo.w0)) = true.
Proof.
  apply (X18_completed_run_cleans_the_temp_directory Demo.E Demo.w0 Demo.workspace
           Demo.the_task Demo.target (Demo.handled Demo.E));
    [apply (run_outcome (run_task Demo.E) Demo.w0)
    |apply (run_outcome (try_run Demo.E) Demo.w0)
    | | | | |];
    vm_compute; reflexivity.
Defined.

(** ** The batch regeneration utility *)

Lemma check_required_first environ before v after :
  Forall (λ x, is_Some (environ !! x)) before → environ !! v = None →
  Regen.check_required environ (before ++ v :: after)
  = Some ("[E] You must set " +:+ v +:+ " environement variable.").
Proof.
  intros Hb Hv. induction Hb as [|x before [y Hy] _ IH]; simpl.
  - by rewrite Hv.
  - by rewrite Hy.
Qed.

Lemma check_required_none environ vars :
  Forall (λ x, is_Some (environ !! x)) vars → Regen.check_required environ vars = None.
Proof. intros H. induction H as [|x vars [y Hy] _ IH]; simpl; [done|]. by rewrite Hy. Qed.

Lemma warn_optional_filter environ vars :
  Regen.warn_optional environ vars
  = (λ v, "[W] " +:+ v +:+ " environement variable is not set, it should probably be...")
    <$> List.filter (λ v, bool_decide (environ !! v = None)) vars.
Proof.
  induction vars as [|v vars IH]; simpl; [done|].
  destruct (environ !! v) eqn:Hv.
  - by rewrite bool_decide_false.
  - rewrite bool_decide_true by done. simpl. by rewrite IH.
Qed.

(** X19.  A required variable that is not set ends the regeneration at
    once: one line is printed, naming the first of the required variables
    that is missing, in the order of [required_env], and the process
    exits with code 1.  The service module is not loaded and the test
    helper is not called, whatever the other variables are. *)
Theorem X19_missing_required_variable_exits {C} environ (load : string → res C)
  before v after :
  Regen.required_env = before ++ v :: after →
  Forall (λ x, is_Some (environ !! x)) before →
  environ !! v = None →
  Regen.run environ load
  = (["[E] You must set " +:+ v +:+ " environement variable."], Regen.SysExit 1).
Proof.
  intros Hvars Hb Hv. unfold Regen.run.
  by rewrite Hvars, (check_required_first _ _ _ _ Hb Hv).
Qed.

Lemma X19_missing_required_variable_exits_witness :
  Regen.run (C:=unit) regen_partial (λ _, Ok tt)
  = (["[E] You must set " +:+ "SERVICE_TESTING_RESULT_FOLDER"
      +:+ " environement variable."], Regen.SysExit 1).
Proof.
  apply (X19_missing_required_variable_exits regen_partial (λ _, Ok tt)
           ["SERVICE_MANIFEST_PATH"] "SERVICE_TESTING_RESULT_FOLDER" ["SERVICE_PATH"]).
  - reflexivity.
  - apply Forall_singleton. exists "service_manifest.yml". vm_compute. reflexivity.
  - vm_compute. reflexivity.
Defined.

(** X20.  With the three required variables set, the environment cannot
    make the regeneration fail: the two subscripts of [os.environ] at
    lines 32-33 find their keys, one warning is printed for each optional
    variable that is not set, in the order of [optional_env], and the
    run ends in the exception of [load_module_by_path], if it raises, or
    in the call of the test helper with the loaded class, the result
    folder and the extra folder. *)
Theorem X20_required_variables_suffice {C} environ (load : string → res C) :
  Forall (λ x, is_Some (environ !! x)) Regen.required_env →
  ∃ service_path result_folder,
    environ !! "SERVICE_PATH" = Some service_path ∧
    environ !! "SERVICE_TESTING_RESULT_FOLDER" = Some result_folder ∧
    Regen.run environ load
    = ((λ v, "[W] " +:+ v +:+ " environement variable is not set, it should probably be...")
       <$> List.filter (λ v, bool_decide (environ !! v = None)) Regen.optional_env,
       match load service_path with
       | Ok service_class =>
           Regen.Helper service_class result_folder (Regen.extra_folder_of environ)
       | Raise e => Regen.Failed e
       end).
Proof.
  intros Hreq. pose proof Hreq as Hall.
  unfold Regen.required_env in Hall.
  apply Forall_cons in Hall as [_ Hall].
  apply Forall_cons in Hall as [[rf Hrf] Hall].
  apply Forall_cons in Hall as [[sp Hsp] _].
  exists sp, rf. split; [done|]. split; [done|].
  unfold Regen.run. rewrite (check_required_none _ _ Hreq), warn_optional_filter.
  f_equal. unfold Regen.environ_getitem. rewrite Hsp, Hrf. simpl.
  by destruct (load sp).
Qed.

Lemma X20_required_variables_suffice_witness :
  ∃ service_path result_folder,
    regen_full !! "SERVICE_PATH" = Some service_path ∧
    regen_full !! "SERVICE_TESTING_RESULT_FOLDER" = Some result_folder ∧
    Regen.run regen_full (λ p, Ok p)
    = ((λ v, "[W] " +:+ v +:+ " environement variable is not set, it should probably be...")
       <$> List.filter (λ v, bool_decide (regen_full !! v = None)) Regen.optional_env,
       match (λ p : string, Ok p) service_path with
       | Ok service_class =>
           Regen.Helper service_class result_folder (Regen.extra_folder_of regen_full)
       | Raise e => Regen.Failed e
       end).
Proof.
  apply (X20_required_variables_suffice regen_full (λ p, Ok p)).
  repeat (apply Forall_cons; split; [eexists; vm_compute; reflexivity|]).
  apply Forall_nil_2.
Defined.

(** ** Trees and their walk *)

Lemma node_size_lookup es k m :
  es !! k = Some m → (node_size m < node_size (Dir es))%nat.
Proof.
  intros H. simpl.
  rewrite (map_fold_delete_L _ _ k m es) by (intros; lia || done). lia.
Qed.

Lemma node_ind' (P : node → Prop) :
  (∀ d, P (File d)) → (∀ es, map_Forall (λ _, P) es → P (Dir es)) → ∀ n, P n.
Proof.
  intros Hf Hd n. remember (node_size n) as k eqn:Hk. revert n Hk.
  induction (lt_wf k) as [k _ IH]. intros [d|es] ->; [apply Hf|].
  apply Hd. intros i m Him. eapply IH; [|done]. by eapply node_size_lookup.
Qed.

Lemma walk_fold_elem top es x :
  x ∈ map_fold (λ name m acc, Updater.walk (top ++ [name]) m ++ acc) [] es ↔
  ∃ name m, es !! name = Some m ∧ x ∈ Updater.walk (top ++ [name]) m.
Proof.
  apply (map_fold_weak_ind
           (λ r es, x ∈ r ↔
                    ∃ name m, es !! name = Some m ∧ x ∈ Updater.walk (top ++ [name]) m)).
  - split; [by intros ?%elem_of_nil|]. intros (name & m & H & _).
    by rewrite lookup_empty in H.
  - intros i y m r Hi IH. rewrite elem_of_app, IH. split.
    + intros [H | (name & mm & H1 & H2)].
      * exists i, y. by rewrite lookup_insert_eq.
      * exists name, mm. rewrite lookup_insert_ne; [done|]. intros ->. congruence.
    + intros (name & mm & H1 & H2). destruct (decide (i = name)) as [->|Hne].
      * rewrite lookup_insert_eq in H1. simplify_eq. by left.
      * rewrite lookup_insert_ne in H1 by done. right. eauto.
Qed.

Lemma walk_spec n top d subs files :
  (d, subs, files) ∈ Updater.walk top n ↔
  ∃ r es, d = top ++ r ∧ Fs.get r n = Some (Dir es) ∧
          subs = (List.filter (λ e, negb (Updater.is_file_node e.2))
                    (map_to_list es)).*1 ∧
          files = (List.filter (λ e, Updater.is_file_node e.2) (map_to_list es)).*1.
Proof.
  revert top. induction n as [data|es IH] using node_ind'; intros top.
  - simpl. split; [by intros ?%elem_of_nil|].
    intros (r & es & _ & H & _). by destruct r.
  - simpl. rewrite elem_of_cons, walk_fold_elem. split.
    + intros [Heq | (name & m & Hm & Hx)].
      * simplify_eq. exists [], es. by rewrite app_nil_r.
      * apply (IH _ _ Hm) in Hx as (r & es' & -> & Hr & -> & ->).
        exists (name :: r), es'. rewrite <-app_assoc. simpl. by rewrite Hm.
    + intros (r & es' & -> & Hr & -> & ->). destruct r as [|name r].
      * simpl in Hr. simplify_eq. left. by rewrite app_nil_r.
      * simpl in Hr. destruct (es !! name) as [m|] eqn:Hm; [|done].
        right. exists name, m. split; [done|]. apply (IH _ _ Hm).
        exists r, es'. by rewrite <-app_assoc.
Qed.

Lemma file_names_elem es f :
  f ∈ (List.filter (λ e : string * node, Updater.is_file_node e.2) (map_to_list es)).*1 ↔
  ∃ data, es !! f = Some (File data).
Proof.
  rewrite list_elem_of_fmap. split.
  - intros ([k m] & -> & H). apply list_elem_of_In, filter_In in H as [H Hm].
    apply list_elem_of_In, elem_of_map_to_list in H. simpl in *.
    destruct m as [data|]; [|done]. by exists data.
  - intros [data H]. exists (f, File data). split; [done|].
    apply list_elem_of_In, filter_In. split; [|done].
    by apply list_elem_of_In, elem_of_map_to_list.
Qed.

Lemma walk_files_spec top n p :
  p ∈ Updater.walk_files (Updater.walk top n) ↔
  ∃ r f data, p = top ++ r ++ [f] ∧ Fs.get (r ++ [f]) n = Some (File data).
Proof.
  unfold Updater.walk_files. rewrite list_elem_of_bind. split.
  - intros ([[d subs] files] & Hp & Hw).
    apply list_elem_of_fmap in Hp as (f & -> & Hf).
    apply walk_spec in Hw as (r & es & -> & Hr & _ & ->).
    apply file_names_elem in Hf as [data Hf].
    exists r, f, data. rewrite <-app_assoc. split; [done|].
    rewrite get_app, Hr. simpl. by rewrite Hf.
  - intros (r & f & data & -> & Hg). rewrite get_app in Hg.
    destruct (Fs.get r n) as [[|es]|] eqn:Hr; try done.
    simpl in Hg. destruct (es !! f) as [m|] eqn:Hf; [|done]. simplify_eq.
    eexists (top ++ r, _, _). split.
    + apply list_elem_of_fmap. exists f. rewrite <-app_assoc. split; [done|].
      apply file_names_elem. eauto.
    + apply walk_spec. by exists r, es.
Qed.

(** ** The update distribution service *)

(** X21.  A listing names the regular files below the directory, at any
    depth, and nothing else: a path is listed exactly when it leads from
    the directory, by at least one step, to a regular file of the disk.
    No directory is listed, and a directory that does not exist lists
    nothing. *)
Theorem X21_listing_is_the_files_below S top p :
  p ∈ Updater.walk_files (Updater.os_walk S top) ↔
  ∃ r data, r ≠ [] ∧ p = top ++ r ∧ Fs.get p (Updater.disk S) = Some (File data).
Proof.
  unfold Updater.os_walk. split.
  - destruct (Fs.get top (Updater.disk S)) as [n|] eqn:Htop;
      [|by intros ?%elem_of_nil].
    intros (r & f & data & -> & Hg)%walk_files_spec.
    exists (r ++ [f]), data. split; [by destruct r|]. split; [done|].
    by rewrite get_app, Htop.
  - intros (r & data & Hr & -> & Hg). rewrite get_app in Hg.
    destruct (Fs.get top (Updater.disk S)) as [n|]; [|done]. simpl in Hg.
    destruct (exists_last Hr) as (r0 & f & ->).
    apply walk_files_spec. by exists r0, f, data.
Qed.

Lemma checked_inv S check j s :
  Updater.checked S check j = Ok s →
  j = JStr s ∧ check (Updater.as_path S s) (Updater.disk S) = true.
Proof.
  unfold Updater.checked. destruct j as [| | |s0| |]; try done.
  destruct (check _ _) eqn:Hc; [|done]. intros H. by simplify_eq.
Qed.

Lemma get_paths_inv S st dir tar st' :
  Updater.get_paths S st = (Updater.Returned (dir, tar), st') →
  (∃ request body,
     Updater.status_service S = Ok request ∧ Updater.status_ok request = true ∧
     Updater.json_body request = Ok body ∧
     Py.getitem body "_directory" = Ok (JStr dir) ∧
     Py.getitem body "_tar" = Ok (JStr tar)) ∧
  Fs.isdir (Updater.as_path S dir) (Updater.disk S) = true ∧
  Fs.isfile (Updater.as_path S tar) (Updater.disk S) = true ∧
  st' = Updater.mkState (Datatypes.S (Updater.status_requests st)) (Updater.warnings st).
Proof.
  unfold Updater.get_paths, Updater.get_paths_body, Updater.fetch_status.
  destruct (Updater.status_service S) as [request|] eqn:Hreq; [|done]. simpl.
  destruct (Updater.status_ok request) eqn:Hok; [|done]. simpl.
  destruct (Updater.json_body request) as [body|] eqn:Hbody; [|done]. simpl.
  destruct (Py.getitem body "_directory") as [jd|] eqn:Hjd; [|done]. simpl.
  destruct (Py.getitem body "_tar") as [jt|] eqn:Hjt; [|done]. simpl.
  destruct (Updater.checked S Fs.isdir jd) as [d|] eqn:Hd; [|done]. simpl.
  destruct (Updater.checked S Fs.isfile jt) as [t|] eqn:Ht; [|done]. simpl.
  intros H. simplify_eq.
  apply checked_inv in Hd as [-> Hd]. apply checked_inv in Ht as [-> Ht].
  split; [by exists request, body|]. done.
Qed.

Lemma get_paths_aborted S st e st' :
  Updater.get_paths S st = (Updater.Aborted e, st') →
  e = Updater.ServiceUnavailable "No update ready" ∧
  st' = Updater.mkState (Datatypes.S (Updater.status_requests st)) (Updater.warnings st).
Proof.
  unfold Updater.get_paths. destruct (Updater.get_paths_body S); intros H; by simplify_eq.
Qed.

Lemma protected_refuses S name v environ st :
  v ∈ Updater.protected S name →
  environ !! "HTTP_X_APIKEY" ≠ Some (Updater.AUTH_KEY S) →
  v environ st
  = (Updater.Aborted (Updater.Unauthorized "Unauthorized access denied"),
     Updater.mkState (Updater.status_requests st)
       (Updater.warnings st
        ++ ["Client provided wrong api key ["
            +:+ default "None" (environ !! "HTTP_X_APIKEY") +:+ "]"])).
Proof.
  intros Hv Hkey. unfold Updater.protected in Hv.
  repeat (apply elem_of_cons in Hv as [->|Hv]);
    [| | |by apply elem_of_nil in Hv];
    unfold Updater.list_files, Updater.get_file, Updater.get_all_files,
      Updater.api_login; by rewrite decide_False.
Qed.

(** X22.  The three views behind [api_login] answer to the key only: a
    request whose [X-APIKEY] header is missing or differs from the key of
    the process is refused with [Unauthorized], before the update daemon
    is asked anything, and leaves one warning that quotes what the client
    sent. *)
Theorem X22_protected_views_need_the_key S name v environ st :
  v ∈ Updater.protected S name →
  environ !! "HTTP_X_APIKEY" ≠ Some (Updater.AUTH_KEY S) →
  v environ st
  = (Updater.Aborted (Updater.Unauthorized "Unauthorized access denied"),
     Updater.mkState (Updater.status_requests st)
       (Updater.warnings st
        ++ ["Client provided wrong api key ["
            +:+ default "None" (environ !! "HTTP_X_APIKEY") +:+ "]"])).
Proof. apply protected_refuses. Qed.

Lemma X22_protected_views_need_the_key_witness :
  Updater.get_all_files (update_server "s3cret") {[ "HTTP_X_APIKEY" := "guess" ]} idle
  = (Updater.Aborted (Updater.Unauthorized "Unauthorized access denied"),
     Updater.mkState (Updater.status_requests idle)
       (Updater.warnings idle
        ++ ["Client provided wrong api key ["
            +:+ default "None"
                  (({[ "HTTP_X_APIKEY" := "guess" ]} : gmap string string)
                   !! "HTTP_X_APIKEY") +:+ "]"])).
Proof.
  apply (X22_protected_views_need_the_key (update_server "s3cret") "a.yar"
           (Updater.get_all_files (update_server "s3cret"))
           {[ "HTTP_X_APIKEY" := "guess" ]} idle).
  - unfold Updater.protected. apply elem_of_cons. right. apply elem_of_cons. right.
    apply elem_of_cons. left. reflexivity.
  - vm_compute. discriminate.
Defined.

Lemma send_from_directory_cases S dir name :
  (Updater.send_from_directory S dir name
   = Updater.Returned (Updater.ReplyFromDirectory dir name) ∧
   ∃ file, Updater.safe_join S dir name = Some file ∧
           Fs.isfile (Updater.as_path S file) (Updater.disk S) = true) ∨
  (Updater.send_from_directory S dir name = Updater.Aborted Updater.NotFound ∧
   ∀ file, Updater.safe_join S dir name = Some file →
           Fs.isfile (Updater.as_path S file) (Updater.disk S) = false).
Proof.
  unfold Updater.send_from_directory.
  destruct (Updater.safe_join S dir name) as [file|]; [|by right].
  destruct (Fs.isfile _ _) eqn:Hf.
  - left. split; [done|]. by exists file.
  - right. split; [done|]. intros file' ?. by simplify_eq.
Qed.

(** With the key, a protected view is [get_paths] followed by the
    making of the reply, which only [get_file] can fail at. *)
Lemma protected_with_key S name v environ st :
  v ∈ Updater.protected S name →
  environ !! "HTTP_X_APIKEY" = Some (Updater.AUTH_KEY S) →
  ∃ reply_of,
    v environ st
    = match Updater.get_paths S st with
      | (Updater.Returned (dir, tar), st1) => (reply_of dir tar, st1)
      | (Updater.Aborted e, st1) => (Updater.Aborted e, st1)
      end ∧
    ∀ dir tar,
      reply_of dir tar
      = Updater.Returned
          (Updater.ReplyFiles
             (Updater.walk_files (Updater.os_walk S (Updater.as_path S dir)))) ∨
      reply_of dir tar = Updater.send_from_directory S dir name ∨
      reply_of dir tar = Updater.Returned (Updater.ReplyFile tar).
Proof.
  intros Hv Hkey. unfold Updater.protected in Hv.
  repeat (apply elem_of_cons in Hv as [->|Hv]); [| | |by apply elem_of_nil in Hv];
    unfold Updater.list_files, Updater.get_file, Updater.get_all_files,
      Updater.api_login;
    rewrite decide_True by done;
    unfold Updater.list_files_view, Updater.get_file_view,
      Updater.get_all_files_view.
  - exists (λ dir _, Updater.Returned
                       (Updater.ReplyFiles
                          (Updater.walk_files
                             (Updater.os_walk S (Updater.as_path S dir))))).
    split; [|by left]. by destruct (Updater.get_paths S st) as [[[dir tar]|e] st1].
  - exists (λ dir _, Updater.send_from_directory S dir name).
    split; [|by right; left]. by destruct (Updater.get_paths S st) as [[[dir tar]|e] st1].
  - exists (λ _ tar, Updater.Returned (Updater.ReplyFile tar)).
    split; [|by right; right]. by destruct (Updater.get_paths S st) as [[[dir tar]|e] st1].
Qed.

Lemma protected_returned S name v environ st r st' :
  v ∈ Updater.protected S name →
  v environ st = (Updater.Returned r, st') →
  environ !! "HTTP_X_APIKEY" = Some (Updater.AUTH_KEY S) ∧
  ∃ dir tar,
    (∃ request body,
       Updater.status_service S = Ok request ∧ Updater.status_ok request = true ∧
       Updater.json_body request = Ok body ∧
       Py.getitem body "_directory" = Ok (JStr dir) ∧
       Py.getitem body "_tar" = Ok (JStr tar)) ∧
    Fs.isdir (Updater.as_path S dir) (Updater.disk S) = true ∧
    Fs.isfile (Updater.as_path S tar) (Updater.disk S) = true ∧
    r ∈ [Updater.ReplyFiles
           (Updater.walk_files (Updater.os_walk S (Updater.as_path S dir)));
         Updater.ReplyFromDirectory dir name;
         Updater.ReplyFile tar] ∧
    st' = Updater.mkState (Datatypes.S (Updater.status_requests st))
            (Updater.warnings st).
Proof.
  intros Hv Hr. unfold Updater.protected in Hv.
  assert (Hkey : environ !! "HTTP_X_APIKEY" = Some (Updater.AUTH_KEY S)).
  { destruct (decide (environ !! "HTTP_X_APIKEY" = Some (Updater.AUTH_KEY S)))
      as [|Hne]; [done|].
    by rewrite (protected_refuses _ _ _ _ st Hv Hne) in Hr. }
  split; [done|].
  destruct (protected_with_key _ _ _ _ st Hv Hkey) as (reply_of & Hview & Hreply).
  rewrite Hview in Hr.
  destruct (Updater.get_paths S st) as [[[dir tar]|e] st1] eqn:Hp; [|done].
  injection Hr as Hr <-.
  apply get_paths_inv in Hp as (Hstatus & Hd & Ht & ->).
  exists dir, tar. split; [done|]. split; [done|]. split; [done|]. split; [|done].
  rewrite !elem_of_cons.
  destruct (Hreply dir tar) as [Heq|[Heq|Heq]]; rewrite Heq in Hr.
  - left. by simplify_eq.
  - right. left. destruct (send_from_directory_cases S dir name) as [[H _]|[H _]];
      rewrite H in Hr; by simplify_eq.
  - right. right. left. by simplify_eq.
Qed.

(** X23.  Nothing is served but from a ready update: when one of the
    three protected views returns a reply, the request carried the key,
    the update daemon answered with a success status and a JSON body
    whose [_directory] names a directory of the disk and whose [_tar]
    names a regular file, and the reply is the listing of that directory,
    the named file taken from that directory, or that tar file.  The
    daemon was asked once and nothing was logged. *)
Theorem X23_served_only_from_a_ready_update S name v environ st r st' :
  v ∈ Updater.protected S name →
  v environ st = (Updater.Returned r, st') →
  environ !! "HTTP_X_APIKEY" = Some (Updater.AUTH_KEY S) ∧
  ∃ dir tar,
    (∃ request body,
       Updater.status_service S = Ok request ∧ Updater.status_ok request = true ∧
       Updater.json_body request = Ok body ∧
       Py.getitem body "_directory" = Ok (JStr dir) ∧
       Py.getitem body "_tar" = Ok (JStr tar)) ∧
    Fs.isdir (Updater.as_path S dir) (Updater.disk S) = true ∧
    Fs.isfile (Updater.as_path S tar) (Updater.disk S) = true ∧
    r ∈ [Updater.ReplyFiles
           (Updater.walk_files (Updater.os_walk S (Updater.as_path S dir)));
         Updater.ReplyFromDirectory dir name;
         Updater.ReplyFile tar] ∧
    st' = Updater.mkState (Datatypes.S (Updater.status_requests st))
            (Updater.warnings st).
Proof. apply protected_returned. Qed.

Lemma X23_served_only_from_a_ready_update_witness :
  ({[ "HTTP_X_APIKEY" := "s3cret" ]} : gmap string string) !! "HTTP_X_APIKEY"
  = Some (Updater.AUTH_KEY (update_server "s3cret")) ∧
  ∃ dir tar,
    (∃ request body,
       Updater.status_service (update_server "s3cret") = Ok request ∧
       Updater.status_ok request = true ∧
       Updater.json_body request = Ok body ∧
       Py.getitem body "_directory" = Ok (JStr dir) ∧
       Py.getitem body "_tar" = Ok (JStr tar)) ∧
    Fs.isdir (Updater.as_path (update_server "s3cret") dir)
             (Updater.disk (update_server "s3cret")) = true ∧
    Fs.isfile (Updater.as_path (update_server "s3cret") tar)
              (Updater.disk (update_server "s3cret")) = true ∧
    Updater.ReplyFromDirectory "updates/rules" "a.yar"
    ∈ [Updater.ReplyFiles
         (Updater.walk_files
            (Updater.os_walk (update_server "s3cret")
               (Updater.as_path (update_server "s3cret") dir)));
       Updater.ReplyFromDirectory dir "a.yar";
       Updater.ReplyFile tar] ∧
    Updater.mkState 1 []
    = Updater.mkState (Datatypes.S (Updater.status_requests idle))
        (Updater.warnings idle).
Proof.
  apply (X23_served_only_from_a_ready_update (update_server "s3cret") "a.yar"
           (Updater.get_file (update_server "s3cret") "a.yar")
           {[ "HTTP_X_APIKEY" := "s3cret" ]} idle
           (Updater.ReplyFromDirectory "updates/rules" "a.yar")
           (Updater.mkState 1 [])).
  - unfold Updater.protected. apply elem_of_cons. right. apply elem_of_cons. left.
    reflexivity.
  - vm_compute. reflexivity.
Defined.

Lemma protected_aborted S name v environ st e st' :
  v ∈ Updater.protected S name →
  v environ st = (Updater.Aborted e, st') →
  (environ !! "HTTP_X_APIKEY" ≠ Some (Updater.AUTH_KEY S) ∧
   e = Updater.Unauthorized "Unauthorized access denied" ∧
   Updater.status_requests st' = Updater.status_requests st) ∨
  (environ !! "HTTP_X_APIKEY" = Some (Updater.AUTH_KEY S) ∧
   Updater.status_requests st' = Datatypes.S (Updater.status_requests st) ∧
   Updater.warnings st' = Updater.warnings st ∧
   (e = Updater.ServiceUnavailable "No update ready" ∨
    (e = Updater.NotFound ∧
     v environ st = Updater.get_file S name environ st ∧
     ∃ dir tar,
       Updater.get_paths S st = (Updater.Returned (dir, tar), st') ∧
       ∀ file, Updater.safe_join S dir name = Some file →
               Fs.isfile (Updater.as_path S file) (Updater.disk S) = false))).
Proof.
  intros Hv Hr.
  destruct (decide (environ !! "HTTP_X_APIKEY" = Some (Updater.AUTH_KEY S)))
    as [Hkey|Hne].
  - right. split; [done|].
    destruct (protected_with_key _ _ _ _ st Hv Hkey) as (reply_of & Hview & Hreply).
    pose proof Hr as Hr0. rewrite Hview in Hr.
    destruct (Updater.get_paths S st) as [[[dir tar]|e0] st1] eqn:Hp.
    + injection Hr as Hr Hst1. subst st1.
      pose proof Hp as Hp'. apply get_paths_inv in Hp' as (_ & _ & _ & Hst).
      split; [by rewrite Hst|]. split; [by rewrite Hst|]. right.
      destruct (Hreply dir tar) as [Heq|[Heq|Heq]]; rewrite Heq in Hr; [done| |done].
      destruct (send_from_directory_cases S dir name) as [[H _]|[H Hfile]];
        rewrite H in Hr; [done|]. injection Hr as <-. split; [done|]. split.
      * rewrite Hr0. unfold Updater.get_file, Updater.api_login.
        rewrite decide_True by done. unfold Updater.get_file_view.
        by rewrite Hp, H.
      * by exists dir, tar.
    + injection Hr as He Hst1. subst e0 st1.
      apply get_paths_aborted in Hp as [-> Hst].
      split; [by rewrite Hst|]. split; [by rewrite Hst|]. by left.
  - left. rewrite (protected_refuses _ _ _ _ st Hv Hne) in Hr. by simplify_eq.
Qed.

(** X24.  A protected view fails in three ways only.  Without the key it
    is refused, and the update daemon is not asked.  With the key, any
    failure on the way to the update (the daemon cannot be reached or
    answers with an error status, its body is no JSON or lacks
    [_directory] or [_tar], the directory is no directory or the tar no
    file) ends in [ServiceUnavailable] "No update ready"; and [get_file],
    alone, ends in [NotFound] when the update is ready and the name,
    joined to the directory, is no regular file of the disk.  In both
    cases the daemon was asked once and nothing was logged.  No other
    exception gets through. *)
Theorem X24_protected_views_fail_in_three_ways S name v environ st e st' :
  v ∈ Updater.protected S name →
  v environ st = (Updater.Aborted e, st') →
  (environ !! "HTTP_X_APIKEY" ≠ Some (Updater.AUTH_KEY S) ∧
   e = Updater.Unauthorized "Unauthorized access denied" ∧
   Updater.status_requests st' = Updater.status_requests st) ∨
  (environ !! "HTTP_X_APIKEY" = Some (Updater.AUTH_KEY S) ∧
   Updater.status_requests st' = Datatypes.S (Updater.status_requests st) ∧
   Updater.warnings st' = Updater.warnings st ∧
   (e = Updater.ServiceUnavailable "No update ready" ∨
    (e = Updater.NotFound ∧
     v environ st = Updater.get_file S name environ st ∧
     ∃ dir tar,
       Updater.get_paths S st = (Updater.Returned (dir, tar), st') ∧
       ∀ file, Updater.safe_join S dir name = Some file →
               Fs.isfile (Updater.as_path S file) (Updater.disk S) = false))).
Proof. apply protected_aborted. Qed.

Lemma X24_protected_views_fail_in_three_ways_witness :
  (({[ "HTTP_X_APIKEY" := "s3cret" ]} : gmap string string) !! "HTTP_X_APIKEY"
   ≠ Some (Updater.AUTH_KEY (update_server "s3cret")) ∧
   Updater.NotFound = Updater.Unauthorized "Unauthorized access denied" ∧
   Updater.status_requests (Updater.mkState 1 []) = Updater.status_requests idle) ∨
  (({[ "HTTP_X_APIKEY" := "s3cret" ]} : gmap string string) !! "HTTP_X_APIKEY"
   = Some (Updater.AUTH_KEY (update_server "s3cret")) ∧
   Updater.status_requests (Updater.mkState 1 [])
   = Datatypes.S (Updater.status_requests idle) ∧
   Updater.warnings (Updater.mkState 1 []) = Updater.warnings idle ∧
   (Updater.NotFound = Updater.ServiceUnavailable "No update ready" ∨
    (Updater.NotFound = Updater.NotFound ∧
     Updater.get_file (update_server "s3cret") "missing.yar"
       {[ "HTTP_X_APIKEY" := "s3cret" ]} idle
     = Updater.get_file (update_server "s3cret") "missing.yar"
         {[ "HTTP_X_APIKEY" := "s3cret" ]} idle ∧
     ∃ dir tar,
       Updater.get_paths (update_server "s3cret") idle
       = (Updater.Returned (dir, tar), Updater.mkState 1 []) ∧
       ∀ file, Updater.safe_join (update_server "s3cret") dir "missing.yar" = Some file →
               Fs.isfile (Updater.as_path (update_server "s3cret") file)
                         (Updater.disk (update_server "s3cret")) = false))).
Proof.
  apply (X24_protected_views_fail_in_three_ways (update_server "s3cret") "missing.yar"
           (Updater.get_file (update_server "s3cret") "missing.yar")
           {[ "HTTP_X_APIKEY" := "s3cret" ]} idle
           Updater.NotFound (Updater.mkState 1 [])).
  - unfold Updater.protected. apply elem_of_cons. right. apply elem_of_cons. left.
    reflexivity.
  - vm_compute. reflexivity.
Defined.

(** X25.  A process started without [AL_INSTANCE_KEY] accepts the key
    written in the source: a request that carries
    "ThisIsARandomAuthKey...ChangeMe!" is not refused by any protected
    view, and leaves no warning. *)
Theorem X25_unset_instance_key_accepts_the_default S process_environ name v environ st :
  Updater.AUTH_KEY S = Updater.auth_key_of process_environ →
  process_environ !! "AL_INSTANCE_KEY" = None →
  environ !! "HTTP_X_APIKEY" = Some "ThisIsARandomAuthKey...ChangeMe!" →
  v ∈ Updater.protected S name →
  (∀ description,
     (v environ st).1 ≠ Updater.Aborted (Updater.Unauthorized description)) ∧
  Updater.warnings (v environ st).2 = Updater.warnings st.
Proof.
  intros HS Hunset Hkey Hv.
  assert (Hk : environ !! "HTTP_X_APIKEY" = Some (Updater.AUTH_KEY S)).
  { rewrite HS. unfold Updater.auth_key_of. by rewrite Hunset. }
  destruct (v environ st) as [[r|e] st'] eqn:Hr; simpl.
  - split; [done|].
    by destruct (protected_returned _ _ _ _ _ _ _ Hv Hr)
      as (_ & dir & tar & _ & _ & _ & _ & ->).
  - destruct (protected_aborted _ _ _ _ _ _ _ Hv Hr)
      as [(Hne & _)|(_ & _ & Hw & [->|[-> _]])]; [done| |]; by split.
Qed.

Lemma X25_unset_instance_key_accepts_the_default_witness :
  (∀ description,
     (Updater.get_all_files (update_server "ThisIsARandomAuthKey...ChangeMe!")
        {[ "HTTP_X_APIKEY" := "ThisIsARandomAuthKey...ChangeMe!" ]} idle).1
     ≠ Updater.Aborted (Updater.Unauthorized description)) ∧
  Updater.warnings
    (Updater.get_all_files (update_server "ThisIsARandomAuthKey...ChangeMe!")
       {[ "HTTP_X_APIKEY" := "ThisIsARandomAuthKey...ChangeMe!" ]} idle).2
  = Updater.warnings idle.
Proof.
  apply (X25_unset_instance_key_accepts_the_default
           (update_server "ThisIsARandomAuthKey...ChangeMe!") ∅ "a.yar"
           (Updater.get_all_files (update_server "ThisIsARandomAuthKey...ChangeMe!"))
           {[ "HTTP_X_APIKEY" := "ThisIsARandomAuthKey...ChangeMe!" ]} idle).
  - vm_compute. reflexivity.
  - vm_compute. reflexivity.
  - vm_compute. reflexivity.
  - unfold Updater.protected. apply elem_of_cons. right. apply elem_of_cons. right.
    apply elem_of_cons. left. reflexivity.
Defined.

Lemma load_service_manifest_service E b w j w1 :
  load_service_manifest E b w = (Ok j, w1) → is_Some (self_service w1).
Proof.
  unfold load_service_manifest. intros H.
  apply bind_inv in H as (present & w0 & [-> ->]%fs_query_inv & H).
  destruct (Fs.exists_ _ (fs w)); [|done].
  apply bind_inv in H as ([data h] & w2 & _ & H).
  unfold configure_service in H.
  apply bind_inv in H as (config & w3 & _ & H).
  apply bind_inv in H as (pj & w4 & _ & H).
  apply bind_inv in H as (items & w5 & _ & H).
  apply bind_inv in H as (params & w6 & _ & H).
  apply bind_inv in H as ([] & w7 & _ & H).
  apply bind_inv in H as (cls & w8 & _ & H).
  apply bind_inv in H as (svc & w9 & _ & H).
  apply bind_inv in H as ([] & w10 & ->%update_inv & H).
  apply ret_inv in H as [_ ->]. by eexists.
Qed.

(** X27.  [stop] needs a loaded manifest.  On a runner as [__init__]
    leaves it, [self.service] is [None] and [stop] raises
    [AttributeError] without touching anything.  Once
    [load_service_manifest] has returned, the runner holds a service
    instance and [stop] calls its [stop_service], once, on the files as
    they are: the outcome and the files left are those of
    [stop_service]. *)
Theorem X27_stop_needs_a_loaded_manifest E b disk :
  stop (fresh disk)
  = (Raise (AttributeError "'NoneType' object has no attribute"), fresh disk) ∧
  ∀ w j w1,
    load_service_manifest E b w = (Ok j, w1) →
    ∃ svc, self_service w1 = Some svc ∧
           stop w1 = ((stop_service svc (fs w1)).1,
                      set_fs (stop_service svc (fs w1)).2 (add_event EvStopService w1)).
Proof.
  split; [done|]. intros w j w1 [svc Hsvc]%load_service_manifest_service.
  exists svc. split; [done|]. unfold stop, call_service. rewrite Hsvc. simpl.
  by destruct (stop_service svc (fs w1)).
Qed.

Lemma X27_stop_needs_a_loaded_manifest_witness :
  ∃ svc, self_service loaded = Some svc ∧
         stop loaded = ((stop_service svc (fs loaded)).1,
                        set_fs (stop_service svc (fs loaded)).2
                          (add_event EvStopService loaded)).
Proof.
  apply (proj2 (X27_stop_needs_a_loaded_manifest Demo.E false (Demo.disk "abc" true))
           (set_service_class (λ _, Ok (Demo.svc true)) Demo.w0) JNull loaded).
  apply (run_outcome (load_service_manifest Demo.E false)
           (set_service_class (λ _, Ok (Demo.svc true)) Demo.w0)).
  vm_compute; reflexivity.
Defined.
